(** * Digital-infrastructure newsletter: citation assembly, generation view
      and research settings

    A shallow embedding of the parts of the newsletter generator UI that
    number citations, filter progress steps and read the research
    settings, together with a model of the orchestration loop that the
    design document describes.

    - [JsText]   : the fragment of JavaScript string and regular-expression
                   behaviour used by [lib/api.ts].
    - [Api]      : [convertToUIFormat] and its inner [convertSection]
                   ([lib/api.ts]).
    - [InPlace]  : the same conversion run on a store of arrays, with
                   [push], [sort] and the global match writing in place.
    - [GenerationView] : [getFilteredSteps], [updateStep],
                   [handleStatusUpdate] and [handleGenerate]
                   ([components/generation-view.tsx]).
    - [Settings] : [getPlayerSettings], [getPlayerNames],
                   [getActivePlayers] ([components/settings-modal.tsx]).
    - [Orchestrator] : the review / fix loop of the design document.
    - [SettingsModal] : the toggle, rename and review-round handlers of
                   the settings modal ([components/settings-modal.tsx]).
    - [ReadingView] : the parsing of citations when a section is rendered
                   ([components/newsletter-reading-view.tsx]).
    - [ApiClient] : [generateNewsletterStreaming] and
                   [fetchNewsletterDetail] ([lib/api.ts]).

    Texts are strings of code units below 256 (the dash of the title is
    written as its UTF-8 bytes); a JavaScript object used as a dictionary
    is the finite map of its own properties, read through the prototype
    where the source reads it so. *)

From Stdlib Require Import ZArith Ascii String DecimalString DecimalNat.
From stdpp Require Import base option list gmap strings fin_maps sorting.

Local Open Scope string_scope.

(** ** JavaScript strings and the regular expressions of [api.ts] *)

Module JsText.

Definition code (c : ascii) : nat := nat_of_ascii c.

Definition in_range (lo hi : nat) (c : ascii) : bool :=
  (lo <=? code c)%nat && (code c <=? hi)%nat.

(** [\s] (and the characters removed by [trim]) below code unit 256:
    TAB, LF, VT, FF, CR, SPACE and NBSP. *)
Definition is_space (c : ascii) : bool :=
  in_range 9 13 c || (code c =? 32)%nat || (code c =? 160)%nat.

(** [[a-f0-9]] under the [i] flag. *)
Definition is_hex (c : ascii) : bool :=
  in_range 48 57 c || in_range 97 102 c || in_range 65 70 c.

Definition is_digit (c : ascii) : bool := in_range 48 57 c.

Definition ch (a : ascii) (c : ascii) : bool := (code c =? code a)%nat.

Definition not_ch (a : ascii) (c : ascii) : bool := negb (ch a c).

(** A letter under the [i] flag: it matches both cases. *)
Definition ch_ci (lower upper : ascii) (c : ascii) : bool :=
  ch lower c || ch upper c.

(** The regular expressions of the source are sequences of character
    classes, each taken once or under a greedy star. *)
Inductive atom : Type :=
| One (p : ascii → bool)
| Many (p : ascii → bool).

Definition regex : Type := list atom.

(** Backtracking match of [r] at the start of [s]: the length of the
    match the engine finds first (a star takes as much as it can and
    gives characters back only when the rest fails). *)
Fixpoint rmatch (r : regex) : string → option nat :=
  match r with
  | [] => λ _, Some 0
  | One p :: r' => λ s,
      match s with
      | String c s' => if p c then S <$> rmatch r' s' else None
      | EmptyString => None
      end
  | Many p :: r' =>
      fix many (s : string) : option nat :=
        match s with
        | String c s' =>
            if p c then
              match many s' with
              | Some n => Some (S n)
              | None => rmatch r' s
              end
            else rmatch r' s
        | EmptyString => rmatch r' s
        end
  end.

Definition take_str (n : nat) (s : string) : string := substring 0 n s.

Fixpoint drop_str (n : nat) (s : string) : string :=
  match n, s with
  | S k, String _ s' => drop_str k s'
  | _, _ => s
  end.

(** [s.replace(/r/g, rep)]: matches are looked for from left to right,
    the search resumes after each match; an empty match inserts [rep]
    and moves one character on. [skip] counts the characters of the
    current match still to be dropped. *)
Fixpoint replace_from (r : regex) (rep : string) (skip : nat) (s : string)
  : string :=
  match s with
  | EmptyString =>
      match skip, rmatch r EmptyString with
      | 0, Some _ => rep
      | _, _ => EmptyString
      end
  | String c s' =>
      match skip with
      | S k => replace_from r rep k s'
      | 0 =>
          match rmatch r s with
          | Some (S n) => rep ++ replace_from r rep n s'
          | Some 0 => rep ++ String c (replace_from r rep 0 s')
          | None => String c (replace_from r rep 0 s')
          end
      end
  end.

Definition replaceAll (r : regex) (rep : string) (s : string) : string :=
  replace_from r rep 0 s.

(** [s.match(/r/g) || []]: the matched substrings, left to right. *)
Fixpoint match_from (r : regex) (skip : nat) (s : string) : list string :=
  match s with
  | EmptyString =>
      match skip, rmatch r EmptyString with
      | 0, Some _ => [EmptyString]
      | _, _ => []
      end
  | String c s' =>
      match skip with
      | S k => match_from r k s'
      | 0 =>
          match rmatch r s with
          | Some (S n) => take_str (S n) s :: match_from r n s'
          | Some 0 => EmptyString :: match_from r 0 s'
          | None => match_from r 0 s'
          end
      end
  end.

Definition matchAll (r : regex) (s : string) : list string :=
  match_from r 0 s.

(** [s.replace(pat, rep)] with a string pattern: first occurrence only. *)
Fixpoint replaceFirst (pat rep : string) (s : string) : string :=
  if String.prefix pat s then rep ++ drop_str (String.length pat) s
  else match s with
       | EmptyString => EmptyString
       | String c s' => String c (replaceFirst pat rep s')
       end.

Fixpoint trimStart (s : string) : string :=
  match s with
  | String c s' => if is_space c then trimStart s' else s
  | EmptyString => EmptyString
  end.

Fixpoint trimEnd (s : string) : string :=
  match s with
  | String c s' =>
      match trimEnd s' with
      | EmptyString => if is_space c then EmptyString else String c EmptyString
      | t => String c t
      end
  | EmptyString => EmptyString
  end.

Definition trim (s : string) : string := trimEnd (trimStart s).

(** [s.includes(sub)] *)
Fixpoint includes (sub : string) (s : string) : bool :=
  if String.prefix sub s then true
  else match s with
       | EmptyString => false
       | String _ s' => includes sub s'
       end.

(** [[...new Set(l)]]: a Set keeps its elements in insertion order and
    ignores the insertion of an element it already holds. *)
Definition set_add (acc : list string) (x : string) : list string :=
  if decide (x ∈ acc) then acc else (acc ++ [x])%list.

Definition spread_set (l : list string) : list string :=
  foldl set_add [] l.

(** The first occurrences in [l] of the elements not yet in [seen]: what
    [foldl set_add seen l] appends to [seen]. *)
Fixpoint first_seen (seen l : list string) : list string :=
  match l with
  | [] => []
  | x :: l' =>
      if decide (x ∈ seen) then first_seen seen l'
      else x :: first_seen (seen ++ [x])%list l'
  end.

(** Template literal of a number. *)
Definition num_to_string (n : nat) : string :=
  NilZero.string_of_uint (Nat.to_uint n).

(** [a || b] on strings: the empty string is falsy. *)
Definition str_or (a : option string) (b : string) : string :=
  match a with
  | Some EmptyString | None => b
  | Some s => s
  end.

(** [s.split(sep)] for a one-character separator. *)
Fixpoint split_on (sep : ascii) (s : string) : list string :=
  match s with
  | EmptyString => [EmptyString]
  | String c s' =>
      if ch sep c then EmptyString :: split_on sep s'
      else match split_on sep s' with
           | w :: ws => String c w :: ws
           | [] => [String c EmptyString]
           end
  end.

(** [s.substring(i, j)] for [i <= j]. *)
Definition substring_js (i j : nat) (s : string) : string :=
  substring i (j - i) s.

End JsText.

(** ** [lib/api.ts]: backend artefacts and their conversion for the UI *)

Module Api.
Import JsText.

Record TimeWindow := { start : string; end_ : string }.

Record NewsletterMeta := {
  newsletter_id : string;
  original_prompt : string;
  time_window : TimeWindow;
  voice_profile : string;
  region_focus : option string;
  style_prompt : option string;
  verticals_included : list string;
  created_at : string;
}.

Record EvidenceData := { publish_date : option string }.

Record EvidenceItem := {
  evidence_id : string;
  title : option string;
  source_name : string;
  url : option string;
  data : option EvidenceData;
}.

Record EvidencePack := { items : list EvidenceItem }.

Record Bullet := {
  text : string;
  evidence_ids : list string;
  player_referenced : option string;
}.

Record SectionData := {
  section_id : string;
  headline : option string;
  big_picture : string;
  big_picture_evidence_ids : list string;
  bullets : list Bullet;
  risk_flags : list string;
}.

(** [SectionForUI] and its parts. *)
Module UI.
Record Bullet := { text : string; evidenceId : string }.
Record Evidence := {
  id : string;
  title : string;
  source : string;
  url : string;
  publishDate : option string;
}.
Record Section := {
  headline : option string;
  bigPicture : string;
  bullets : list Bullet;
  evidence : list Evidence;
}.
End UI.

Record Sections := {
  dataCenters : UI.Section;
  connectivity : UI.Section;
  towers : UI.Section;
}.

(** An entry of [verticals]: a text or, for a name that the object
    [verticalMap] inherits from [Object.prototype], the inherited
    object. *)
Inductive Label : Type :=
| Text (s : string)
| Inherited (name : string).

Record NewsletterDetail := {
  nd_id : string;
  nd_title : string;
  nd_date : string;
  nd_timeWindow : TimeWindow;
  nd_voiceProfile : string;
  nd_verticals : list Label;
  nd_regions : list string;
  nd_createdAt : string;
  nd_sections : Sections;
}.

(** [ev_[a-f0-9]{8}] under [gi]. *)
Definition marker : regex :=
  ([One (ch_ci "e" "E"); One (ch_ci "v" "V"); One (ch "_")]
     ++ replicate 8 (One is_hex))%list.

Definition evidenceIdPattern : regex := marker.

Definition extractEvidenceIds (text : string) : list string :=
  spread_set (matchAll evidenceIdPattern text).

Definition bigPictureIds (section : SectionData) : list string :=
  match big_picture_evidence_ids section with
  | [] => extractEvidenceIds (big_picture section)
  | ids => ids
  end.

Definition bulletEvidenceIds (section : SectionData) : list (list string) :=
  (λ b, match evidence_ids b with
        | [] => extractEvidenceIds (text b)
        | ids => ids
        end) <$> bullets section.

(** All referenced evidence IDs in order of appearance: the paragraph's,
    then those of each bullet in turn. *)
Definition allReferencedIds (section : SectionData) : list string :=
  foldl (λ acc ids, (acc ++ ids)%list) (bigPictureIds section)
        (bulletEvidenceIds section).

Definition uniqueIds (section : SectionData) : list string :=
  spread_set (allReferencedIds section).

(** [idToNum] is a plain object used as a dictionary: the map holds its
    own properties. The key [__proto__] is the accessor inherited from
    [Object.prototype]: assigning a number to it stores nothing, and
    reading it gives the prototype object. Every other key that
    [convertSection] reads has been assigned before (the IDs read are
    among [uniqueIds]), so that it is found as an own property. *)
Inductive Value : Type :=
| Num (n : nat)
| ObjectPrototype.

Global Instance Value_eq_dec : EqDecision Value.
Proof. solve_decision. Defined.

(** [idToNum[id] = n] *)
Definition assign (id : string) (n : nat) (o : gmap string nat)
  : gmap string nat :=
  if String.eqb id "__proto__" then o else <[id := n]> o.

(** [idToNum[id]]; [None] is [undefined]. *)
Definition read (o : gmap string nat) (id : string) : option Value :=
  if String.eqb id "__proto__" then Some ObjectPrototype
  else Num <$> o !! id.

(** [uniqueIds.forEach((id, idx) => { idToNum[id] = idx + 1 })] *)
Definition number_ids (ids : list string) : gmap string nat :=
  foldl (λ m p, assign p.2 (p.1 + 1) m) ∅ (imap pair ids).

Definition idToNum (section : SectionData) : gmap string nat :=
  number_ids (uniqueIds section).

(** First pattern of [stripEvidenceIds]: optional white space, an
    opening parenthesis, a run without closing parenthesis that holds a
    marker, and the closing parenthesis. *)
Definition paren_group : regex :=
  ([Many is_space; One (ch "("); Many (not_ch ")")]
     ++ marker ++ [Many (not_ch ")"); One (ch ")")])%list.

(** Second pattern: the same with square brackets. *)
Definition bracket_group : regex :=
  ([Many is_space; One (ch "["); Many (not_ch "]")]
     ++ marker ++ [Many (not_ch "]"); One (ch "]")])%list.

(** Third pattern: optional white space and a marker. *)
Definition standalone : regex := Many is_space :: marker.

(** Fourth pattern: a pair of parentheses around white space only. *)
Definition empty_parens : regex :=
  [One (ch "("); Many is_space; One (ch ")")].

(** Fifth pattern: two or more white-space characters. *)
Definition spaces2 : regex := [One is_space; One is_space; Many is_space].

Definition stripEvidenceIds (text : string) : string :=
  trim
    (replaceFirst " ." "."
      (replaceFirst " ," ","
        (replaceAll spaces2 " "
          (replaceAll empty_parens ""
            (replaceAll standalone ""
              (replaceAll bracket_group ""
                (replaceAll paren_group "" text))))))).

(** A value read as a condition: [undefined] and 0 are falsy, an
    object is truthy. *)
Definition truthy (v : option Value) : option Value :=
  match v with
  | Some (Num 0) | None => None
  | Some v => Some v
  end.

(** [ids.slice(0, k).map(id => idToNum[id]).filter(Boolean)]: a number
    that is missing or zero is dropped. *)
Definition citeNums (k : nat) (ids : list string) (nums : gmap string nat)
  : list Value :=
  omap (λ id, truthy (read nums id)) (take k ids).

(** A value in a template literal. *)
Definition text_of (v : Value) : string :=
  match v with
  | Num n => num_to_string n
  | ObjectPrototype => "[object Object]"
  end.

Definition cite (v : Value) : string := "[" ++ text_of v ++ "]".

(** [nums.map(n => `[${n}]`).join('')] *)
Definition cites (nums : list Value) : string :=
  foldr (λ n acc, cite n ++ acc) "" nums.

Definition withCites (clean : string) (nums : list Value) : string :=
  clean ++ match nums with
           | [] => ""
           | _ => " " ++ cites nums
           end.

Definition bigPictureWithCites (section : SectionData) : string :=
  withCites (stripEvidenceIds (big_picture section))
            (citeNums 3 (bigPictureIds section) (idToNum section)).

Definition bulletsWithCites (section : SectionData) : list UI.Bullet :=
  imap (λ index b,
          {| UI.text :=
               withCites (stripEvidenceIds (text b))
                 (citeNums 2 (default [] (bulletEvidenceIds section !! index))
                           (idToNum section));
             UI.evidenceId := str_or (head (evidence_ids b)) "" |})
       (bullets section).

(** [idToNum[id] || 999] *)
Definition num_or (o : option Value) (d : nat) : Value :=
  match truthy o with
  | Some v => v
  | None => Num d
  end.

(** [a - b]: [None] is [NaN], the difference when an operand is the
    prototype object. *)
Definition minus (a b : Value) : option Z :=
  match a, b with
  | Num x, Num y => Some (Z.of_nat x - Z.of_nat y)%Z
  | _, _ => None
  end.

(** [Array.prototype.sort] is stable; with a comparator that orders by a
    key it is insertion of each element before the first later element
    that does not precede it. (With a comparator that is not consistent
    the order is left to the implementation; the insertion is then one
    of the orders allowed.) *)
Fixpoint insert_by {A} (cmp : A → A → Z) (x : A) (l : list A) : list A :=
  match l with
  | [] => [x]
  | y :: l' => if (cmp x y <=? 0)%Z then x :: l else y :: insert_by cmp x l'
  end.

Definition sort_js {A} (cmp : A → A → Z) (l : list A) : list A :=
  foldr (insert_by cmp) [] l.

(** A comparator [(a, b) => key(a) - key(b)]. *)
Definition by_key {A} (key : A → nat) (a b : A) : Z :=
  (Z.of_nat (key a) - Z.of_nat (key b))%Z.

Definition numOf (nums : gmap string nat) (e : EvidenceItem) : Value :=
  num_or (read nums (evidence_id e)) 999.

(** The comparator of the sort; a result that is [NaN] is read as 0. *)
Definition byNum (nums : gmap string nat) (a b : EvidenceItem) : Z :=
  default 0%Z (minus (numOf nums a) (numOf nums b)).

Definition toUIEvidence (e : EvidenceItem) : UI.Evidence :=
  {| UI.id := evidence_id e;
     UI.title := str_or (title e) "Source";
     UI.source := source_name e;
     UI.url := str_or (url e) "#";
     UI.publishDate := data e ≫= publish_date |}.

Definition referencedEvidence (section : SectionData)
    (evidencePack : option EvidencePack) : list UI.Evidence :=
  toUIEvidence <$>
    sort_js (byNum (idToNum section))
      (filter (λ e, evidence_id e ∈ uniqueIds section)
              (from_option items [] evidencePack)).

Definition convertSection (sections : gmap string SectionData)
    (evidencePacks : gmap string EvidencePack) (sectionId : string)
  : UI.Section :=
  match sections !! sectionId with
  | None =>
      {| UI.headline := None; UI.bigPicture := "";
         UI.bullets := []; UI.evidence := [] |}
  | Some section =>
      {| UI.headline := headline section;
         UI.bigPicture := bigPictureWithCites section;
         UI.bullets := bulletsWithCites section;
         UI.evidence :=
           referencedEvidence section (evidencePacks !! sectionId) |}
  end.

Definition verticalMap : gmap string string :=
  list_to_map [("data_centers", "Data Centers");
               ("connectivity_fibre", "Connectivity & Fibre");
               ("towers_wireless", "Towers & Wireless")].

(** The names that a plain object inherits from [Object.prototype]. *)
Definition prototype_names : list string :=
  ["__proto__"; "constructor"; "hasOwnProperty"; "isPrototypeOf";
   "propertyIsEnumerable"; "toLocaleString"; "toString"; "valueOf";
   "__defineGetter__"; "__defineSetter__"; "__lookupGetter__";
   "__lookupSetter__"].

(** [verticalMap[v] || v]: the object is read through its prototype,
    and what it inherits is truthy. *)
Definition verticalLabel (v : string) : Label :=
  match verticalMap !! v with
  | Some name => Text (str_or (Some name) v)
  | None =>
      if bool_decide (v ∈ prototype_names) then Inherited v else Text v
  end.

Section Host.
(** The host's [new Date(d).toLocaleDateString('en-GB', ...)]. *)
Variable toLocaleDateString : string → string.

Definition convertToUIFormat (meta : NewsletterMeta)
    (sections : gmap string SectionData)
    (evidencePacks : gmap string EvidencePack) : NewsletterDetail :=
  let datePart :=
    str_or (split_on "_" (newsletter_id meta) !! 1) "" in
  let year := substring_js 0 4 datePart in
  let month := substring_js 4 6 datePart in
  let day := substring_js 6 8 datePart in
  let formattedDate := year ++ "-" ++ month ++ "-" ++ day in
  {| nd_id := newsletter_id meta;
     nd_title :=
       "Digital Infra Newsletter — " ++ toLocaleDateString formattedDate;
     nd_date := formattedDate;
     nd_timeWindow := time_window meta;
     nd_voiceProfile := voice_profile meta;
     nd_verticals := verticalLabel <$> verticals_included meta;
     nd_regions :=
       match region_focus meta with
       | Some (String c r) => [String c r]
       | _ => ["Global"]
       end;
     nd_createdAt := created_at meta;
     nd_sections :=
       {| dataCenters := convertSection sections evidencePacks "data_centers";
          connectivity :=
            convertSection sections evidencePacks "connectivity_fibre";
          towers := convertSection sections evidencePacks "towers_wireless" |}
  |}.
End Host.


(** The display number of an ID: what [idToNum[id]] reads when it is a
    number. *)
Definition displayNumber (section : SectionData) (id : string) : nat :=
  match read (idToNum section) id with
  | Some (Num n) => n
  | _ => 0
  end.




(** The characters a marker is made of. *)
Definition marker_char (c : ascii) : bool :=
  ch_ci "e" "E" c || ch_ci "v" "V" c || ch "_" c || is_hex c.

End Api.

(** ** The conversion with its arrays as objects

    In the source an array is an object: a value holds a reference to
    it, [push] and [sort] write to the object, and a regular expression
    with the flag [g] keeps the position of its last match. The
    conversion is run here on a store of such objects, so that what a
    run writes is there for the next run to read. *)

Module InPlace.
Import JsText Api.

Inductive Cell : Type :=
| Ids (l : list string)
| Items (l : list EvidenceItem)
| RegExp (lastIndex : nat).

Notation Heap := (list Cell).
Notation Ref := nat.

(** The stored artefacts. The arrays that the conversion may hand on or
    sort are held by reference; those it only maps over are values. *)
Record BulletRef := {
  b_text : string;
  b_evidence_ids : Ref;
  b_player_referenced : option string;
}.

Record SectionRef := {
  s_section_id : string;
  s_headline : option string;
  s_big_picture : string;
  s_big_picture_evidence_ids : Ref;
  s_bullets : list BulletRef;
  s_risk_flags : list string;
}.

Record PackRef := { p_items : Ref }.

Record Stored := {
  meta : NewsletterMeta;
  sections : gmap string SectionRef;
  evidencePacks : gmap string PackRef;
}.

(** A computation on the store. *)
Definition M (A : Type) : Type := Heap → A * Heap.

Definition ret {A} (x : A) : M A := λ h, (x, h).

Global Instance M_bind : MBind M :=
  λ A B (k : A → M B) (m : M A) h, let '(x, h') := m h in k x h'.

Fixpoint mapM {A B} (f : A → M B) (l : list A) : M (list B) :=
  match l with
  | [] => ret []
  | x :: l' => y ← f x; ys ← mapM f l'; ret (y :: ys)
  end.

Fixpoint forM {A} (f : A → M unit) (l : list A) : M unit :=
  match l with
  | [] => ret tt
  | x :: l' => _ ← f x; forM f l'
  end.

(** A new object. *)
Definition alloc (c : Cell) : M Ref := λ h, (length h, (h ++ [c])%list).

Definition store (r : Ref) (c : Cell) : M unit := λ h, (tt, <[r := c]> h).

Definition ids_at (h : Heap) (r : Ref) : list string :=
  match h !! r with Some (Ids l) => l | _ => [] end.

Definition items_at (h : Heap) (r : Ref) : list EvidenceItem :=
  match h !! r with Some (Items l) => l | _ => [] end.

Definition get_ids (r : Ref) : M (list string) := λ h, (ids_at h r, h).

Definition get_items (r : Ref) : M (list EvidenceItem) :=
  λ h, (items_at h r, h).

(** [array.push(...xs)] *)
Definition push (r : Ref) (xs : list string) : M unit :=
  l ← get_ids r; store r (Ids (l ++ xs)%list).

(** [array.sort(cmp)]: the array itself is reordered. *)
Definition sort (r : Ref) (cmp : EvidenceItem → EvidenceItem → Z) : M unit :=
  l ← get_items r; store r (Items (sort_js cmp l)).

(** [text.match(pattern) || []] for a pattern with the flag [g]: the
    search starts with [lastIndex] set to 0 and, after the last search
    has failed, leaves it at 0; the matches are a new array. *)
Definition match_all (pattern : Ref) (text : string) : M Ref :=
  _ ← store pattern (RegExp 0);
  alloc (Ids (matchAll evidenceIdPattern text)).

(** [[...new Set(array)]]: a new array. *)
Definition spread (r : Ref) : M Ref :=
  l ← get_ids r; alloc (Ids (spread_set l)).

Definition extractEvidenceIds (pattern : Ref) (text : string) : M Ref :=
  matches ← match_all pattern text; spread matches.

(** [(listed && listed.length > 0) ? listed : extractEvidenceIds(text)]:
    the listed array itself, not a copy. *)
Definition listed_or_found (pattern listed : Ref) (text : string) : M Ref :=
  l ← get_ids listed;
  match l with
  | [] => extractEvidenceIds pattern text
  | _ => ret listed
  end.

(** The IDs cited by a text, given those listed for it. *)
Definition cited_by (listed : list string) (text : string) : list string :=
  match listed with
  | [] => Api.extractEvidenceIds text
  | ids => ids
  end.

(** What [convertSection] has at hand once the IDs are numbered. *)
Record Numbered := {
  bigPictureIds : Ref;
  bulletEvidenceIds : list Ref;
  uniqueIds : Ref;
  idToNum : gmap string nat;
}.

(** The first half of [convertSection]: collect the cited IDs and
    number them. *)
Definition numberIds (section : SectionRef) : M Numbered :=
  evidenceIdPattern ← alloc (RegExp 0);
  bigPictureIds ←
    listed_or_found evidenceIdPattern (s_big_picture_evidence_ids section)
                    (s_big_picture section);
  bulletEvidenceIds ←
    mapM (λ b, listed_or_found evidenceIdPattern (b_evidence_ids b) (b_text b))
         (s_bullets section);
  spreadIds ← get_ids bigPictureIds;
  allReferencedIds ← alloc (Ids spreadIds);
  _ ← forM (λ ids, l ← get_ids ids; push allReferencedIds l)
           bulletEvidenceIds;
  uniqueIds ← spread allReferencedIds;
  unique ← get_ids uniqueIds;
  ret {| bigPictureIds := bigPictureIds;
         bulletEvidenceIds := bulletEvidenceIds;
         uniqueIds := uniqueIds;
         idToNum := number_ids unique |}.

(** The second half: the texts with their citations and the evidence. *)
Definition emit (section : SectionRef) (evidencePack : option PackRef)
    (n : Numbered) : M UI.Section :=
  bpIds ← get_ids (bigPictureIds n);
  let bigPictureWithCites :=
    withCites (stripEvidenceIds (s_big_picture section))
              (citeNums 3 bpIds (idToNum n)) in
  bulletsWithCites ←
    mapM (λ '(index, b),
            ids ← match bulletEvidenceIds n !! index with
                  | Some r => get_ids r
                  | None => ret []
                  end;
            listed ← get_ids (b_evidence_ids b);
            ret {| UI.text := withCites (stripEvidenceIds (b_text b))
                                        (citeNums 2 ids (idToNum n));
                   UI.evidenceId := str_or (head listed) "" |})
         (imap pair (s_bullets section));
  unique ← get_ids (uniqueIds n);
  items ← match evidencePack with
          | Some pack => get_items (p_items pack)
          | None => ret []
          end;
  filtered ← alloc (Items (filter (λ e, evidence_id e ∈ unique) items));
  _ ← sort filtered (byNum (idToNum n));
  sorted ← get_items filtered;
  ret {| UI.headline := s_headline section;
         UI.bigPicture := bigPictureWithCites;
         UI.bullets := bulletsWithCites;
         UI.evidence := toUIEvidence <$> sorted |}.

Definition convertSection (sections : gmap string SectionRef)
    (evidencePacks : gmap string PackRef) (sectionId : string)
  : M UI.Section :=
  match sections !! sectionId with
  | None =>
      ret {| UI.headline := None; UI.bigPicture := "";
             UI.bullets := []; UI.evidence := [] |}
  | Some section =>
      n ← numberIds section;
      emit section (evidencePacks !! sectionId) n
  end.

Section Host.
Variable toLocaleDateString : string → string.

(** [convertToUIFormat]: the three sections are converted in the order
    in which the object literal names them. *)
Definition convertToUIFormat (a : Stored) : M NewsletterDetail :=
  let datePart :=
    str_or (split_on "_" (newsletter_id (meta a)) !! 1) "" in
  let year := substring_js 0 4 datePart in
  let month := substring_js 4 6 datePart in
  let day := substring_js 6 8 datePart in
  let formattedDate := year ++ "-" ++ month ++ "-" ++ day in
  dataCenters ← convertSection (sections a) (evidencePacks a) "data_centers";
  connectivity ←
    convertSection (sections a) (evidencePacks a) "connectivity_fibre";
  towers ← convertSection (sections a) (evidencePacks a) "towers_wireless";
  ret {| nd_id := newsletter_id (meta a);
         nd_title :=
           "Digital Infra Newsletter — " ++ toLocaleDateString formattedDate;
         nd_date := formattedDate;
         nd_timeWindow := time_window (meta a);
         nd_voiceProfile := voice_profile (meta a);
         nd_verticals := verticalLabel <$> verticals_included (meta a);
         nd_regions :=
           match region_focus (meta a) with
           | Some (String c r) => [String c r]
           | _ => ["Global"]
           end;
         nd_createdAt := created_at (meta a);
         nd_sections :=
           {| dataCenters := dataCenters;
              connectivity := connectivity;
              towers := towers |} |}.

(** Two runs of the assembly in a row, the second on the store the first
    one left. *)
Definition assemble_twice (a : Stored)
  : M (NewsletterDetail * NewsletterDetail) :=
  first ← convertToUIFormat a;
  second ← convertToUIFormat a;
  ret (first, second).
End Host.

(** The stored artefacts as values: every array read out of the store. *)
Definition load_bullet (h : Heap) (b : BulletRef) : Bullet :=
  {| text := b_text b;
     evidence_ids := ids_at h (b_evidence_ids b);
     player_referenced := b_player_referenced b |}.

Definition load_section (h : Heap) (s : SectionRef) : SectionData :=
  {| section_id := s_section_id s;
     headline := s_headline s;
     big_picture := s_big_picture s;
     big_picture_evidence_ids := ids_at h (s_big_picture_evidence_ids s);
     bullets := load_bullet h <$> s_bullets s;
     risk_flags := s_risk_flags s |}.

Definition load_pack (h : Heap) (p : PackRef) : EvidencePack :=
  {| items := items_at h (p_items p) |}.

(** The references of the artefacts point to arrays of the store. *)
Definition holds_ids (h : Heap) (r : Ref) : bool :=
  match h !! r with Some (Ids _) => true | _ => false end.

Definition holds_items (h : Heap) (r : Ref) : bool :=
  match h !! r with Some (Items _) => true | _ => false end.

Definition section_ok (h : Heap) (s : SectionRef) : bool :=
  holds_ids h (s_big_picture_evidence_ids s)
  && forallb (λ b, holds_ids h (b_evidence_ids b)) (s_bullets s).

Definition valid (h : Heap) (a : Stored) : Prop :=
  map_Forall (λ _ s, section_ok h s = true) (sections a) ∧
  map_Forall (λ _ p, holds_items h (p_items p) = true) (evidencePacks a).

End InPlace.

(** ** [components/settings-modal.tsx]: research settings in local storage *)

Module Settings.
Import JsText.

(** [DEFAULT_PLAYERS], in the order of [Object.entries]. *)
Definition DEFAULT_PLAYERS : list (string * list string) :=
  [("data_centers",
    ["Equinix"; "Digital Realty"; "CyrusOne"; "QTS Data Centers";
     "NTT Global Data Centers"; "Iron Mountain Data Centers"; "Switch";
     "STACK Infrastructure"; "Google Cloud"; "Amazon Web Services (AWS)"]);
   ("connectivity_fibre",
    ["Lumen Technologies"; "Zayo"; "Crown Castle Fiber";
     "Colt Technology Services"; "euNetworks"; "CityFibre"; "Openreach";
     "Telxius"; "Sparkle (Telecom Italia Sparkle)"; "Subsea7"]);
   ("towers_wireless",
    ["American Tower"; "Cellnex Telecom"; "Vantage Towers";
     "SBA Communications"; "IHS Towers"; "Indus Towers"; "Crown Castle";
     "Phoenix Tower International"; "Helios Towers"; "DigitalBridge"])].

(** [PlayerSettings]: vertical, then player, to flag. *)
Abbreviation PlayerSettings := (gmap string (gmap string bool)).

(** [PlayerNames]: vertical, then original name, to custom name. *)
Abbreviation PlayerNames := (gmap string (gmap string string)).

(** What [localStorage.getItem(key)] followed by [JSON.parse] yields:
    nothing stored (or the empty string), a text that does not parse, or
    a value of the declared type. Stored texts that parse to a value
    outside the declared type are not part of the model. *)
Inductive Stored (A : Type) : Type :=
| Absent
| Malformed
| Json (a : A).
Arguments Absent {A}.
Arguments Malformed {A}.
Arguments Json {A} a.

Record LocalStorage := {
  player_settings : Stored PlayerSettings;
  player_names : Stored PlayerNames;
}.

(** The host: [None] when [typeof window === "undefined"], otherwise the
    browser's local storage. *)
Definition Window : Type := option LocalStorage.

Definition setItem_settings (v : PlayerSettings) (ls : LocalStorage)
  : LocalStorage :=
  {| player_settings := Json v; player_names := player_names ls |}.

(** One turn of the inner migration loop: a flag that is [undefined]
    becomes [true]. *)
Definition migrate_player (vertical : string)
    (st : PlayerSettings * bool) (player : string) : PlayerSettings * bool :=
  match st.1 !! vertical ≫= (.!! player) with
  | None => (alter (<[player := true]>) vertical st.1, true)
  | Some _ => st
  end.

(** One turn of the outer migration loop. *)
Definition migrate_vertical (st : PlayerSettings * bool)
    (entry : string * list string) : PlayerSettings * bool :=
  let st1 :=
    match st.1 !! entry.1 with
    | None => (<[entry.1 := ∅]> st.1, true)
    | Some _ => st
    end in
  foldl (migrate_player entry.1) st1 entry.2.

Definition migrate (parsed : PlayerSettings) : PlayerSettings * bool :=
  foldl migrate_vertical (parsed, false) DEFAULT_PLAYERS.

(** All players enabled for all verticals. *)
Definition defaults : PlayerSettings :=
  foldl (λ d entry,
           foldl (λ d player, alter (<[player := true]>) entry.1 d)
                 (<[entry.1 := ∅]> d) entry.2)
        ∅ DEFAULT_PLAYERS.

Definition getPlayerSettings (w : Window) : PlayerSettings * Window :=
  match w with
  | None => (∅, None)
  | Some ls =>
      match player_settings ls with
      | Json parsed =>
          let '(parsed', needsSave) := migrate parsed in
          (parsed',
           Some (if needsSave then setItem_settings parsed' ls else ls))
      | Absent | Malformed =>
          (defaults, Some (setItem_settings defaults ls))
      end
  end.

Definition getPlayerNames (w : Window) : PlayerNames :=
  match w with
  | None => ∅
  | Some ls =>
      match player_names ls with
      | Json names => names
      | Absent | Malformed => ∅
      end
  end.

(** [x === true], [x] being a flag or [undefined]. *)
Definition is_true (x : option bool) : bool :=
  match x with
  | Some true => true
  | _ => false
  end.

(** The per-vertical list of [getActivePlayers]. *)
Definition activeIn (settings : PlayerSettings) (names : PlayerNames)
    (vertical : string) (players : list string) : list string :=
  let verticalSettings := default ∅ (settings !! vertical) in
  let verticalNames := default ∅ (names !! vertical) in
  (λ player, str_or (verticalNames !! player) player) <$>
    List.filter (λ player, is_true (verticalSettings !! player)) players.

Definition getActivePlayers (w : Window)
  : gmap string (list string) * Window :=
  let '(settings, w') := getPlayerSettings w in
  let names := getPlayerNames w' in
  (foldl (λ result entry,
            <[entry.1 := activeIn settings names entry.1 entry.2]> result)
         ∅ DEFAULT_PLAYERS,
   w').

(** [settings[vertical]?.[player]]: the flag of a player, if any. *)
Definition flag (settings : PlayerSettings) (vertical player : string)
  : option bool :=
  settings !! vertical ≫= (.!! player).

(** [player] is a default player of [vertical] in [entries]. *)
Definition listed (entries : list (string * list string))
    (vertical player : string) : Prop :=
  Exists (λ entry, vertical = entry.1 ∧ player ∈ entry.2) entries.

(** The name under which an enabled player is reported. *)
Definition reported (names : PlayerNames) (vertical player : string)
  : string :=
  str_or (names !! vertical ≫= (.!! player)) player.

End Settings.

(** ** [components/generation-view.tsx]: progress steps and the generate
       handler *)

Module GenerationView.
Import JsText.

Inductive StepStatus : Type := pending | active | complete.

Global Instance StepStatus_eq_dec : EqDecision StepStatus.
Proof. solve_decision. Defined.

Record StatusStep := {
  id : string;
  label : string;
  status : StepStatus;
}.

Definition allSteps : list StatusStep :=
  [ {| id := "manager"; label := "Initializing run"; status := pending |};
    {| id := "research_dc"; label := "Researching Data Centers";
       status := pending |};
    {| id := "research_cf"; label := "Researching Connectivity";
       status := pending |};
    {| id := "research_tw"; label := "Researching Towers";
       status := pending |};
    {| id := "review"; label := "Reviewing content"; status := pending |};
    {| id := "editor"; label := "Editor finalising"; status := pending |};
    {| id := "assemble"; label := "Assembling newsletter";
       status := pending |} ].

Record Verticals := {
  dataCenters : bool;
  connectivity : bool;
  towers : bool;
}.

Definition getFilteredSteps (selectedVerticals : Verticals)
  : list StatusStep :=
  List.filter
    (λ step,
       if String.eqb (id step) "research_dc"
          && negb (dataCenters selectedVerticals) then false
       else if String.eqb (id step) "research_cf"
               && negb (connectivity selectedVerticals) then false
       else if String.eqb (id step) "research_tw"
               && negb (towers selectedVerticals) then false
       else true)
    allSteps.

Definition with_status (s : StepStatus) (step : StatusStep) : StatusStep :=
  {| id := id step; label := label step; status := s |}.

Definition parallelSteps : list string :=
  ["research_dc"; "research_cf"; "research_tw"].

(** The updater that [updateStep] hands to [setSteps]; [st] is [active]
    or [complete]. *)
Definition updateStep (stepId : string) (st : StepStatus)
    (prev : list StatusStep) : list StatusStep :=
  (λ step,
     if String.eqb (id step) stepId then with_status st step
     else if bool_decide (st = active)
             && bool_decide (stepId ∈ parallelSteps)
             && bool_decide (id step ∈ parallelSteps) then step
     else if bool_decide (st = active)
             && bool_decide (status step = active)
             && negb (String.eqb (id step) stepId)
             && negb (bool_decide (id step ∈ parallelSteps))
          then with_status complete step
     else step) <$> prev.

Definition stepMap : gmap string string :=
  list_to_map [("manager", "manager");
               ("research_data_centers", "research_dc");
               ("research_connectivity", "research_cf");
               ("research_towers", "research_tw");
               ("review", "review");
               ("editor", "editor");
               ("assemble", "assemble")].

(** Status reported by the backend stream. *)
Inductive StreamStatus : Type := start | finished.

Definition handleStatusUpdate (step message : string) (st : StreamStatus)
    (prev : list StatusStep) : list StatusStep :=
  let frontendStep := str_or (stepMap !! step) step in
  let frontendStatus :=
    match st with finished => complete | start => active end in
  updateStep frontendStep frontendStatus prev.

Record TimeWindow := { tw_start : string; tw_end : string }.

Record GenerateRequest := {
  time_window : TimeWindow;
  region_focus : option string;
  max_review_rounds : nat;
  active_players : gmap string (list string);
  verticals : list string;
  search_provider : string;
  strict_date_filtering : bool;
}.

Record GenerateResponse := { newsletter_id : string }.

(** The values the settings getters return at one moment. *)
Record SettingsRead := {
  activePlayers : gmap string (list string);
  reviewRounds : nat;
  searchProvider : string;
  strictDateFiltering : bool;
}.

(** The handler calls the getters twice: before the stream request and,
    when the stream has failed, once more before the plain request. The
    stored settings may have been changed in between. *)
Record ResearchSettings := {
  at_stream : SettingsRead;
  at_fallback : SettingsRead;
}.

(** Callbacks the streaming client invokes while the request runs. *)
Inductive StreamEvent : Type :=
| OnStatus (step message : string) (st : StreamStatus)
| OnDebug (category content : string).

(** What the backend does with the two requests: the callbacks of the
    stream and whether it resolves, and the outcome of the plain request
    (an error message or a response). *)
Record Backend := {
  stream_events : list StreamEvent;
  stream_result : option GenerateResponse;
  plain_result : string + GenerateResponse;
}.

Record DebugEvent := {
  de_id : string;
  de_category : string;
  de_content : string;
}.

Record DebugSource := {
  ds_title : string;
  ds_url : string;
  ds_publishDate : option string;
}.

(** The component state. *)
Record View := {
  isGenerating : bool;
  steps : list StatusStep;
  error : option string;
  debugEvents : list DebugEvent;
  debugIdCounter : nat;
  lastNewsletterId : option string;
  readyNewsletterId : option string;
  generatedVerticalIds : list string;
  debugSources : gmap string (list DebugSource);
  debugSourcesOpen : bool;
  selected : Verticals;
  startDate : string;
  endDate : string;
  regions : list string;
}.

(** What the handler does to the outside, in order; [Steps] records each
    value the [steps] state takes. *)
Inductive Effect : Type :=
| Toast (title description : string) (destructive : bool)
| GenerationStart
| Steps (l : list StatusStep)
| StreamRequest (req : GenerateRequest)
| Request (req : GenerateRequest).

Definition selectedVerticalIds (v : Verticals) : list string :=
  ((if dataCenters v then ["data_centers"] else [])
   ++ (if connectivity v then ["connectivity_fibre"] else [])
   ++ (if towers v then ["towers_wireless"] else []))%list.

(** [regions.join(", ")] *)
Fixpoint join (sep : string) (l : list string) : string :=
  match l with
  | [] => ""
  | [x] => x
  | x :: l' => x ++ sep ++ join sep l'
  end.

Definition regionFocus (regions : list string) : option string :=
  if (0 <? length regions)%nat && (length regions <? 6)%nat
  then Some (join ", " regions) else None.

Definition request (rs : SettingsRead) (v : View) : GenerateRequest :=
  {| time_window := {| tw_start := startDate v; tw_end := endDate v |};
     region_focus := regionFocus (regions v);
     max_review_rounds := reviewRounds rs;
     active_players := activePlayers rs;
     verticals := selectedVerticalIds (selected v);
     search_provider := searchProvider rs;
     strict_date_filtering := strictDateFiltering rs |}.

Definition set_steps (l : list StatusStep) (v : View) : View :=
  {| isGenerating := isGenerating v; steps := l; error := error v;
     debugEvents := debugEvents v; debugIdCounter := debugIdCounter v;
     lastNewsletterId := lastNewsletterId v;
     readyNewsletterId := readyNewsletterId v;
     generatedVerticalIds := generatedVerticalIds v;
     debugSources := debugSources v;
     debugSourcesOpen := debugSourcesOpen v; selected := selected v;
     startDate := startDate v; endDate := endDate v;
     regions := regions v |}.

Definition handleDebugEvent (category content : string) (v : View) : View :=
  {| isGenerating := isGenerating v; steps := steps v; error := error v;
     debugEvents :=
       (debugEvents v ++
          [ {| de_id := "debug-" ++ num_to_string (debugIdCounter v);
               de_category := category; de_content := content |} ])%list;
     debugIdCounter := S (debugIdCounter v);
     lastNewsletterId := lastNewsletterId v;
     readyNewsletterId := readyNewsletterId v;
     generatedVerticalIds := generatedVerticalIds v;
     debugSources := debugSources v;
     debugSourcesOpen := debugSourcesOpen v; selected := selected v;
     startDate := startDate v; endDate := endDate v;
     regions := regions v |}.

(** The state writes at the top of [handleGenerate]. *)
Definition begin_run (v : View) : View :=
  {| isGenerating := true;
     steps := with_status pending <$> getFilteredSteps (selected v);
     error := None;
     debugEvents := []; debugIdCounter := 0;
     lastNewsletterId := None; readyNewsletterId := None;
     generatedVerticalIds := [];
     debugSources := debugSources v;
     debugSourcesOpen := debugSourcesOpen v; selected := selected v;
     startDate := startDate v; endDate := endDate v;
     regions := regions v |}.

(** The state writes after a successful request. *)
Definition succeed (r : GenerateResponse) (v : View) : View :=
  {| isGenerating := isGenerating v; steps := steps v; error := error v;
     debugEvents := debugEvents v; debugIdCounter := debugIdCounter v;
     lastNewsletterId := Some (newsletter_id r);
     readyNewsletterId := Some (newsletter_id r);
     generatedVerticalIds := selectedVerticalIds (selected v);
     debugSources := ∅;
     debugSourcesOpen := false; selected := selected v;
     startDate := startDate v; endDate := endDate v;
     regions := regions v |}.

Definition fail (message : string) (v : View) : View :=
  {| isGenerating := isGenerating v; steps := steps v;
     error := Some message;
     debugEvents := debugEvents v; debugIdCounter := debugIdCounter v;
     lastNewsletterId := lastNewsletterId v;
     readyNewsletterId := readyNewsletterId v;
     generatedVerticalIds := generatedVerticalIds v;
     debugSources := debugSources v;
     debugSourcesOpen := debugSourcesOpen v; selected := selected v;
     startDate := startDate v; endDate := endDate v;
     regions := regions v |}.

(** The [finally] block. *)
Definition end_run (v : View) : View :=
  {| isGenerating := false; steps := steps v; error := error v;
     debugEvents := debugEvents v; debugIdCounter := debugIdCounter v;
     lastNewsletterId := lastNewsletterId v;
     readyNewsletterId := readyNewsletterId v;
     generatedVerticalIds := generatedVerticalIds v;
     debugSources := debugSources v;
     debugSourcesOpen := debugSourcesOpen v; selected := selected v;
     startDate := startDate v; endDate := endDate v;
     regions := regions v |}.

(** A computation of the handler: the state and the effects so far. *)
Definition Run : Type := View * list Effect.

Definition emit (e : Effect) (r : Run) : Run := (r.1, (r.2 ++ [e])%list).

Definition update_steps (f : list StatusStep → list StatusStep) (r : Run)
  : Run :=
  let l := f (steps r.1) in
  (set_steps l r.1, (r.2 ++ [Steps l])%list).

Definition on_event (r : Run) (e : StreamEvent) : Run :=
  match e with
  | OnStatus step message st => update_steps (handleStatusUpdate step message st) r
  | OnDebug category content => (handleDebugEvent category content r.1, r.2)
  end.

(** The simulated progress of the fallback path. *)
Definition simulate (r : Run) (step : StatusStep) : Run :=
  update_steps (updateStep (id step) complete)
    (update_steps (updateStep (id step) active) r).

Definition toast_generated : Effect :=
  Toast "Newsletter generated" "Your newsletter is ready to view" false.

(** [handleGenerate] past its guard. *)
Definition run_generation (rs : ResearchSettings) (backend : Backend)
    (v : View) : Run :=
  let v0 := begin_run v in
  let r0 : Run := (v0, [Steps (steps v0); GenerationStart]) in
  let r1 := emit (StreamRequest (request (at_stream rs) v0)) r0 in
  let r2 := foldl on_event r1 (stream_events backend) in
  let r3 :=
    match stream_result backend with
    | Some response =>
        let r := update_steps (fmap (with_status complete)) r2 in
        let r := emit toast_generated r in
        (succeed response r.1, r.2)
    | None =>
        let r := foldl simulate r2 (getFilteredSteps (selected r2.1)) in
        let r := emit (Request (request (at_fallback rs) r.1)) r in
        match plain_result backend with
        | inr response =>
            let r := emit toast_generated r in
            (succeed response r.1, r.2)
        | inl message =>
            emit (Toast "Generation failed" message true)
                 (fail message r.1, r.2)
        end
    end in
  (end_run r3.1, r3.2).

Definition handleGenerate (rs : ResearchSettings) (backend : Backend)
    (v : View) : Run :=
  let hasVerticals :=
    dataCenters (selected v) || connectivity (selected v)
    || towers (selected v) in
  if negb hasVerticals then
    (v, [Toast "Error"
               "Select at least one sector to generate a newsletter" true])
  else run_generation rs backend v.

(** The identifiers of a list of steps. *)
Definition ids (l : list StatusStep) : list string := id <$> l.
Global Arguments ids : simpl never.

(** What a run may hold while the verticals [sel] are being generated:
    the selection is untouched and every value of [steps], the current
    one included, lists the steps of [getFilteredSteps sel]. *)
Definition tracks (sel : Verticals) (r : Run) : Prop :=
  selected r.1 = sel ∧
  ids (steps r.1) = ids (getFilteredSteps sel) ∧
  Forall (λ e, match e with
               | Steps l => ids l = ids (getFilteredSteps sel)
               | _ => True
               end) r.2.

Definition is_request (e : Effect) : bool :=
  match e with
  | StreamRequest _ | Request _ => true
  | _ => false
  end.

End GenerationView.

(** ** The orchestration loop of the design document

    The backend that drafts, reviews and fixes the sections is described
    by the design document only. The retrieval tools and the reasoning
    service are outside the core: they enter as the variables of the
    section below, and every statement holds whatever they answer. *)

Module Orchestrator.

Inductive Status : Type :=
| pending | drafting | under_review | needs_fix | accepted | failed.

Global Instance Status_eq_dec : EqDecision Status.
Proof. solve_decision. Defined.

Inductive Stage : Type :=
| init | fanning_out | reviewing | fixing | editing | assembling | done
| run_failed.

Global Instance Stage_eq_dec : EqDecision Stage.
Proof. solve_decision. Defined.

Record EvidenceItem := {
  item_id : string;
  dedup_key : string;
}.

(** Modelled from the spec: the EvidencePack of section 3, an ordered
    collection of items with the count of retrieval calls consumed. *)
Record EvidencePack := {
  pack_items : list EvidenceItem;
  calls_used : nat;
}.

Record Bullet := {
  bullet_text : string;
  bullet_ids : list string;
}.

(** Modelled from the spec: the Draft of section 3, a paragraph and an
    ordered list of bullets, each with the evidence IDs it cites. *)
Record Draft := {
  paragraph : string;
  paragraph_ids : list string;
  draft_bullets : list Bullet;
}.

Record ReviewScore := {
  grounding : nat;
  clarity : nat;
  newsworthiness : nat;
  balance : nat;
  voice_fit : nat;
  blocking_issues : list string;
}.

Record FixPlan := {
  target : string;
  instructions : list string;
}.

Record Unit := {
  vertical : string;
  draft : option Draft;
  pack : EvidencePack;
  review_history : list ReviewScore;
  status : Status;
}.

Record RunState := {
  stage : Stage;
  round : nat;
  max_review_rounds : nat;
  call_budget : nat;
  window : nat * nat;
  units : list Unit;
  fix_plans : list FixPlan;
}.

Record Parameters := {
  requested : list string;
  window_start : nat;
  window_end : nat;
  today : nat;
  round_limit : nat;
  budget : nat;
}.

Definition pack_ids (p : EvidencePack) : list string :=
  item_id <$> pack_items p.

(** Some cited ID exists in the pack. *)
Definition cites_pack (p : EvidencePack) (ids : list string) : bool :=
  existsb (λ i, bool_decide (i ∈ pack_ids p)) ids.

(** Modelled from the spec: the citation validation of sections 3 and
    4.3, which the Section Drafter runs on a draft before it is handed
    to the Reviewer: the paragraph and every bullet cite at least one
    evidence ID that exists in the unit's pack. *)
Definition citation_valid (p : EvidencePack) (d : Draft) : bool :=
  cites_pack p (paragraph_ids d)
  && forallb (λ b, cites_pack p (bullet_ids b)) (draft_bullets d).

(** Modelled from the spec: the acceptance predicate of section 3. *)
Definition acceptable (r : ReviewScore) : bool :=
  (4 <=? grounding r)%nat && (4 <=? clarity r)%nat
  && bool_decide (blocking_issues r = []).

(** The evidence IDs a draft refers to. *)
Definition cited_ids (d : Draft) : list string :=
  (paragraph_ids d ++ concat (bullet_ids <$> draft_bullets d))%list.

Definition set_status (st : Status) (u : Unit) : Unit :=
  {| vertical := vertical u; draft := draft u; pack := pack u;
     review_history := review_history u; status := st |}.

Section Service.
(** Results of the follow-up retrieval calls a drafter proposes for a
    vertical in a round, one list per call. *)
Variable retrieve : string → nat → list (list EvidenceItem).
(** The draft the reasoning service returns for a vertical, its pack,
    the fix plan attached (if any) and the attempt number. *)
Variable compose : string → EvidencePack → option FixPlan → nat → Draft.
(** The rubric scores the reasoning service returns. *)
Variable score : string → Draft → EvidencePack → nat → ReviewScore.
(** The rewrite the reasoning service returns to the Editor. *)
Variable rewrite_draft : string → Draft → Draft.

(** Modelled from the spec: [start] of section 4.1. A run without
    verticals is refused; a window that ends after today is cut to
    today. *)
Definition start (ps : Parameters) : option RunState :=
  match requested ps with
  | [] => None
  | vs =>
      Some {| stage := fanning_out; round := 0;
              max_review_rounds := round_limit ps;
              call_budget := budget ps;
              window :=
                (window_start ps, Nat.min (window_end ps) (today ps));
              units :=
                (λ v, {| vertical := v; draft := None;
                         pack := {| pack_items := []; calls_used := 0 |};
                         review_history := []; status := pending |})
                  <$> vs;
              fix_plans := [] |}
  end.

(** Modelled from the spec: the Evidence Pack Builder of section 4.2.
    It executes the proposed calls within the remaining budget and
    appends the items whose key is new; nothing is removed. *)
Definition append_new (p : list EvidenceItem) (found : list EvidenceItem)
  : list EvidenceItem :=
  foldl (λ acc e,
           if bool_decide (dedup_key e ∈ (dedup_key <$> acc)) then acc
           else (acc ++ [e])%list) p found.

Definition gather (bud : nat) (v : string) (rnd : nat) (p : EvidencePack)
  : EvidencePack :=
  let calls := take (bud - calls_used p) (retrieve v rnd) in
  {| pack_items := append_new (pack_items p) (concat calls);
     calls_used := calls_used p + length calls |}.

(** Modelled from the spec: the Section Drafter of section 4.3. A
    draft that fails the citation validation is rejected before it
    reaches the Reviewer; the attempt is repeated once, then the unit
    fails. *)
Definition validated (v : string) (p : EvidencePack)
    (plan : option FixPlan) : option Draft :=
  let d0 := compose v p plan 0 in
  if citation_valid p d0 then Some d0
  else
    let d1 := compose v p plan 1 in
    if citation_valid p d1 then Some d1 else None.

Definition run_drafter (bud rnd : nat) (plan : option FixPlan) (u : Unit)
  : Unit :=
  let p := gather bud (vertical u) rnd (pack u) in
  match validated (vertical u) p plan with
  | Some d =>
      {| vertical := vertical u; draft := Some d; pack := p;
         review_history := review_history u; status := under_review |}
  | None =>
      {| vertical := vertical u; draft := draft u; pack := p;
         review_history := review_history u; status := failed |}
  end.

(** Modelled from the spec: the Reviewer of section 4.4, with the
    deterministic acceptance rule; it looks only at units under
    review. *)
Definition review (rnd : nat) (u : Unit) : Unit :=
  match status u, draft u with
  | under_review, Some d =>
      let r := score (vertical u) d (pack u) rnd in
      {| vertical := vertical u; draft := draft u; pack := pack u;
         review_history := (review_history u ++ [r])%list;
         status := if acceptable r then accepted else needs_fix |}
  | _, _ => u
  end.

(** The instructions of a fix plan name what kept the score from
    acceptance. *)
Definition plan_for (u : Unit) : list FixPlan :=
  match status u, last (review_history u) with
  | needs_fix, Some r =>
      [ {| target := vertical u;
           instructions :=
             ((if (4 <=? grounding r)%nat then [] else ["grounding"])
              ++ (if (4 <=? clarity r)%nat then [] else ["clarity"])
              ++ blocking_issues r)%list |} ]
  | _, _ => []
  end.

(** Modelled from the spec: the Fix Router of section 4.5. A unit
    named by a fix plan goes back to the drafter with the plan
    attached; a unit in need of a fix without a plan is accepted. *)
Definition route (bud rnd : nat) (plans : list FixPlan) (u : Unit) : Unit :=
  match status u with
  | needs_fix =>
      match List.find (λ p, String.eqb (target p) (vertical u)) plans with
      | Some p => run_drafter bud rnd (Some p) (set_status drafting u)
      | None => set_status accepted u
      end
  | _ => u
  end.

(** The accept-what-you-have policy of section 4.1. *)
Definition force_accept (u : Unit) : Unit :=
  match status u with
  | needs_fix => set_status accepted u
  | _ => u
  end.

(** Modelled from the spec: the Editor of section 4.6. The rewrite is
    kept when it cites no ID that was not cited before and leaves no
    claim without citation; otherwise the unit fails. *)
Definition harmonize (u : Unit) : Unit :=
  match status u, draft u with
  | accepted, Some d =>
      let d' := rewrite_draft (vertical u) d in
      if forallb (λ i, bool_decide (i ∈ cited_ids d)) (cited_ids d')
         && citation_valid (pack u) d'
      then {| vertical := vertical u; draft := Some d'; pack := pack u;
              review_history := review_history u; status := accepted |}
      else set_status failed u
  | _, _ => u
  end.

Definition with_units (st : Stage) (rnd : nat) (us : list Unit)
    (plans : list FixPlan) (s : RunState) : RunState :=
  {| stage := st; round := rnd;
     max_review_rounds := max_review_rounds s;
     call_budget := call_budget s; window := window s;
     units := us; fix_plans := plans |}.

(** Modelled from the spec: [advance] of section 4.1, the single
    driver of the state machine. The round counter grows only at the
    transition from reviewing to fixing; once it exceeds the limit the
    units still in need of a fix are accepted as they are. *)
Definition advance (s : RunState) : RunState :=
  match stage s with
  | init => with_units fanning_out (round s) (units s) [] s
  | fanning_out =>
      with_units reviewing (round s)
        ((λ u, match status u with
               | pending =>
                   run_drafter (call_budget s) (round s) None
                               (set_status drafting u)
               | _ => u
               end) <$> units s) [] s
  | reviewing =>
      let us := review (round s) <$> units s in
      if existsb (λ u, bool_decide (status u = needs_fix)) us
      then with_units fixing (S (round s)) us (us ≫= plan_for) s
      else with_units editing (round s) us [] s
  | fixing =>
      if (max_review_rounds s <? round s)%nat
      then with_units editing (round s) (force_accept <$> units s) [] s
      else with_units reviewing (round s)
             (route (call_budget s) (round s) (fix_plans s) <$> units s)
             [] s
  | editing => with_units assembling (round s) (harmonize <$> units s) [] s
  | assembling => with_units done (round s) (units s) [] s
  | done => s
  | run_failed => s
  end.

Definition run (n : nat) (s : RunState) : RunState :=
  Nat.iter n advance s.

End Service.

(** A unit has reached a terminal status. *)
Definition settled (u : Unit) : Prop :=
  status u = accepted ∨ status u = failed.

(** The draft a unit carries is grounded in the unit's pack. *)
Definition grounded (u : Unit) : Prop :=
  ∃ d, draft u = Some d ∧
       (∃ i, i ∈ paragraph_ids d ∧ i ∈ pack_ids (pack u)) ∧
       (∀ b, b ∈ draft_bullets d →
             ∃ i, i ∈ bullet_ids b ∧ i ∈ pack_ids (pack u)).

(** A unit whose draft has reached the Reviewer. *)
Definition live (u : Unit) : Prop :=
  status u = under_review ∨ status u = needs_fix ∨ status u = accepted.

(** Every unit whose draft has reached the Reviewer is grounded. *)
Definition well_grounded (s : RunState) : Prop :=
  Forall (λ u, live u → grounded u) (units s).

(** What holds of the units and of the round counter in each stage of a
    run. *)
Definition stage_ok (s : RunState) : Prop :=
  match stage s with
  | init | run_failed => False
  | fanning_out =>
      round s = 0 ∧
      Forall (λ u, status u = pending ∨ settled u) (units s)
  | reviewing =>
      (round s ≤ max_review_rounds s)%nat ∧
      Forall (λ u, (status u = under_review ∧ is_Some (draft u))
                   ∨ settled u) (units s)
  | fixing =>
      (round s ≤ max_review_rounds s + 1)%nat ∧
      Forall (λ u, status u = needs_fix ∨ settled u) (units s)
  | editing | assembling | done =>
      (round s ≤ max_review_rounds s + 1)%nat ∧ Forall settled (units s)
  end.

(** A bound on the number of transitions left before [done]. *)
Definition rank (s : RunState) : nat :=
  match stage s with
  | init | run_failed | done => 0
  | fanning_out => 2 * (max_review_rounds s + 1 - round s) + 3
  | reviewing => 2 * (max_review_rounds s - round s) + 4
  | fixing => 2 * (max_review_rounds s + 1 - round s) + 3
  | editing => 2
  | assembling => 1
  end.

End Orchestrator.

(** ** Sample artefacts *)

Module Samples.
Import Api.

Definition item (id source : string) : EvidenceItem :=
  {| evidence_id := id; title := Some ("Report " ++ id);
     source_name := source; url := Some ("https://example.org/" ++ id);
     data := None |}.

Definition bullet (t : string) (ids : list string) : Bullet :=
  {| text := t; evidence_ids := ids; player_referenced := None |}.

(** A data-centre section with three sources, one cited twice. *)
Definition section : SectionData :=
  {| section_id := "data_centers";
     headline := Some "Capacity race";
     big_picture := "Demand is rising (ev_c037488c, ev_4c611ddc).";
     big_picture_evidence_ids := ["ev_c037488c"; "ev_4c611ddc"];
     bullets :=
       [bullet "Equinix expands in Paris ev_97b98930" [];
        bullet "Digital Realty adds capacity" ["ev_4c611ddc"; "ev_c037488c"]];
     risk_flags := [] |}.

Definition pack : EvidencePack :=
  {| items := [item "ev_97b98930" "Reuters"; item "ev_0000ffff" "Blog";
               item "ev_c037488c" "FT"; item "ev_4c611ddc" "DCD"] |}.




(** A paragraph whose first listed ID is the name of the prototype
    accessor. *)
Definition proto_cited : SectionData :=
  {| section_id := "connectivity_fibre";
     headline := None;
     big_picture := "Fibre builds accelerate.";
     big_picture_evidence_ids := ["__proto__"; "ev_aaaaaaaa"];
     bullets := [];
     risk_flags := [] |}.


(** Settings stored by an earlier version: one vertical only, with one
    player switched off, one renamed, and no flag for the others. *)
Definition old_storage : Settings.LocalStorage :=
  {| Settings.player_settings :=
       Settings.Json {[ "data_centers" := {[ "Equinix" := false;
                                             "Switch" := true ]} ]};
     Settings.player_names :=
       Settings.Json {[ "data_centers" := {[ "Switch" := "Switch Inc" ]} ]} |}.

Definition data_centre_entry : string * list string :=
  ("data_centers",
   ["Equinix"; "Digital Realty"; "CyrusOne"; "QTS Data Centers";
    "NTT Global Data Centers"; "Iron Mountain Data Centers"; "Switch";
    "STACK Infrastructure"; "Google Cloud"; "Amazon Web Services (AWS)"]).

(** The generation view before a run, with a given selection. *)
Definition view (sel : GenerationView.Verticals) : GenerationView.View :=
  {| GenerationView.isGenerating := false;
     GenerationView.steps := GenerationView.allSteps;
     GenerationView.error := None;
     GenerationView.debugEvents := [];
     GenerationView.debugIdCounter := 0;
     GenerationView.lastNewsletterId := None;
     GenerationView.readyNewsletterId := None;
     GenerationView.generatedVerticalIds := [];
     GenerationView.debugSources := ∅;
     GenerationView.debugSourcesOpen := false;
     GenerationView.selected := sel;
     GenerationView.startDate := "2026-01-05";
     GenerationView.endDate := "2026-01-12";
     GenerationView.regions := ["UK"; "EU"] |}.

Definition nothing_selected : GenerationView.Verticals :=
  {| GenerationView.dataCenters := false;
     GenerationView.connectivity := false;
     GenerationView.towers := false |}.

Definition towers_only : GenerationView.Verticals :=
  {| GenerationView.dataCenters := false;
     GenerationView.connectivity := false;
     GenerationView.towers := true |}.

(** Settings read before the stream request, and read again after the
    review rounds were changed. *)
Definition research_settings : GenerationView.ResearchSettings :=
  {| GenerationView.at_stream :=
       {| GenerationView.activePlayers := ∅;
          GenerationView.reviewRounds := 2;
          GenerationView.searchProvider := "openai";
          GenerationView.strictDateFiltering := false |};
     GenerationView.at_fallback :=
       {| GenerationView.activePlayers := ∅;
          GenerationView.reviewRounds := 3;
          GenerationView.searchProvider := "openai";
          GenerationView.strictDateFiltering := false |} |}.

(** A backend whose stream fails and whose plain request succeeds. *)
Definition failing_stream : GenerationView.Backend :=
  {| GenerationView.stream_events := [];
     GenerationView.stream_result := None;
     GenerationView.plain_result :=
       inr {| GenerationView.newsletter_id := "newsletter_20260112_ab12cd" |}
  |}.

(** A backend that reports progress, also for a vertical that was not
    requested, and then resolves. *)
Definition chatty_backend : GenerationView.Backend :=
  {| GenerationView.stream_events :=
       [GenerationView.OnStatus "manager" "Initializing"
                                GenerationView.start;
        GenerationView.OnStatus "research_data_centers" "Researching"
                                GenerationView.start;
        GenerationView.OnStatus "research_towers" "Researching"
                                GenerationView.start;
        GenerationView.OnStatus "research_towers" "Done"
                                GenerationView.finished;
        GenerationView.OnStatus "review" "Reviewing" GenerationView.start];
     GenerationView.stream_result :=
       Some {| GenerationView.newsletter_id := "newsletter_20260112_ab12cd" |};
     GenerationView.plain_result := inl "unreachable" |}.

(** A run over two verticals with a round limit of two, a retrieval
    tool that finds one source per call, a drafter that cites it and a
    reviewer that never finds the draft clear enough. *)
Definition parameters : Orchestrator.Parameters :=
  {| Orchestrator.requested := ["data_centers"; "towers_wireless"];
     Orchestrator.window_start := 0;
     Orchestrator.window_end := 7;
     Orchestrator.today := 5;
     Orchestrator.round_limit := 2;
     Orchestrator.budget := 12 |}.

Definition retrieve (v : string) (rnd : nat)
  : list (list Orchestrator.EvidenceItem) :=
  [[ {| Orchestrator.item_id := "ev_00000001";
        Orchestrator.dedup_key := "https://example.org/" ++ v |} ]].

Definition compose (v : string) (p : Orchestrator.EvidencePack)
    (plan : option Orchestrator.FixPlan) (attempt : nat)
  : Orchestrator.Draft :=
  {| Orchestrator.paragraph := "Summary of " ++ v;
     Orchestrator.paragraph_ids := ["ev_00000001"];
     Orchestrator.draft_bullets :=
       [ {| Orchestrator.bullet_text := "Key update";
            Orchestrator.bullet_ids := ["ev_00000001"] |} ] |}.

Definition score (v : string) (d : Orchestrator.Draft)
    (p : Orchestrator.EvidencePack) (rnd : nat) : Orchestrator.ReviewScore :=
  {| Orchestrator.grounding := 5; Orchestrator.clarity := 3;
     Orchestrator.newsworthiness := 4; Orchestrator.balance := 4;
     Orchestrator.voice_fit := 4; Orchestrator.blocking_issues := [] |}.

Definition rewrite_draft (v : string) (d : Orchestrator.Draft)
  : Orchestrator.Draft := d.

Definition initial_unit (v : string) : Orchestrator.Unit :=
  {| Orchestrator.vertical := v; Orchestrator.draft := None;
     Orchestrator.pack :=
       {| Orchestrator.pack_items := []; Orchestrator.calls_used := 0 |};
     Orchestrator.review_history := [];
     Orchestrator.status := Orchestrator.pending |}.

Definition initial_state : Orchestrator.RunState :=
  {| Orchestrator.stage := Orchestrator.fanning_out;
     Orchestrator.round := 0;
     Orchestrator.max_review_rounds := 2;
     Orchestrator.call_budget := 12;
     Orchestrator.window := (0, 5);
     Orchestrator.units :=
       [initial_unit "data_centers"; initial_unit "towers_wireless"];
     Orchestrator.fix_plans := [] |}.

(** The state of the sample run after [n] transitions. *)
Definition after (n : nat) : Orchestrator.RunState :=
  Orchestrator.run retrieve compose score rewrite_draft n initial_state.

Definition first_unit (s : Orchestrator.RunState) : Orchestrator.Unit :=
  List.hd (initial_unit "") (Orchestrator.units s).

(** The first unit of the sample run once the fix loop has given up. *)
Definition forced_unit : Orchestrator.Unit :=
  Eval vm_compute in first_unit (after 7).

End Samples.

(** ** Shapes of patterns and texts *)

Module JsPatterns.
Import JsText.

(** A pattern without star: every atom is taken once. *)
Definition only_ones (r : regex) : Prop :=
  Forall (λ a, match a with One _ => True | Many _ => False end) r.

(** Every character of [s] satisfies [p]. *)
Fixpoint all_chars (p : ascii → bool) (s : string) : bool :=
  match s with
  | String c r => p c && all_chars p r
  | EmptyString => true
  end.

End JsPatterns.

(** ** The region buttons and the inputs of a request
       ([components/generation-view.tsx]) *)

Module GenerationControls.
Import JsText GenerationView.

(** [toggleRegion]: the updater handed to [setRegions]. *)
Definition toggleRegion (region : string) (prev : list string) : list string :=
  if bool_decide (region ∈ prev)
  then List.filter (λ r, negb (String.eqb r region)) prev
  else (prev ++ [region])%list.

(** The regions offered as buttons. *)
Definition regionOptions : list string :=
  ["UK"; "EU"; "US"; "APAC"; "MENA"; "LATAM"].

(** The fields of the view that [handleGenerate] reads for the request. *)
Definition inputs (v : View) : Verticals * string * string * list string :=
  (selected v, startDate v, endDate v, regions v).

(** What the status updates and the trace bookkeeping leave alone. *)
Definition frame (v : View)
  : bool * option string * option string * option string * list string
    * (Verticals * string * string * list string) :=
  (isGenerating v, error v, lastNewsletterId v, readyNewsletterId v,
   generatedVerticalIds v, inputs v).

(** One simulated step of the fallback path, on the step list. *)
Definition simulate_steps (s : list StatusStep) (x : StatusStep)
  : list StatusStep :=
  updateStep (id x) complete (updateStep (id x) active s).

Definition hasVerticals (v : View) : bool :=
  dataCenters (selected v) || connectivity (selected v) || towers (selected v).

End GenerationControls.

(** ** JavaScript numbers read from and written to texts *)

Module JsNumber.
Import JsText.

(** Numbers are mathematical integers; the source's doubles agree with
    them below 2^53. *)

(** The value of the longest prefix of decimal digits of [s], [acc]
    being the value read so far ([None]: no digit yet). *)
Fixpoint read_digits (acc : option Z) (s : string) : option Z :=
  match s with
  | String c r =>
      if is_digit c
      then read_digits (Some (10 * default 0%Z acc + Z.of_nat (code c - 48))%Z) r
      else acc
  | EmptyString => acc
  end.

(** [parseInt(s, 10)]: leading white space is skipped, a sign is read,
    then as many digits as there are; [None] is [NaN]. *)
Definition parseInt (s : string) : option Z :=
  match trimStart s with
  | String "-" r => Z.opp <$> read_digits None r
  | String "+" r => read_digits None r
  | t => read_digits None t
  end.

(** [x || d] on numbers: [NaN] and zero are falsy. *)
Definition num_or_default (x : option Z) (d : Z) : Z :=
  match x with
  | Some 0%Z | None => d
  | Some n => n
  end.

(** [n.toString()] for an integer. *)
Definition int_to_string (n : Z) : string :=
  match n with
  | Zneg p => "-" ++ num_to_string (Pos.to_nat p)
  | _ => num_to_string (Z.to_nat n)
  end.

End JsNumber.

(** ** The handlers of the settings modal ([settings-modal.tsx]) *)

Module SettingsModal.
Import JsText JsNumber Settings.

(** The other keys of local storage, as the texts stored. *)
Record Preferences := {
  review_rounds : option string;
  search_provider : option string;
}.

(** [getReviewRounds]; the host is [None] when there is no window. *)
Definition getReviewRounds (w : option Preferences) : Z :=
  match w with
  | None => 2
  | Some prefs =>
      match review_rounds prefs with
      | Some (String c r) => num_or_default (parseInt (String c r)) 2
      | _ => 2
      end
  end.

Definition getSearchProvider (w : option Preferences) : string :=
  match w with
  | None => "openai"
  | Some prefs =>
      match search_provider prefs with
      | Some stored =>
          if String.eqb stored "tavily" || String.eqb stored "openai"
          then stored else "openai"
      | None => "openai"
      end
  end.

(** [Math.max(1, Math.min(5, value))] *)
Definition clamp_rounds (value : Z) : Z := Z.max 1 (Z.min 5 value).

(** [handleReviewRoundsChange]: the new state value and the storage. *)
Definition handleReviewRoundsChange (value : Z) (prefs : Preferences)
  : Z * Preferences :=
  let rounds := clamp_rounds value in
  (rounds, {| review_rounds := Some (int_to_string rounds);
              search_provider := search_provider prefs |}).

(** [handleSearchProviderChange] *)
Definition handleSearchProviderChange (provider : string)
    (prefs : Preferences) : string * Preferences :=
  (provider, {| review_rounds := review_rounds prefs;
                search_provider := Some provider |}).

(** The state of the modal that the handlers below read and write. *)
Record Modal := {
  settings : PlayerSettings;
  names : PlayerNames;
  editingPlayer : option (string * string);
  editValue : string;
}.

(** [DEFAULT_PLAYERS[vertical] || []] *)
Definition players_of (vertical : string) : list string :=
  match List.find (λ entry, String.eqb entry.1 vertical) DEFAULT_PLAYERS with
  | Some entry => entry.2
  | None => []
  end.

Definition setItem_names (v : PlayerNames) (ls : LocalStorage) : LocalStorage :=
  {| player_settings := player_settings ls; player_names := Json v |}.

Definition with_settings (s : PlayerSettings) (m : Modal) : Modal :=
  {| settings := s; names := names m; editingPlayer := editingPlayer m;
     editValue := editValue m |}.

Definition handleToggle (vertical player : string) (enabled : bool)
    (st : Modal * LocalStorage) : Modal * LocalStorage :=
  let newSettings :=
    <[vertical := <[player := enabled]>
                    (default ∅ (settings st.1 !! vertical))]> (settings st.1) in
  (with_settings newSettings st.1, setItem_settings newSettings st.2).

Definition handleToggleAll (vertical : string) (enabled : bool)
    (st : Modal * LocalStorage) : Modal * LocalStorage :=
  let newVerticalSettings : gmap string bool :=
    foldl (λ m player, <[player := enabled]> m) ∅ (players_of vertical) in
  let newSettings := <[vertical := newVerticalSettings]> (settings st.1) in
  (with_settings newSettings st.1, setItem_settings newSettings st.2).

Definition isPlayerEnabled (m : Modal) (vertical player : string) : bool :=
  is_true (settings m !! vertical ≫= (.!! player)).

Definition getEnabledCount (m : Modal) (vertical : string) : nat :=
  length (List.filter (isPlayerEnabled m vertical) (players_of vertical)).

Definition areAllEnabled (m : Modal) (vertical : string) : bool :=
  forallb (isPlayerEnabled m vertical) (players_of vertical).

Definition getDisplayName (m : Modal) (vertical player : string) : string :=
  str_or (names m !! vertical ≫= (.!! player)) player.

Definition startEditing (vertical player : string) (m : Modal) : Modal :=
  {| settings := settings m; names := names m;
     editingPlayer := Some (vertical, player);
     editValue := getDisplayName m vertical player |}.

(** The input's [onChange]: [setEditValue(e.target.value)]. *)
Definition setEditValue (value : string) (m : Modal) : Modal :=
  {| settings := settings m; names := names m;
     editingPlayer := editingPlayer m; editValue := value |}.

Definition saveEditing (st : Modal * LocalStorage) : Modal * LocalStorage :=
  match editingPlayer st.1 with
  | None => st
  | Some (vertical, player) =>
      let newNames :=
        <[vertical := <[player := str_or (Some (trim (editValue st.1))) player]>
                        (default ∅ (names st.1 !! vertical))]> (names st.1) in
      ({| settings := settings st.1; names := newNames;
          editingPlayer := None; editValue := "" |},
       setItem_names newNames st.2)
  end.

(** The button that selects or deselects all players of a vertical:
    [handleToggleAll(vertical, !allEnabled)]. *)
Definition pressToggleAll (vertical : string) (st : Modal * LocalStorage)
  : Modal * LocalStorage :=
  handleToggleAll vertical (negb (areAllEnabled st.1 vertical)) st.

(** Every default player has a flag in [s]. *)
Definition complete (s : PlayerSettings) : Prop :=
  ∀ vertical player,
    listed DEFAULT_PLAYERS vertical player → is_Some (flag s vertical player).

(** The storage holds the settings and the names the modal shows. *)
Definition synced (st : Modal * LocalStorage) : Prop :=
  player_settings st.2 = Json (settings st.1) ∧
  getPlayerNames (Some st.2) = names st.1.

(** The effect that runs when the modal opens: the player settings and
    names are read again from storage. *)
Definition open_modal (st : Modal * LocalStorage) : Modal * LocalStorage :=
  let '(s, w) := getPlayerSettings (Some st.2) in
  ({| settings := s; names := getPlayerNames w;
      editingPlayer := editingPlayer st.1; editValue := editValue st.1 |},
   default st.2 w).

(** What the user does with the player list of the open modal. *)
Inductive Action : Type :=
| Toggle (vertical player : string) (enabled : bool)
| ToggleAll (vertical : string)
| Rename (vertical player value : string).

Definition act (st : Modal * LocalStorage) (a : Action)
  : Modal * LocalStorage :=
  match a with
  | Toggle vertical player enabled => handleToggle vertical player enabled st
  | ToggleAll vertical => pressToggleAll vertical st
  | Rename vertical player value =>
      saveEditing (setEditValue value (startEditing vertical player st.1), st.2)
  end.

End SettingsModal.

(** ** Citations in the reading view ([newsletter-reading-view.tsx]) *)

Module ReadingView.
Import JsText JsPatterns JsNumber Api.

(** An opening bracket, one or more digits, a closing bracket: the
    pattern of [citationMatch]. *)
Definition citationPattern : regex :=
  [One (ch "["); One is_digit; Many is_digit; One (ch "]")].

(** Optional white space, an opening bracket, one or more digits and
    one or more closing brackets: the pattern removed for [cleanText]. *)
Definition citationRun : regex :=
  [Many is_space; One (ch "["); One is_digit; Many is_digit; One (ch "]");
   Many (ch "]")].

(** Either bracket. *)
Definition bracket : regex := [One (λ c, ch "[" c || ch "]" c)].

(** [text.match(pattern)], [null] read as no citation. *)
Definition citationMatch (text : string) : list string :=
  matchAll citationPattern text.

Definition cleanText (text : string) : string :=
  replaceAll citationRun "" text.

(** [parseInt(cite.replace(pattern, ''), 10)] *)
Definition citationNumber (cite : string) : option Z :=
  parseInt (replaceAll bracket "" cite).

(** [section.evidence[num - 1]]: [NaN] and indices outside the array
    give [undefined]. *)
Definition evidenceAt (section : UI.Section) (num : option Z)
  : option UI.Evidence :=
  match num with
  | Some n =>
      if (1 <=? n)%Z then UI.evidence section !! Z.to_nat (n - 1) else None
  | None => None
  end.

(** A citation as rendered: a link to the evidence when it has a URL,
    the bare number otherwise. *)
Inductive Citation : Type :=
| Link (href : string) (num : option Z)
| Bare (num : option Z).

Definition renderCitation (section : UI.Section) (cite : string) : Citation :=
  let num := citationNumber cite in
  match evidenceAt section num with
  | Some e =>
      match UI.url e with
      | EmptyString => Bare num
      | href => Link href num
      end
  | None => Bare num
  end.

(** A paragraph or bullet as rendered: the clean text and, after it, the
    citations. *)
Definition renderText (section : UI.Section) (text : string)
  : string * list Citation :=
  (cleanText text, renderCitation section <$> citationMatch text).

(** [renderSection] returns [null] for a section without paragraph and
    bullets. *)
Definition renders (section : UI.Section) : bool :=
  negb (match UI.bigPicture section with EmptyString => true | _ => false end
        && match UI.bullets section with [] => true | _ => false end).

(** After white space, [s] goes on with an opening bracket. *)
Fixpoint bracket_ahead (s : string) : bool :=
  match s with
  | String c r => if is_space c then bracket_ahead r else ch "[" c
  | EmptyString => false
  end.

End ReadingView.

(** ** The streaming client and the loader of a newsletter ([lib/api.ts]) *)

Module ApiClient.
Import JsText Api.

(** The fields the client reads from the JSON value of a [data:] line;
    a field is [None] when it is missing. *)
Record Data := {
  d_step : option string;
  d_message : option string;
  d_status : option string;
  d_category : option string;
  d_content : option string;
  d_newsletter_id : option string;
}.

(** What [JSON.parse] makes of a payload: a [SyntaxError], [null], or a
    value whose fields can be read. *)
Inductive Parsed : Type :=
| SyntaxError
| Null
| Object (d : Data).

(** The calls of [onStatus] and [onDebug]; the metadata of a debug event
    is passed through unread and left out. *)
Inductive Callback : Type :=
| StatusCall (step message status : string)
| DebugCall (category content : string).

(** What the stream resolves to; [paths] is passed through unread and
    left out. *)
Record Completed := {
  c_newsletter_id : string;
  c_status : string;
}.

Inductive Failure : Type :=
| Error (message : string)
| TypeError.

(** The variables of the read loop, the calls made so far, and the
    error thrown, if any. *)
Record Reader := {
  currentEventType : string;
  result : option Completed;
  calls : list Callback;
  thrown : option Failure;
}.

Definition init : Reader :=
  {| currentEventType := ""; result := None; calls := []; thrown := None |}.

(** A string read as a condition: missing and empty are falsy. *)
Definition truthy (o : option string) : option string :=
  match o with
  | Some (String c r) => Some (String c r)
  | _ => None
  end.

Definition call (c : Callback) (r : Reader) : Reader :=
  {| currentEventType := currentEventType r; result := result r;
     calls := (calls r ++ [c])%list; thrown := thrown r |}.

Definition throw (f : Failure) (r : Reader) : Reader :=
  {| currentEventType := currentEventType r; result := result r;
     calls := calls r; thrown := Some f |}.

Definition newline : ascii := "010"%char.

Section Stream.
(** The host's [JSON.parse]. *)
Variable parse : string → Parsed.

(** The body of the [try] for one [data:] payload; both callbacks are
    given, as the generation view does. *)
Definition on_data (r : Reader) (payload : string) : Reader :=
  let type := currentEventType r in
  match parse payload with
  | SyntaxError => r
  | Null =>
      if String.eqb type "status" || String.eqb type "debug"
         || String.eqb type "complete" || String.eqb type "error"
      then throw TypeError r else r
  | Object d =>
      let r1 :=
        if String.eqb type "status" then
          match truthy (d_step d), truthy (d_message d) with
          | Some step, Some message =>
              call (StatusCall step message (str_or (d_status d) "start")) r
          | _, _ => r
          end
        else r in
      let r2 :=
        if String.eqb type "debug" then
          call (DebugCall (str_or (d_category d) "unknown")
                      (str_or (d_content d) "")) r1
        else r1 in
      let r3 :=
        if String.eqb type "complete" then
          match truthy (d_newsletter_id d) with
          | Some newsletter_id =>
              {| currentEventType := currentEventType r2;
                 result :=
                   Some {| c_newsletter_id := newsletter_id;
                           c_status := str_or (d_status d) "completed" |};
                 calls := calls r2; thrown := thrown r2 |}
          | None => r2
          end
        else r2 in
      if String.eqb type "error" then
        match truthy (d_message d) with
        | Some message => throw (Error message) r3
        | None => r3
        end
      else r3
  end.

(** One turn of the loop over the lines; nothing runs after a throw. *)
Definition on_line (r : Reader) (line : string) : Reader :=
  match thrown r with
  | Some _ => r
  | None =>
      if String.prefix "event: " line then
        {| currentEventType := trim (drop_str 7 line);
           result := result r; calls := calls r; thrown := thrown r |}
      else if String.prefix "data: " line then on_data r (drop_str 6 line)
      else r
  end.

(** One turn of the read loop: the chunk is appended to the buffer, the
    last piece of the split is kept as the new buffer and the pieces
    before it are processed. *)
Definition on_chunk (st : string * Reader) (chunk : string)
  : string * Reader :=
  match thrown st.2 with
  | Some _ => st
  | None =>
      let lines := split_on newline (st.1 ++ chunk) in
      (str_or (last lines) "", foldl on_line st.2 (removelast lines))
  end.

(** What the call leaves: the callbacks made, and the error thrown or
    the response. *)
Definition outcome (r : Reader) : list Callback * (Failure + Completed) :=
  (calls r,
   match thrown r with
   | Some f => inl f
   | None =>
       match result r with
       | Some c => inr c
       | None => inl (Error "No response received from stream")
       end
   end).

(** The response to the request: not OK, without a body, or a body
    that arrives in chunks of text. *)
Inductive Response : Type :=
| NotOk
| NoBody
| Body (chunks : list string).

Definition generateNewsletterStreaming (response : Response)
  : list Callback * (Failure + Completed) :=
  match response with
  | NotOk => ([], inl (Error "Failed to start generation"))
  | NoBody => ([], inl (Error "Streaming not supported"))
  | Body chunks => outcome (foldl on_chunk ("", init) chunks).2
  end.

End Stream.

(** The lines of a text that a newline ends. *)
Definition complete_lines (text : string) : list string :=
  removelast (split_on newline text).

(** The chunks of a body, joined. *)
Definition joined (chunks : list string) : string :=
  foldr String.append "" chunks.

Section Fetch.
Variable toLocaleDateString : string → string.
(** The artefact requests; [None] stands for a request that throws. *)
Variable getNewsletterMeta : string → option NewsletterMeta.
Variable getSectionData : string → string → option SectionData.
Variable getEvidencePack : string → string → option EvidencePack.

(** The section stored when a request for the vertical failed. *)
Definition placeholder (vertical : string) : SectionData :=
  {| section_id := vertical; headline := Some ""; big_picture := "";
     big_picture_evidence_ids := []; bullets := []; risk_flags := [] |}.

(** One turn of the loop over [meta.verticals_included]: the section is
    stored as soon as it arrives, and replaced when the evidence pack
    fails. *)
Definition fetch_vertical (newsletterId : string)
    (st : gmap string SectionData * gmap string EvidencePack)
    (vertical : string)
  : gmap string SectionData * gmap string EvidencePack :=
  match getSectionData newsletterId vertical with
  | Some section =>
      let sections := <[vertical := section]> st.1 in
      match getEvidencePack newsletterId vertical with
      | Some pack => (sections, <[vertical := pack]> st.2)
      | None =>
          (<[vertical := placeholder vertical]> sections,
           <[vertical := {| items := [] |}]> st.2)
      end
  | None =>
      (<[vertical := placeholder vertical]> st.1,
       <[vertical := {| items := [] |}]> st.2)
  end.

(** What the loop leaves for a vertical it went through. *)
Definition stored_for (newsletterId vertical : string)
  : SectionData * EvidencePack :=
  match getSectionData newsletterId vertical,
        getEvidencePack newsletterId vertical with
  | Some section, Some pack => (section, pack)
  | _, _ => (placeholder vertical, {| items := [] |})
  end.

Definition fetched (newsletterId : string) (meta : NewsletterMeta)
  : gmap string SectionData * gmap string EvidencePack :=
  foldl (fetch_vertical newsletterId) (∅, ∅) (verticals_included meta).

Definition fetchNewsletterDetail (newsletterId : string)
  : option NewsletterDetail :=
  match getNewsletterMeta newsletterId with
  | Some meta =>
      Some (convertToUIFormat toLocaleDateString meta
              (fetched newsletterId meta).1 (fetched newsletterId meta).2)
  | None => None
  end.

End Fetch.

(** The section of the document that shows a backend section: the keys
    of [uiSectionMap]. *)
Definition section_of (detail : NewsletterDetail) (sectionId : string)
  : option UI.Section :=
  if String.eqb sectionId "data_centers"
  then Some (dataCenters (nd_sections detail))
  else if String.eqb sectionId "connectivity_fibre"
  then Some (connectivity (nd_sections detail))
  else if String.eqb sectionId "towers_wireless"
  then Some (towers (nd_sections detail))
  else None.

(** A section without content, as [convertSection] returns it. *)
Definition empty_section (headline : option string) : UI.Section :=
  {| UI.headline := headline; UI.bigPicture := ""; UI.bullets := [];
     UI.evidence := [] |}.

End ApiClient.

(** ** Further sample data *)

Module MoreSamples.
Import Api.

(** A section as the reading view receives it, with one source. *)
Definition ui_section : UI.Section :=
  {| UI.headline := None;
     UI.bigPicture := "Capacity grew in Q3. [1][2]";
     UI.bullets := [];
     UI.evidence :=
       [ {| UI.id := "ev_0a1b2c3d"; UI.title := "Report";
            UI.source := "Example"; UI.url := "https://example.org/a";
            UI.publishDate := None |} ] |}.

(** The steps while the manager step is running. *)
Definition manager_active : GenerationView.StatusStep :=
  {| GenerationView.id := "manager";
     GenerationView.label := "Initializing run";
     GenerationView.status := GenerationView.active |}.

Definition running : list GenerationView.StatusStep :=
  [ manager_active;
    {| GenerationView.id := "research_tw";
       GenerationView.label := "Researching Towers";
       GenerationView.status := GenerationView.pending |};
    {| GenerationView.id := "review";
       GenerationView.label := "Reviewing content";
       GenerationView.status := GenerationView.pending |} ].

(** A stand-in for the host's parser that knows one payload. *)
Definition parse (payload : string) : ApiClient.Parsed :=
  if String.eqb payload "{done}"
  then ApiClient.Object
         {| ApiClient.d_step := None; ApiClient.d_message := None;
            ApiClient.d_status := None; ApiClient.d_category := None;
            ApiClient.d_content := None;
            ApiClient.d_newsletter_id := Some "newsletter_20260112_ab12cd" |}
  else ApiClient.SyntaxError.

(** A stream whose completion event arrives in two chunks. *)
Definition chunks : list string :=
  ["event: comp";
   String.append "lete"
     (String ApiClient.newline
        (String.append "data: {done}" (String ApiClient.newline "")))].


Definition meta : NewsletterMeta :=
  {| newsletter_id := "newsletter_20260112_ab12cd";
     original_prompt := "";
     time_window := {| start := "2026-01-05"; end_ := "2026-01-12" |};
     voice_profile := "expert_operator";
     region_focus := None;
     style_prompt := None;
     verticals_included := ["data_centers"];
     created_at := "2026-01-12T09:00:00Z" |}.

(** A backend that has the metadata and the sections, and no evidence
    pack. *)
Definition getNewsletterMeta (newsletterId : string)
  : option NewsletterMeta := Some meta.

Definition getSectionData (newsletterId sectionId : string)
  : option SectionData := Some Samples.section.

Definition getEvidencePack (newsletterId sectionId : string)
  : option EvidencePack := None.

Definition toLocaleDateString (date : string) : string := date.

(** The sample section and its pack in a store: the cells hold the IDs
    listed for the paragraph and for the two bullets, and the items of
    the pack. *)
Definition heap : list InPlace.Cell :=
  [InPlace.Ids ["ev_c037488c"; "ev_4c611ddc"];
   InPlace.Ids [];
   InPlace.Ids ["ev_4c611ddc"; "ev_c037488c"];
   InPlace.Items (items Samples.pack)].

Definition stored_section : InPlace.SectionRef :=
  {| InPlace.s_section_id := "data_centers";
     InPlace.s_headline := Some "Capacity race";
     InPlace.s_big_picture := "Demand is rising (ev_c037488c, ev_4c611ddc).";
     InPlace.s_big_picture_evidence_ids := 0;
     InPlace.s_bullets :=
       [ {| InPlace.b_text := "Equinix expands in Paris ev_97b98930";
            InPlace.b_evidence_ids := 1;
            InPlace.b_player_referenced := None |};
         {| InPlace.b_text := "Digital Realty adds capacity";
            InPlace.b_evidence_ids := 2;
            InPlace.b_player_referenced := None |} ];
     InPlace.s_risk_flags := [] |}.

Definition stored : InPlace.Stored :=
  {| InPlace.meta := meta;
     InPlace.sections := {[ "data_centers" := stored_section ]};
     InPlace.evidencePacks :=
       {[ "data_centers" := {| InPlace.p_items := 3 |} ]} |}.

(** Stored preferences with seven review rounds. *)
Definition seven_rounds : SettingsModal.Preferences :=
  {| SettingsModal.review_rounds := Some "7";
     SettingsModal.search_provider := None |}.

(** The modal before it is opened over the stored sample. *)
Definition closed_modal : SettingsModal.Modal * Settings.LocalStorage :=
  ({| SettingsModal.settings := ∅; SettingsModal.names := ∅;
      SettingsModal.editingPlayer := None; SettingsModal.editValue := "" |},
   Samples.old_storage).

(** The settings of the stored sample, as parsed. *)
Definition old_settings : Settings.PlayerSettings :=
  {[ "data_centers" := {[ "Equinix" := false; "Switch" := true ]} ]}.

End MoreSamples.

(** * Properties *)

(** ** Sets in insertion order and the numbering of IDs *)

Module JsTextFacts.
Import JsText.
Local Open Scope list_scope.

Lemma foldl_set_add acc l :
  foldl set_add acc l = acc ++ first_seen acc l.
Proof.
  revert acc. induction l as [|x l IH]; intros acc; simpl.
  - by rewrite app_nil_r.
  - unfold set_add at 2. destruct (decide (x ∈ acc)); rewrite IH; [done|].
    by rewrite <- app_assoc.
Qed.

Lemma spread_set_first_seen l : spread_set l = first_seen [] l.
Proof. unfold spread_set. by rewrite foldl_set_add. Qed.

Lemma elem_of_first_seen seen l x :
  x ∈ first_seen seen l ↔ x ∈ l ∧ x ∉ seen.
Proof.
  revert seen. induction l as [|y l IH]; intros seen; simpl.
  - rewrite elem_of_nil. intuition.
  - rewrite elem_of_cons. destruct (decide (y ∈ seen)) as [Hy|Hy].
    + rewrite IH. split; [tauto|].
      intros [[->|?] ?]; [done|tauto].
    + rewrite elem_of_cons, IH, not_elem_of_app, list_elem_of_singleton.
      split; [|destruct (decide (x = y)); tauto].
      intros [->|?]; tauto.
Qed.

Lemma NoDup_first_seen seen l : NoDup (first_seen seen l).
Proof.
  revert seen. induction l as [|y l IH]; intros seen; simpl.
  - constructor.
  - destruct (decide (y ∈ seen)); [apply IH|].
    constructor; [|apply IH].
    rewrite elem_of_first_seen, not_elem_of_app, list_elem_of_singleton.
    tauto.
Qed.

(** An element listed before another one occurs in the input at a place
    before which the other one has not occurred yet. *)
Lemma first_seen_order seen l i j x y :
  first_seen seen l !! i = Some x →
  first_seen seen l !! j = Some y →
  i < j →
  ∃ k, l !! k = Some x ∧ y ∉ take (S k) l.
Proof.
  revert seen i j. induction l as [|z l IH]; intros seen i j; simpl.
  - by intros ?.
  - destruct (decide (z ∈ seen)) as [Hz|Hz].
    + intros Hi Hj Hij.
      destruct (IH _ _ _ Hi Hj Hij) as (k & Hk & Hy).
      exists (S k). split; [done|].
      assert (y ∈ first_seen seen l) as Hin
          by (apply list_elem_of_lookup; eauto).
      apply elem_of_first_seen in Hin as [_ Hys].
      rewrite not_elem_of_cons. split; [|done].
      intros ->. done.
    + destruct j as [|j]; [lia|]. simpl. intros Hi Hj Hij.
      assert (y ∈ first_seen (seen ++ [z]) l) as Hin
          by (apply list_elem_of_lookup; eauto).
      apply elem_of_first_seen in Hin as [_ Hys].
      apply not_elem_of_app in Hys as [_ Hyz].
      rewrite list_elem_of_singleton in Hyz.
      destruct i as [|i]; simpl in Hi.
      * injection Hi as ->. exists 0. split; [done|].
        simpl. rewrite take_0, list_elem_of_singleton. done.
      * assert (i < j) as Hij' by lia.
        destruct (IH _ _ _ Hi Hj Hij') as (k & Hk & Hy).
        exists (S k). split; [done|].
        rewrite not_elem_of_cons. done.
Qed.

Lemma NoDup_spread_set l : NoDup (spread_set l).
Proof. rewrite spread_set_first_seen. apply NoDup_first_seen. Qed.

Lemma elem_of_spread_set l x : x ∈ spread_set l ↔ x ∈ l.
Proof.
  rewrite spread_set_first_seen, elem_of_first_seen, elem_of_nil. tauto.
Qed.

Lemma foldl_app_flat (a : list string) (ls : list (list string)) :
  foldl (λ acc ids, acc ++ ids) a ls = a ++ concat ls.
Proof.
  revert a. induction ls as [|l ls IH]; intros a; simpl.
  - by rewrite app_nil_r.
  - by rewrite IH, <- List.app_assoc.
Qed.

Lemma elem_of_concat {A} (ls : list (list A)) x :
  x ∈ concat ls ↔ ∃ l, l ∈ ls ∧ x ∈ l.
Proof.
  rewrite list_elem_of_In, in_concat.
  split; intros (l & ? & ?); exists l; by rewrite ?list_elem_of_In in *.
Qed.

(** *** Substrings *)

Lemma append_cons c (a b : string) :
  (String c a ++ b)%string = String c (a ++ b)%string.
Proof. reflexivity. Qed.

Lemma append_nil (b : string) : ("" ++ b)%string = b.
Proof. reflexivity. Qed.

Lemma prefix_app a b : String.prefix a (a ++ b)%string = true.
Proof.
  induction a as [|c a IH].
  - rewrite append_nil. by destruct b.
  - rewrite append_cons. simpl.
    destruct (ascii_dec c c); [done|congruence].
Qed.

Lemma append_assoc (a b c : string) :
  ((a ++ b) ++ c = a ++ (b ++ c))%string.
Proof.
  induction a as [|x a IH]; [done|].
  by rewrite !append_cons, IH.
Qed.

Lemma includes_prefix sub s :
  String.prefix sub s = true → includes sub s = true.
Proof. intros H. destruct s; cbn [includes]; by rewrite H. Qed.

Lemma includes_app sub a b :
  includes sub (a ++ sub ++ b)%string = true.
Proof.
  induction a as [|c a IH].
  - rewrite append_nil. apply includes_prefix, prefix_app.
  - rewrite append_cons. cbn [includes].
    by destruct (String.prefix sub (String c (a ++ sub ++ b))).
Qed.

End JsTextFacts.

(** ** Patterns, matches and replacements *)

Module RegexFacts.
Import JsText JsTextFacts JsPatterns.
Local Open Scope list_scope.
Local Open Scope nat_scope.

Lemma append_empty s : (s ++ "")%string = s.
Proof.
  induction s as [|c s IH]; [by rewrite append_nil|].
  by rewrite append_cons, IH.
Qed.

Lemma length_app_str (a b : string) :
  String.length (a ++ b) = String.length a + String.length b.
Proof.
  induction a as [|c a IH]; [by rewrite append_nil|].
  rewrite append_cons. simpl. by rewrite IH.
Qed.


Lemma all_chars_tail p c s :
  all_chars p (String c s) = true → p c = true ∧ all_chars p s = true.
Proof. simpl. by intros ?%andb_true_iff. Qed.




(** *** The matcher *)

Lemma rmatch_one p r c s :
  rmatch (One p :: r) (String c s) = if p c then S <$> rmatch r s else None.
Proof. done. Qed.

Lemma rmatch_many p r c s :
  rmatch (Many p :: r) (String c s)
  = if p c then
      match rmatch (Many p :: r) s with
      | Some n => Some (S n)
      | None => rmatch r (String c s)
      end
    else rmatch r (String c s).
Proof. done. Qed.


(** A pattern without star matches a fixed number of characters, and the
    match does not depend on what follows. *)
Lemma rmatch_only_ones r s n :
  only_ones r → rmatch r s = Some n →
  n = length r ∧ String.length (take_str n s) = n ∧
  rmatch r (take_str n s) = Some n.
Proof.
  intros Hr. revert s n. induction Hr as [|a r Ha Hr IH]; intros s n; simpl.
  - intros [= <-]. by destruct s.
  - destruct a as [p|p]; [|done]. destruct s as [|c s]; [done|].
    destruct (p c) eqn:Hp; [|done].
    destruct (rmatch r s) as [m|] eqn:Hm; [|done]. simpl. intros [= <-].
    destruct (IH s m Hm) as (-> & Hlen & Hre).
    split; [done|]. unfold take_str in *. simpl. rewrite Hp, Hlen.
    split; [done|]. by rewrite Hre.
Qed.



Lemma take_drop_str n s : (take_str n s ++ drop_str n s)%string = s.
Proof.
  unfold take_str. revert s. induction n as [|n IH]; intros [|c s]; simpl;
    try done.
  rewrite append_cons. by rewrite IH.
Qed.

Lemma take_str_app w rest : take_str (String.length w) (w ++ rest) = w.
Proof.
  unfold take_str. induction w as [|c w IH].
  - rewrite append_nil. by destruct rest.
  - rewrite append_cons. cbn [String.length substring]. by rewrite IH.
Qed.

(** *** Global replace and global match *)

Lemma match_from_skip r w rest :
  match_from r (String.length w) (w ++ rest) = match_from r 0 rest.
Proof.
  induction w as [|c w IH]; [by rewrite append_nil|].
  rewrite append_cons. simpl. apply IH.
Qed.

Lemma replace_from_skip r rep w rest :
  replace_from r rep (String.length w) (w ++ rest) = replace_from r rep 0 rest.
Proof.
  induction w as [|c w IH]; [by rewrite append_nil|].
  rewrite append_cons. simpl. apply IH.
Qed.

(** A match that covers the non-empty word [w] at the head. *)
Lemma match_from_hit r c w rest :
  rmatch r (String c w ++ rest) = Some (String.length (String c w)) →
  match_from r 0 (String c w ++ rest)
  = String c w :: match_from r 0 rest.
Proof.
  intros H. pose proof (take_str_app (String c w) rest) as T.
  rewrite append_cons in H, T |- *. cbn [match_from]. rewrite H.
  cbn [String.length]. cbn [String.length] in T. rewrite T.
  by rewrite match_from_skip.
Qed.

Lemma replace_from_hit r rep c w rest :
  rmatch r (String c w ++ rest) = Some (String.length (String c w)) →
  replace_from r rep 0 (String c w ++ rest)
  = (rep ++ replace_from r rep 0 rest)%string.
Proof.
  intros H. rewrite append_cons in H |- *. cbn [replace_from]. rewrite H.
  cbn [String.length]. by rewrite replace_from_skip.
Qed.

Lemma match_from_miss r c s :
  rmatch r (String c s) = None →
  match_from r 0 (String c s) = match_from r 0 s.
Proof. intros H. cbn [match_from]. by rewrite H. Qed.

Lemma replace_from_miss r rep c s :
  rmatch r (String c s) = None →
  replace_from r rep 0 (String c s) = String c (replace_from r rep 0 s).
Proof. intros H. cbn [replace_from]. by rewrite H. Qed.






End RegexFacts.

(** ** Numbers printed and parsed *)

Module JsNumberFacts.
Import JsText JsTextFacts JsPatterns RegexFacts JsNumber.
Local Open Scope list_scope.

Lemma string_of_uint_digits d : all_chars is_digit (NilEmpty.string_of_uint d) = true.
Proof. induction d; simpl; auto. Qed.

Lemma to_uint_nonnil n : Nat.to_uint n ≠ Decimal.Nil.
Proof.
  intros H. pose proof (DecimalNat.Unsigned.of_to n) as E.
  rewrite H in E. simpl in E. subst n. discriminate H.
Qed.

Lemma num_to_string_eq n :
  num_to_string n = NilEmpty.string_of_uint (Nat.to_uint n).
Proof.
  unfold num_to_string, NilZero.string_of_uint.
  pose proof (to_uint_nonnil n). destruct (Nat.to_uint n); congruence.
Qed.

Lemma num_to_string_digits n : all_chars is_digit (num_to_string n) = true.
Proof. rewrite num_to_string_eq. apply string_of_uint_digits. Qed.

Lemma num_to_string_nonempty n : num_to_string n ≠ "".
Proof.
  rewrite num_to_string_eq. pose proof (to_uint_nonnil n).
  destruct (Nat.to_uint n); simpl; congruence.
Qed.

Lemma read_digits_uint d rest a :
  read_digits (Some (Z.of_nat a)) (NilEmpty.string_of_uint d ++ rest)%string
  = read_digits (Some (Z.of_nat (Nat.of_uint_acc d a))) rest.
Proof.
  revert a. induction d; intros a; cbn [NilEmpty.string_of_uint Nat.of_uint_acc];
    [ by rewrite append_nil | .. ];
    rewrite append_cons; cbn [read_digits];
    (match goal with |- context [is_digit ?c] =>
       change (is_digit c) with true; cbv iota end);
    rewrite <- IHd; do 2 f_equal; rewrite Nat.tail_mul_spec;
    cbn [default]; (match goal with |- context [code ?c] =>
       let v := eval vm_compute in (code c) in change (code c) with v end);
    unfold id; lia.
Qed.

Lemma read_digits_stop acc rest :
  match rest with String c _ => is_digit c = false | EmptyString => True end →
  read_digits acc rest = acc.
Proof. destruct rest; simpl; [done|]. by intros ->. Qed.

Lemma read_num_to_string n rest :
  match rest with String c _ => is_digit c = false | EmptyString => True end →
  read_digits None (num_to_string n ++ rest)%string = Some (Z.of_nat n).
Proof.
  intros Hrest. rewrite num_to_string_eq.
  pose proof (DecimalNat.Unsigned.of_to n) as E. unfold Nat.of_uint in E.
  pose proof (to_uint_nonnil n) as Hn.
  destruct (Nat.to_uint n) as [|d|d|d|d|d|d|d|d|d|d] eqn:Ed; [done|..];
    cbn [NilEmpty.string_of_uint]; rewrite append_cons; cbn [read_digits];
    (match goal with |- context [is_digit ?c] =>
       change (is_digit c) with true; cbv iota end);
    cbn [default]; unfold id;
    (match goal with |- context [code ?c] =>
       let v := eval vm_compute in (code c) in change (code c) with v end);
    cbn [Nat.of_uint_acc] in E; rewrite Nat.tail_mul_spec in E;
    (match goal with |- read_digits (Some ?z) _ = _ =>
       let k := eval vm_compute in (Z.to_nat z) in
       replace z with (Z.of_nat k) by (vm_compute; reflexivity) end);
    rewrite read_digits_uint, read_digits_stop by done;
    f_equal; f_equal; exact E.
Qed.

Lemma trimStart_digits s :
  match s with String c _ => is_space c = false | EmptyString => True end →
  trimStart s = s.
Proof. destruct s; simpl; [done|]. by intros ->. Qed.

Lemma num_to_string_head n :
  ∃ c r, num_to_string n = String c r ∧ is_digit c = true.
Proof.
  pose proof (num_to_string_digits n) as D.
  pose proof (num_to_string_nonempty n) as N.
  destruct (num_to_string n) as [|c r]; [done|].
  exists c, r. split; [done|]. simpl in D. by apply andb_true_iff in D as [? _].
Qed.

Lemma digit_not_space c : is_digit c = true → is_space c = false.
Proof.
  destruct c as [[] [] [] [] [] [] [] []]; vm_compute; congruence.
Qed.

Lemma digit_not_sign c : is_digit c = true → c ≠ "-"%char ∧ c ≠ "+"%char.
Proof. intros H; split; intros ->; vm_compute in H; congruence. Qed.

(** [parseInt] reads back what the template literal of a natural number
    printed, whatever follows it, as long as that is not a digit. *)
Lemma parseInt_num_to_string n rest :
  match rest with String c _ => is_digit c = false | EmptyString => True end →
  parseInt (num_to_string n ++ rest)%string = Some (Z.of_nat n).
Proof.
  intros Hrest. unfold parseInt.
  destruct (num_to_string_head n) as (c & r & E & D).
  pose proof (read_num_to_string n rest Hrest) as R.
  rewrite E in R |- *. rewrite append_cons in R |- *.
  rewrite trimStart_digits by (by apply digit_not_space).
  destruct (digit_not_sign c D) as [N1 N2].
  destruct (decide (c = "-"%char)); [done|].
  destruct (decide (c = "+"%char)); [done|].
  destruct c as [[] [] [] [] [] [] [] []]; try done.
Qed.

End JsNumberFacts.

(** ** Numbering and sorting in [convertSection] *)

Module ApiFacts.
Import JsText JsTextFacts Api.
Local Open Scope list_scope.

Lemma assign_lookup id n o x :
  assign id n o !! x
  = if decide (x = id ∧ id ≠ "__proto__"%string) then Some n else o !! x.
Proof.
  unfold assign. destruct (String.eqb_spec id "__proto__") as [->|Hne].
  - rewrite decide_False; [done|]. by intros [_ ?].
  - destruct (decide (x = id)) as [->|Hx].
    + rewrite lookup_insert_eq. by rewrite decide_True.
    + rewrite lookup_insert_ne by done. rewrite decide_False; [done|].
      by intros [? _].
Qed.

Lemma number_ids_snoc ids x :
  number_ids (ids ++ [x]) = assign x (length ids + 1) (number_ids ids).
Proof.
  unfold number_ids. rewrite imap_app, foldl_app. simpl.
  by rewrite Nat.add_0_r.
Qed.

(** The prototype key is never stored. *)
Lemma number_ids_proto ids : number_ids ids !! "__proto__"%string = None.
Proof.
  induction ids as [|y ids IH] using rev_ind; [done|].
  rewrite number_ids_snoc, assign_lookup, IH.
  rewrite decide_False; [done|]. by intros [-> ?].
Qed.

(** On a list without repetition the number of an ID, the prototype key
    apart, is its position plus one. *)
Lemma number_ids_lookup ids x n :
  NoDup ids → x ≠ "__proto__"%string →
  number_ids ids !! x = Some n ↔ ∃ i, ids !! i = Some x ∧ n = i + 1.
Proof.
  intros Hnd Hx. revert n Hnd.
  induction ids as [|y ids IH] using rev_ind; intros n Hnd.
  - unfold number_ids. simpl. rewrite lookup_empty.
    split; [done|]. by intros (i & ? & _).
  - apply NoDup_app in Hnd as (Hnd & Hy & _).
    rewrite number_ids_snoc, assign_lookup.
    destruct (decide (x = y)) as [->|Hne].
    + rewrite decide_True by done. split.
      * intros [= <-]. exists (length ids). split; [|done].
        by rewrite list_lookup_middle.
      * intros (i & Hi & ->). f_equal.
        destruct (decide (i < length ids)) as [Hlt|Hge].
        -- rewrite lookup_app_l in Hi by done.
           exfalso. apply (Hy y); [|left].
           apply list_elem_of_lookup. eauto.
        -- apply lookup_lt_Some in Hi. rewrite length_app in Hi.
           simpl in Hi. lia.
    + rewrite decide_False by (by intros [? _]). rewrite IH by done.
      split; intros (i & Hi & ->); exists i; split; try done.
      * by apply lookup_app_l_Some.
      * apply lookup_app_Some in Hi as [Hi|[_ Hi]]; [done|].
        apply list_lookup_singleton_Some in Hi as [_ ?]. done.
Qed.

Lemma read_proto o : read o "__proto__" = Some ObjectPrototype.
Proof. done. Qed.

Lemma read_own o x : x ≠ "__proto__"%string → read o x = Num <$> o !! x.
Proof.
  intros Hx. unfold read.
  by destruct (String.eqb_spec x "__proto__").
Qed.

Lemma insert_by_Permutation {A} (cmp : A → A → Z) x l :
  insert_by cmp x l ≡ₚ x :: l.
Proof.
  induction l as [|y l IH]; simpl; [done|].
  destruct (cmp x y <=? 0)%Z; [done|].
  rewrite IH. apply perm_swap.
Qed.

Lemma sort_js_Permutation {A} (cmp : A → A → Z) l : sort_js cmp l ≡ₚ l.
Proof.
  induction l as [|x l IH]; simpl; [done|].
  fold (sort_js cmp l). by rewrite insert_by_Permutation, IH.
Qed.

(** The sort reads its comparator on the elements of the list only. *)
Lemma insert_by_ext {A} (cmp cmp' : A → A → Z) x l :
  (∀ y, y ∈ l → cmp x y = cmp' x y) →
  insert_by cmp x l = insert_by cmp' x l.
Proof.
  induction l as [|y l IH]; intros H; [done|]. simpl.
  rewrite (H y) by left. rewrite IH; [done|].
  intros z Hz. apply H. by right.
Qed.

Lemma sort_js_ext {A} (cmp cmp' : A → A → Z) l :
  (∀ x y, x ∈ l → y ∈ l → cmp x y = cmp' x y) →
  sort_js cmp l = sort_js cmp' l.
Proof.
  induction l as [|x l IH]; intros H; [done|]. simpl.
  fold (sort_js cmp l) (sort_js cmp' l).
  rewrite <- IH by (intros; apply H; by right).
  apply insert_by_ext. intros y Hy. rewrite sort_js_Permutation in Hy.
  apply H; [left|by right].
Qed.

(** A comparator that subtracts keys sorts by key. *)
Section ByKey.
Context {A : Type} (key : A → nat).

Let key_le (a b : A) : Prop := (key a ≤ key b)%nat.

Lemma insert_by_key_sorted x l :
  StronglySorted key_le l →
  StronglySorted key_le (insert_by (by_key key) x l).
Proof.
  induction 1 as [|y l Hs IH Hy]; simpl.
  - repeat constructor.
  - unfold by_key at 1.
    destruct (Z.leb_spec (Z.of_nat (key x) - Z.of_nat (key y)) 0).
    + constructor; [by constructor|].
      constructor; [unfold key_le; lia|].
      eapply Forall_impl; [exact Hy|].
      unfold key_le. intros z ?. lia.
    + constructor; [done|].
      rewrite insert_by_Permutation. constructor; [|done].
      unfold key_le. lia.
Qed.

Lemma sort_js_by_key_sorted l :
  StronglySorted (λ a b, (key a ≤ key b)%nat) (sort_js (by_key key) l).
Proof.
  induction l as [|x l IH]; simpl; [constructor|].
  by apply insert_by_key_sorted.
Qed.
End ByKey.


End ApiFacts.

(** ** Markers removed by [stripEvidenceIds] *)

Module StripFacts.
Import JsText JsTextFacts JsPatterns RegexFacts JsNumberFacts Api.
Local Open Scope list_scope.
Local Open Scope nat_scope.

Lemma only_ones_marker : only_ones marker.
Proof. unfold marker. repeat constructor. Qed.








Lemma marker_char_classes c :
  marker_char c = true → is_space c = false ∧ ch_ci "e" "E" c = true
                          ∨ is_space c = false ∧ ch_ci "e" "E" c = false.
Proof.
  destruct c as [[] [] [] [] [] [] [] []]; vm_compute; auto.
Qed.





(** *** Texts whose underscores lie in markers *)







(** *** The third pass removes every marker of such a text *)




(** *** The first two passes leave such a text such a text *)

Section Group.
Variables opening closing : ascii.
Hypothesis opening_no_marker : marker_char opening = false.
Hypothesis closing_no_marker : marker_char closing = false.






End Group.

(** *** No underscore, no marker *)







End StripFacts.

(** ** The conversion run on the store *)

Module InPlaceFacts.
Import JsText JsTextFacts Api ApiFacts InPlace.
Local Open Scope list_scope.
Local Open Scope nat_scope.

Lemma bind_run {A B} (m : M A) (k : A → M B) h x h' :
  m h = (x, h') → (m ≫= k) h = k x h'.
Proof. intros E. unfold mbind, M_bind. by rewrite E. Qed.

Lemma ids_at_app h t r : r < length h → ids_at (h ++ t) r = ids_at h r.
Proof. intros H. unfold ids_at. by rewrite lookup_app_l. Qed.

Lemma items_at_app h t r : r < length h → items_at (h ++ t) r = items_at h r.
Proof. intros H. unfold items_at. by rewrite lookup_app_l. Qed.

Lemma ids_at_new h l t : ids_at (h ++ Ids l :: t) (length h) = l.
Proof. unfold ids_at. by rewrite list_lookup_middle. Qed.

Lemma items_at_new h l t : items_at (h ++ Items l :: t) (length h) = l.
Proof. unfold items_at. by rewrite list_lookup_middle. Qed.

Lemma store_last (h : Heap) (c c' : Cell) :
  <[length h := c']> (h ++ [c]) = h ++ [c'].
Proof.
  rewrite insert_app_r_alt by lia. by rewrite Nat.sub_diag.
Qed.

Lemma holds_ids_lt h r : holds_ids h r = true → r < length h.
Proof.
  unfold holds_ids. destruct (h !! r) eqn:E; [|done].
  intros _. by eapply lookup_lt_Some.
Qed.

Lemma holds_items_lt h r : holds_items h r = true → r < length h.
Proof.
  unfold holds_items. destruct (h !! r) eqn:E; [|done].
  intros _. by eapply lookup_lt_Some.
Qed.

Lemma holds_ids_app h t r : holds_ids h r = true → holds_ids (h ++ t) r = true.
Proof.
  intros H. pose proof (holds_ids_lt _ _ H). unfold holds_ids in *.
  by rewrite lookup_app_l.
Qed.

Lemma holds_items_app h t r :
  holds_items h r = true → holds_items (h ++ t) r = true.
Proof.
  intros H. pose proof (holds_items_lt _ _ H). unfold holds_items in *.
  by rewrite lookup_app_l.
Qed.

(** *** The steps of [numberIds] *)

Lemma extract_run p text h :
  h !! p = Some (RegExp 0) →
  InPlace.extractEvidenceIds p text h
  = (S (length h),
     h ++ [Ids (matchAll evidenceIdPattern text);
           Ids (Api.extractEvidenceIds text)]).
Proof.
  intros Hp. unfold InPlace.extractEvidenceIds, match_all, spread.
  unfold mbind, M_bind, store, alloc, get_ids. cbv beta iota zeta.
  rewrite list_insert_id by done. rewrite ids_at_new.
  rewrite length_app, <- app_assoc. simpl. by rewrite Nat.add_1_r.
Qed.

Lemma listed_or_found_run p listed text h :
  h !! p = Some (RegExp 0) → listed < length h →
  ∃ r t, listed_or_found p listed text h = (r, h ++ t) ∧
         r < length (h ++ t) ∧
         ids_at (h ++ t) r = cited_by (ids_at h listed) text.
Proof.
  intros Hp Hl. unfold listed_or_found.
  rewrite (bind_run (get_ids listed) _ h _ h eq_refl).
  destruct (ids_at h listed) as [|x l] eqn:E.
  - rewrite extract_run by done. eexists _, _. split; [done|].
    rewrite length_app. simpl. split; [lia|].
    unfold ids_at. rewrite lookup_app_r by lia.
    by replace (S (length h) - length h) with 1 by lia.
  - exists listed, []. rewrite app_nil_r. by rewrite E.
Qed.

Lemma bullets_run p (bs : list BulletRef) h :
  h !! p = Some (RegExp 0) →
  Forall (λ b, b_evidence_ids b < length h) bs →
  ∃ rs t,
    mapM (λ b, listed_or_found p (b_evidence_ids b) (b_text b)) bs h
    = (rs, h ++ t) ∧
    Forall (λ r, r < length (h ++ t)) rs ∧
    ids_at (h ++ t) <$> rs
    = (λ b, cited_by (ids_at h (b_evidence_ids b)) (b_text b)) <$> bs.
Proof.
  revert h. induction bs as [|b bs IH]; intros h Hp Hbs.
  - exists [], []. by rewrite app_nil_r.
  - apply Forall_cons in Hbs as [Hb Hbs]. cbn [mapM].
    destruct (listed_or_found_run p _ (b_text b) h Hp Hb)
      as (r & t1 & E1 & Hr & Hid).
    rewrite (bind_run _ _ _ _ _ E1).
    destruct (IH (h ++ t1)) as (rs & t2 & E2 & Hrs & Hids).
    { by apply lookup_app_l_Some. }
    { eapply Forall_impl; [done|]. intros x Hx. rewrite length_app. simpl in *. lia. }
    rewrite (bind_run _ _ _ _ _ E2). unfold ret.
    exists (r :: rs), (t1 ++ t2). rewrite app_assoc. split; [done|].
    split.
    + constructor; [|done]. rewrite length_app. lia.
    + rewrite !fmap_cons. f_equal.
      * by rewrite ids_at_app.
      * rewrite Hids. apply list_fmap_ext. intros i x Hx.
        rewrite ids_at_app; [done|].
        by apply (proj1 (Forall_lookup _ _) Hbs i x).
Qed.

Lemma push_run h acc rs :
  Forall (λ r, r < length h) rs →
  forM (λ ids, l ← get_ids ids; push (length h) l) rs (h ++ [Ids acc])
  = (tt, h ++ [Ids (foldl (λ acc ids, acc ++ ids) acc (ids_at h <$> rs))]).
Proof.
  revert acc. induction rs as [|r rs IH]; intros acc Hrs; [done|].
  apply Forall_cons in Hrs as [Hr Hrs]. cbn [forM].
  assert ((l ← get_ids r; push (length h) l) (h ++ [Ids acc])
          = (tt, h ++ [Ids (acc ++ ids_at h r)])) as E.
  { unfold push, get_ids, store, mbind, M_bind. cbv beta iota zeta.
    by rewrite ids_at_new, ids_at_app, store_last. }
  rewrite (bind_run _ _ _ _ _ E). by rewrite IH.
Qed.

Lemma section_ok_refs h s :
  section_ok h s = true →
  s_big_picture_evidence_ids s < length h ∧
  Forall (λ b, b_evidence_ids b < length h) (s_bullets s).
Proof.
  unfold section_ok. intros [H1 H2]%andb_true_iff.
  split; [by apply holds_ids_lt|].
  apply Forall_forall. intros b Hb%list_elem_of_In.
  rewrite forallb_forall in H2. by apply holds_ids_lt, H2.
Qed.

Lemma load_bigPictureIds h s :
  Api.bigPictureIds (load_section h s)
  = cited_by (ids_at h (s_big_picture_evidence_ids s)) (s_big_picture s).
Proof.
  unfold Api.bigPictureIds, cited_by. simpl.
  by destruct (ids_at h (s_big_picture_evidence_ids s)).
Qed.

Lemma load_bulletEvidenceIds h s :
  Api.bulletEvidenceIds (load_section h s)
  = (λ b, cited_by (ids_at h (b_evidence_ids b)) (b_text b)) <$> s_bullets s.
Proof.
  unfold Api.bulletEvidenceIds. simpl. rewrite <- list_fmap_compose.
  apply list_fmap_ext. intros i b _. unfold cited_by. simpl.
  by destruct (ids_at h (b_evidence_ids b)).
Qed.

(** What [numberIds] leaves: the arrays hold what the conversion of the
    loaded section computes, and the store has only grown. *)
Lemma numberIds_run s h :
  section_ok h s = true →
  ∃ n t,
    numberIds s h = (n, h ++ t) ∧
    InPlace.idToNum n = Api.idToNum (load_section h s) ∧
    bigPictureIds n < length (h ++ t) ∧
    ids_at (h ++ t) (bigPictureIds n) = Api.bigPictureIds (load_section h s) ∧
    ids_at (h ++ t) <$> bulletEvidenceIds n
    = Api.bulletEvidenceIds (load_section h s) ∧
    ids_at (h ++ t) (InPlace.uniqueIds n) = Api.uniqueIds (load_section h s).
Proof.
  intros [Hbp Hbs]%section_ok_refs. unfold numberIds.
  rewrite (bind_run (alloc (RegExp 0)) _ h _ _ eq_refl).
  set (h1 := h ++ [RegExp 0]).
  assert (h1 !! length h = Some (RegExp 0)) as Hp
    by (by apply list_lookup_middle).
  assert (∀ r, r < length h → r < length h1) as Hlt
    by (intros r Hr; unfold h1; rewrite length_app; lia).
  destruct (listed_or_found_run (length h) (s_big_picture_evidence_ids s)
              (s_big_picture s) h1 Hp (Hlt _ Hbp))
    as (bp & t2 & E2 & Hbp2 & Hid2).
  rewrite (bind_run _ _ _ _ _ E2).
  destruct (bullets_run (length h) (s_bullets s) (h1 ++ t2))
    as (rs & t3 & E3 & Hrs & Hids3).
  { by apply lookup_app_l_Some. }
  { eapply Forall_impl; [done|]. intros b Hb. rewrite length_app.
    specialize (Hlt _ Hb). lia. }
  rewrite (bind_run _ _ _ _ _ E3).
  set (h3 := (h1 ++ t2) ++ t3) in *.
  rewrite (bind_run (get_ids bp) _ h3 _ h3 eq_refl).
  rewrite (bind_run (alloc (Ids (ids_at h3 bp))) _ h3 _ _ eq_refl).
  rewrite (bind_run _ _ _ _ _ (push_run h3 _ rs Hrs)).
  set (all := foldl (λ acc ids, acc ++ ids) (ids_at h3 bp) (ids_at h3 <$> rs)).
  unfold spread. unfold mbind, M_bind, get_ids, alloc, ret.
  rewrite ids_at_new. rewrite ids_at_new.
  assert (ids_at h3 bp = Api.bigPictureIds (load_section h s)) as Ebp.
  { unfold h3. rewrite ids_at_app by done. rewrite Hid2.
    unfold h1. by rewrite ids_at_app, load_bigPictureIds. }
  assert (ids_at h3 <$> rs = Api.bulletEvidenceIds (load_section h s)) as Ers.
  { rewrite load_bulletEvidenceIds, Hids3. apply list_fmap_ext.
    intros i b Hb. unfold h1. rewrite <- app_assoc.
    rewrite ids_at_app; [done|].
    by apply (proj1 (Forall_lookup _ _) Hbs i b). }
  assert (all = Api.allReferencedIds (load_section h s)) as Eall
    by (unfold all, Api.allReferencedIds; by rewrite Ebp, Ers).
  eexists _, ([RegExp 0] ++ t2 ++ t3 ++ [Ids all; Ids (spread_set all)]).
  split.
  { f_equal. unfold h3, h1. rewrite <- !app_assoc. done. }
  cbn [InPlace.idToNum bigPictureIds bulletEvidenceIds InPlace.uniqueIds].
  assert (h ++ [RegExp 0] ++ t2 ++ t3 ++ [Ids all; Ids (spread_set all)]
          = h3 ++ [Ids all; Ids (spread_set all)]) as ->
    by (unfold h3, h1; by rewrite <- !app_assoc).
  assert (bp < length h3) as Hbp3
    by (unfold h3; rewrite length_app; lia).
  split; [by rewrite Eall|].
  split; [rewrite length_app; lia|].
  split; [by rewrite ids_at_app|].
  split.
  { rewrite <- Ers. apply list_fmap_ext. intros i r Hr.
    apply ids_at_app. by apply (proj1 (Forall_lookup _ _) Hrs i r). }
  unfold ids_at. rewrite lookup_app_r by (rewrite length_app; simpl; lia).
  rewrite length_app. simpl.
  replace (length h3 + 1 - length h3) with 1 by lia. simpl.
  by rewrite Eall.
Qed.

(** *** The steps of [emit] *)

Lemma mapM_reads {A B} (f : A → M B) (g : A → B) l h :
  (∀ x, x ∈ l → f x h = (g x, h)) → mapM f l h = (g <$> l, h).
Proof.
  induction l as [|x l IH]; intros Hf; [done|]. cbn [mapM].
  rewrite (bind_run _ _ _ _ _ (Hf x ltac:(left))).
  rewrite (bind_run _ _ _ _ _ (IH (λ y Hy, Hf y ltac:(by right)))).
  done.
Qed.

Lemma emit_run s pack n h0 h :
  section_ok h0 s = true →
  (∀ p, pack = Some p → holds_items h0 (p_items p) = true) →
  (∃ t, h = h0 ++ t) →
  InPlace.idToNum n = Api.idToNum (load_section h0 s) →
  ids_at h (bigPictureIds n) = Api.bigPictureIds (load_section h0 s) →
  ids_at h <$> bulletEvidenceIds n
  = Api.bulletEvidenceIds (load_section h0 s) →
  ids_at h (InPlace.uniqueIds n) = Api.uniqueIds (load_section h0 s) →
  ∃ t,
    emit s pack n h
    = ({| UI.headline := s_headline s;
          UI.bigPicture := bigPictureWithCites (load_section h0 s);
          UI.bullets := bulletsWithCites (load_section h0 s);
          UI.evidence :=
            referencedEvidence (load_section h0 s) (load_pack h0 <$> pack) |},
       h ++ t).
Proof.
  intros Hok Hpack [t0 ->] Hnum Hbp Hbs Hu.
  destruct (section_ok_refs _ _ Hok) as [_ Hrefs].
  set (h := h0 ++ t0) in *.
  unfold emit.
  rewrite (bind_run (get_ids (bigPictureIds n)) _ h _ h eq_refl).
  set (g := λ x : nat * BulletRef,
         {| UI.text :=
              withCites (stripEvidenceIds (b_text x.2))
                (citeNums 2
                   (match bulletEvidenceIds n !! x.1 with
                    | Some r => ids_at h r
                    | None => []
                    end) (InPlace.idToNum n));
            UI.evidenceId :=
              str_or (head (ids_at h (b_evidence_ids x.2))) "" |}).
  match goal with
  | |- context [mapM ?f ?l] =>
      assert (∀ x, x ∈ l → f x h = (g x, h)) as Hg;
        [|rewrite (bind_run (mapM f l) _ h _ h (mapM_reads f g l h Hg))]
  end.
  { intros [index b] _. unfold g. simpl.
    by destruct (bulletEvidenceIds n !! index). }
  rewrite (bind_run (get_ids (InPlace.uniqueIds n)) _ h _ h eq_refl).
  set (its := match pack with
              | Some p => items_at h (p_items p)
              | None => []
              end).
  match goal with
  | |- context [mbind ?k (match pack with
                          | Some p => get_items (p_items p)
                          | None => ret []
                          end)] =>
      rewrite (bind_run (match pack with
                         | Some p => get_items (p_items p)
                         | None => ret []
                         end) k h its h)
        by (unfold its; by destruct pack)
  end.
  set (F := filter (λ e, evidence_id e ∈ ids_at h (InPlace.uniqueIds n)) its).
  rewrite (bind_run (alloc (Items F)) _ h _ _ eq_refl).
  assert (sort (length h) (byNum (InPlace.idToNum n)) (h ++ [Items F])
          = (tt, h ++ [Items (sort_js (byNum (InPlace.idToNum n)) F)])) as Es.
  { unfold sort, get_items, store, mbind, M_bind. cbv beta iota zeta.
    by rewrite items_at_new, store_last. }
  rewrite (bind_run _ _ _ _ _ Es).
  rewrite (bind_run (get_items (length h)) _ _ _ _ eq_refl).
  rewrite items_at_new. unfold ret.
  exists [Items (sort_js (byNum (InPlace.idToNum n)) F)].
  f_equal. f_equal.
  - unfold bigPictureWithCites. by rewrite Hbp, Hnum.
  - unfold bulletsWithCites. simpl. rewrite fmap_imap, imap_fmap.
    apply imap_ext. intros i b Hb. unfold g. simpl. f_equal.
    + rewrite Hnum. do 2 f_equal. rewrite <- Hbs, list_lookup_fmap.
      by destruct (bulletEvidenceIds n !! i).
    + unfold h. rewrite ids_at_app; [done|].
      by apply (proj1 (Forall_lookup _ _) Hrefs i b).
  - unfold referencedEvidence, F. rewrite Hnum, Hu. do 3 f_equal.
    unfold its. destruct pack as [p|]; [|done]. simpl.
    unfold h. rewrite items_at_app; [done|].
    by apply holds_items_lt, Hpack.
Qed.

Lemma section_ok_app h t s :
  section_ok h s = true → section_ok (h ++ t) s = true.
Proof.
  unfold section_ok. intros [H1 H2]%andb_true_iff.
  rewrite (holds_ids_app _ _ _ H1). simpl.
  rewrite forallb_forall in H2 |- *. intros b Hb.
  by apply holds_ids_app, H2.
Qed.

Lemma load_section_app h t s :
  section_ok h s = true → load_section (h ++ t) s = load_section h s.
Proof.
  intros [H1 H2]%section_ok_refs. unfold load_section.
  rewrite ids_at_app by done. f_equal.
  apply list_fmap_ext. intros i b Hb. unfold load_bullet.
  rewrite ids_at_app; [done|].
  by apply (proj1 (Forall_lookup _ _) H2 i b).
Qed.

Lemma load_pack_app h t p :
  holds_items h (p_items p) = true → load_pack (h ++ t) p = load_pack h p.
Proof.
  intros H%holds_items_lt. unfold load_pack. by rewrite items_at_app.
Qed.

Lemma valid_app h t a : valid h a → valid (h ++ t) a.
Proof.
  intros [H1 H2]. split.
  - intros id s Hs. by apply section_ok_app, (H1 id).
  - intros id p Hp. by apply holds_items_app, (H2 id).
Qed.

Lemma loads_app h t a :
  valid h a →
  load_section (h ++ t) <$> sections a = load_section h <$> sections a ∧
  load_pack (h ++ t) <$> evidencePacks a = load_pack h <$> evidencePacks a.
Proof.
  intros [H1 H2]. split; apply map_fmap_ext.
  - intros id s Hs. by apply load_section_app, (H1 id).
  - intros id p Hp. by apply load_pack_app, (H2 id).
Qed.

(** One section converted on the store: the result is the conversion of
    the loaded artefacts, and the store has only grown. *)
Lemma convertSection_run a sectionId h0 h :
  valid h0 a → (∃ t, h = h0 ++ t) →
  ∃ t,
    InPlace.convertSection (sections a) (evidencePacks a) sectionId h
    = (Api.convertSection (load_section h0 <$> sections a)
                          (load_pack h0 <$> evidencePacks a) sectionId,
       h ++ t).
Proof.
  intros [H1 H2] [t0 ->].
  unfold InPlace.convertSection, Api.convertSection.
  rewrite !lookup_fmap.
  destruct (sections a !! sectionId) as [s|] eqn:Es; simpl.
  - pose proof (H1 _ _ Es) as Hok. simpl in Hok.
    destruct (numberIds_run s (h0 ++ t0) (section_ok_app _ t0 _ Hok))
      as (n & t & E & Hnum & _ & Hbp & Hbs & Hu).
    rewrite (load_section_app _ _ _ Hok) in Hnum, Hbp, Hbs, Hu.
    rewrite (bind_run _ _ _ _ _ E).
    destruct (emit_run s (evidencePacks a !! sectionId) n h0
                ((h0 ++ t0) ++ t) Hok) as (t' & E'); try done.
    + intros p Hp. by apply (H2 sectionId).
    + exists (t0 ++ t). by rewrite app_assoc.
    + exists (t ++ t'). rewrite E'. by rewrite app_assoc.
  - exists []. by rewrite app_nil_r.
Qed.

Lemma convertToUIFormat_run toLocaleDateString a h0 h :
  valid h0 a → (∃ t, h = h0 ++ t) →
  ∃ t,
    InPlace.convertToUIFormat toLocaleDateString a h
    = (Api.convertToUIFormat toLocaleDateString (meta a)
         (load_section h0 <$> sections a)
         (load_pack h0 <$> evidencePacks a),
       h ++ t).
Proof.
  intros Hv [t0 ->]. unfold InPlace.convertToUIFormat.
  destruct (convertSection_run a "data_centers" h0 (h0 ++ t0) Hv)
    as (t1 & E1); [by exists t0|].
  rewrite (bind_run _ _ _ _ _ E1).
  destruct (convertSection_run a "connectivity_fibre" h0
              ((h0 ++ t0) ++ t1) Hv) as (t2 & E2);
    [exists (t0 ++ t1); by rewrite app_assoc|].
  rewrite (bind_run _ _ _ _ _ E2).
  destruct (convertSection_run a "towers_wireless" h0
              (((h0 ++ t0) ++ t1) ++ t2) Hv) as (t3 & E3);
    [exists (t0 ++ t1 ++ t2); by rewrite !app_assoc|].
  rewrite (bind_run _ _ _ _ _ E3).
  exists (t1 ++ t2 ++ t3). unfold ret, Api.convertToUIFormat.
  by rewrite !app_assoc.
Qed.

End InPlaceFacts.

(** ** The assembly claims *)

Module Assembly.
Import JsText JsTextFacts JsPatterns RegexFacts Api ApiFacts StripFacts.
Local Open Scope list_scope.
Local Open Scope nat_scope.

Lemma allReferencedIds_flat section :
  allReferencedIds section
  = bigPictureIds section ++ concat (bulletEvidenceIds section).
Proof. apply foldl_app_flat. Qed.

Lemma idToNum_lookup section x n :
  x ≠ "__proto__"%string →
  idToNum section !! x = Some n ↔
  ∃ i, uniqueIds section !! i = Some x ∧ n = i + 1.
Proof. intros Hx. by apply number_ids_lookup; [apply NoDup_spread_set|]. Qed.

(** What [idToNum[x]] reads is a number exactly for an ID other than the
    prototype key that is cited, and the number is its position plus
    one. *)
Lemma read_number section x n :
  read (idToNum section) x = Some (Num n) ↔
  x ≠ "__proto__"%string ∧
  ∃ i, uniqueIds section !! i = Some x ∧ n = i + 1.
Proof.
  destruct (decide (x = "__proto__"%string)) as [->|Hx].
  - rewrite read_proto. split; [done|]. by intros [? _].
  - rewrite read_own by done. rewrite <- (idToNum_lookup _ _ _ Hx).
    destruct (idToNum section !! x); simpl; split.
    + intros [= ->]. done.
    + intros [_ [= ->]]. done.
    + done.
    + by intros [_ ?].
Qed.

(** C2: the code does not number the ID [__proto__]. In a section whose
    paragraph cites [__proto__] and then [ev_aaaaaaaa], the two IDs are
    collected in that order, but the assignment of number 1 stores
    nothing: the object holds the number 2 for the second ID only, what
    is read for [__proto__] is the prototype object, and the paragraph
    shows it as a citation that is no number. *)
Theorem numbering_misses_proto :
  uniqueIds Samples.proto_cited = ["__proto__"; "ev_aaaaaaaa"]%string ∧
  idToNum Samples.proto_cited !! "__proto__"%string = None ∧
  read (idToNum Samples.proto_cited) "__proto__" = Some ObjectPrototype ∧
  read (idToNum Samples.proto_cited) "ev_aaaaaaaa" = Some (Num 2) ∧
  (∀ n, read (idToNum Samples.proto_cited) "__proto__" ≠ Some (Num n)) ∧
  bigPictureWithCites Samples.proto_cited
  = "Fibre builds accelerate. [[object Object]][2]"%string.
Proof.
  split; [by vm_compute|]. split; [by vm_compute|].
  split; [done|]. split; [by vm_compute|]. split; [done|]. by vm_compute.
Qed.

(** X24: for a section that does not cite [__proto__], the cited IDs are
    collected paragraph first (the listed IDs, or those found in the text
    when none is listed), then bullet by bullet in the same way; of each
    ID the first occurrence is kept; the kept IDs are numbered 1, 2, 3,
    ... in that order; and the numbering of a section depends on that
    section alone. *)
Theorem display_numbers (sections : gmap string SectionData)
    (sectionId : string) (section : SectionData) :
  sections !! sectionId = Some section →
  "__proto__"%string ∉ uniqueIds section →
  let paragraph :=
    match big_picture_evidence_ids section with
    | [] => extractEvidenceIds (big_picture section)
    | ids => ids
    end in
  let of_bullet := λ b : Bullet,
    match evidence_ids b with
    | [] => extractEvidenceIds (text b)
    | ids => ids
    end in
  let cited := paragraph ++ concat (of_bullet <$> bullets section) in
  NoDup (uniqueIds section) ∧
  (∀ x, x ∈ uniqueIds section ↔ x ∈ cited) ∧
  (∀ i j x y,
     uniqueIds section !! i = Some x → uniqueIds section !! j = Some y →
     i < j → ∃ k, cited !! k = Some x ∧ y ∉ take (S k) cited) ∧
  (∀ x n, read (idToNum section) x = Some (Num n) ↔
          ∃ i, uniqueIds section !! i = Some x ∧ n = i + 1) ∧
  (∀ x, x ∈ cited → ∃ n, read (idToNum section) x = Some (Num n) ∧
                         1 ≤ n ≤ length (uniqueIds section)) ∧
  (∀ packs sections' packs',
     sections' !! sectionId = Some section →
     packs' !! sectionId = packs !! sectionId →
     convertSection sections' packs' sectionId
     = convertSection sections packs sectionId).
Proof.
  intros Hsec Hproto paragraph of_bullet cited.
  assert (allReferencedIds section = cited) as Hall
      by apply allReferencedIds_flat.
  assert (∀ x, x ∈ uniqueIds section ↔ x ∈ cited) as Hmem
      by (intros x; unfold uniqueIds; by rewrite elem_of_spread_set, Hall).
  assert (∀ x n, read (idToNum section) x = Some (Num n) ↔
                 ∃ i, uniqueIds section !! i = Some x ∧ n = i + 1) as Hnum.
  { intros x n. rewrite read_number. split; [by intros [_ ?]|].
    intros (i & Hi & ->). split; [|eauto].
    intros ->. apply Hproto. by eapply list_elem_of_lookup_2. }
  split; [apply NoDup_spread_set|]. split; [done|]. split.
  { intros i j x y. unfold uniqueIds.
    rewrite spread_set_first_seen, Hall. apply first_seen_order. }
  split; [done|]. split.
  { intros x (i & Hi)%Hmem%list_elem_of_lookup. exists (i + 1).
    split; [apply Hnum; eauto|]. apply lookup_lt_Some in Hi. lia. }
  intros packs sections' packs' Hsec' Hpack.
  unfold convertSection. by rewrite Hsec, Hsec', Hpack.
Qed.

Lemma elem_of_uniqueIds section x :
  x ∈ uniqueIds section ↔
  x ∈ bigPictureIds section ∨
  ∃ ids, ids ∈ bulletEvidenceIds section ∧ x ∈ ids.
Proof.
  unfold uniqueIds.
  rewrite elem_of_spread_set, allReferencedIds_flat, elem_of_app.
  by rewrite elem_of_concat.
Qed.

(** C3: every evidence entry emitted for a section is the conversion of
    an item of that section's pack whose ID is cited by the paragraph or
    by some bullet. *)
Theorem emitted_evidence_referenced (sections : gmap string SectionData)
    (packs : gmap string EvidencePack) (sectionId : string)
    (e : UI.Evidence) :
  e ∈ UI.evidence (convertSection sections packs sectionId) →
  ∃ section pack item,
    sections !! sectionId = Some section ∧
    packs !! sectionId = Some pack ∧
    item ∈ items pack ∧
    e = toUIEvidence item ∧
    UI.id e = evidence_id item ∧
    evidence_id item ∈ uniqueIds section ∧
    (evidence_id item ∈ bigPictureIds section ∨
     ∃ ids, ids ∈ bulletEvidenceIds section ∧ evidence_id item ∈ ids).
Proof.
  unfold convertSection.
  destruct (sections !! sectionId) as [section|]; simpl;
    [|by intros ?%elem_of_nil].
  unfold referencedEvidence. intros (item & -> & Hin)%list_elem_of_fmap.
  rewrite sort_js_Permutation in Hin.
  apply list_elem_of_filter in Hin as [Hid Hin].
  destruct (packs !! sectionId) as [pack|]; simpl in Hin;
    [|by apply elem_of_nil in Hin].
  exists section, pack, item. repeat split; try done.
  by apply elem_of_uniqueIds.
Qed.

(** *** The emitted evidence in display order *)


Lemma NoDup_fmap_filter {A B} (f : A → B) (P : A → Prop)
    `{∀ x, Decision (P x)} (l : list A) :
  NoDup (f <$> l) → NoDup (f <$> filter P l).
Proof.
  induction l as [|a l IH]; simpl; [done|].
  rewrite NoDup_cons. intros [Ha Hl].
  rewrite filter_cons. destruct (decide (P a)); simpl; [|by apply IH].
  apply NoDup_cons. split; [|by apply IH].
  intros (b & Hb & Hin)%list_elem_of_fmap.
  apply list_elem_of_filter in Hin as [_ Hin].
  apply Ha. apply list_elem_of_fmap. eauto.
Qed.

(** The display number of a cited ID is its position plus one. *)
Lemma displayNumber_cited section i x :
  "__proto__"%string ∉ uniqueIds section →
  uniqueIds section !! i = Some x →
  read (idToNum section) x = Some (Num (i + 1)) ∧
  displayNumber section x = i + 1.
Proof.
  intros Hproto Hi.
  assert (read (idToNum section) x = Some (Num (i + 1))) as H.
  { apply read_number. split; [|eauto].
    intros ->. apply Hproto. by eapply list_elem_of_lookup_2. }
  split; [done|]. unfold displayNumber. by rewrite H.
Qed.

Lemma numOf_cited section e :
  "__proto__"%string ∉ uniqueIds section →
  evidence_id e ∈ uniqueIds section →
  numOf (idToNum section) e = Num (displayNumber section (evidence_id e)).
Proof.
  intros Hproto (i & Hi)%list_elem_of_lookup.
  destruct (displayNumber_cited _ _ _ Hproto Hi) as [Hr Hd].
  unfold numOf. rewrite Hr, Hd. by rewrite Nat.add_1_r.
Qed.

(** On the cited items the comparator subtracts display numbers. *)
Lemma sort_by_displayNumber section (l : list EvidenceItem) :
  "__proto__"%string ∉ uniqueIds section →
  (∀ e, e ∈ l → evidence_id e ∈ uniqueIds section) →
  sort_js (byNum (idToNum section)) l
  = sort_js (by_key (λ e, displayNumber section (evidence_id e))) l.
Proof.
  intros Hproto Hl. apply sort_js_ext. intros a b Ha Hb.
  unfold byNum, by_key.
  by rewrite !numOf_cited by auto.
Qed.




(** *** Citations appended to the texts *)

Lemma elem_of_take_1 {A} (l : list A) k x : x ∈ take k l → x ∈ l.
Proof.
  intros (i & Hi & _)%elem_of_take. by eapply list_elem_of_lookup_2.
Qed.

Lemma cited_has_number section x :
  x ∈ uniqueIds section → x ≠ "__proto__"%string →
  ∃ i, read (idToNum section) x = Some (Num (S i)) ∧
       S i ≤ length (uniqueIds section).
Proof.
  intros (i & Hi)%list_elem_of_lookup Hx. exists i. split.
  - apply read_number. split; [done|]. exists i. split; [done|lia].
  - by apply lookup_lt_Some in Hi.
Qed.





(** C5: two runs of the assembly in a row on the same stored artefacts
    return the same document, which is the conversion of the artefacts
    as they were stored; the second run finds every stored array as the
    first run found it; and the numbering of each section is the same
    before and after a run. *)
Theorem assemble_idempotent (toLocaleDateString : string → string)
    (a : InPlace.Stored) (h : list InPlace.Cell) :
  InPlace.valid h a →
  ∃ first second h2,
    InPlace.assemble_twice toLocaleDateString a h = ((first, second), h2) ∧
    second = first ∧
    first = convertToUIFormat toLocaleDateString (InPlace.meta a)
              (InPlace.load_section h <$> InPlace.sections a)
              (InPlace.load_pack h <$> InPlace.evidencePacks a) ∧
    (∀ r, r < length h → h2 !! r = h !! r) ∧
    (∀ sectionId section h1,
       InPlace.sections a !! sectionId = Some section →
       h1 = h ∨ h1 = (InPlace.convertToUIFormat toLocaleDateString a h).2 →
       InPlace.idToNum (InPlace.numberIds section h1).1
       = idToNum (InPlace.load_section h section)).
Proof.
  intros Hv.
  destruct (InPlaceFacts.convertToUIFormat_run toLocaleDateString a h h Hv)
    as (t1 & E1); [exists []; by rewrite app_nil_r|].
  destruct (InPlaceFacts.convertToUIFormat_run toLocaleDateString a h
              (h ++ t1) Hv) as (t2 & E2); [by exists t1|].
  eexists _, _, _. split.
  { unfold InPlace.assemble_twice.
    rewrite (InPlaceFacts.bind_run _ _ _ _ _ E1).
    by rewrite (InPlaceFacts.bind_run _ _ _ _ _ E2). }
  split; [done|]. split; [done|]. split.
  { intros r Hr. rewrite <- app_assoc. by apply lookup_app_l. }
  intros sectionId section h1 Hs Hh1.
  pose proof (proj1 Hv _ _ Hs) as Hok. simpl in Hok.
  assert (∃ t, h1 = h ++ t) as [t ->].
  { destruct Hh1 as [->| ->].
    - exists []. by rewrite app_nil_r.
    - rewrite E1. by exists t1. }
  destruct (InPlaceFacts.numberIds_run section (h ++ t)
              (InPlaceFacts.section_ok_app _ t _ Hok))
    as (n & t' & E & Hnum & _).
  rewrite E. simpl. rewrite Hnum.
  by rewrite (InPlaceFacts.load_section_app _ _ _ Hok).
Qed.

(** *** The claims on the sample artefacts *)

Example sample_uniqueIds :
  uniqueIds Samples.section = ["ev_c037488c"; "ev_4c611ddc"; "ev_97b98930"].
Proof. by vm_compute. Qed.

Example sample_texts :
  bigPictureWithCites Samples.section = "Demand is rising. [1][2]"%string ∧
  UI.text <$> bulletsWithCites Samples.section
  = ["Equinix expands in Paris [3]"%string;
     "Digital Realty adds capacity [2][1]"%string].
Proof. by vm_compute. Qed.

Example sample_evidence :
  UI.id <$> referencedEvidence Samples.section (Some Samples.pack)
  = ["ev_c037488c"; "ev_4c611ddc"; "ev_97b98930"].
Proof. by vm_compute. Qed.

Lemma display_numbers_witness :
  let sections : gmap string SectionData :=
    {[ "data_centers"%string := Samples.section ]} in
  sections !! "data_centers"%string = Some Samples.section ∧
  ("__proto__"%string ∉ uniqueIds Samples.section) ∧
  (∃ n, read (idToNum Samples.section) "ev_97b98930" = Some (Num n) ∧
        1 ≤ n ≤ length (uniqueIds Samples.section)) ∧
  (read (idToNum Samples.section) "ev_97b98930" = Some (Num 3) ↔
   ∃ i, uniqueIds Samples.section !! i = Some "ev_97b98930"%string
        ∧ 3 = i + 1).
Proof.
  intros sections.
  assert (sections !! "data_centers"%string = Some Samples.section) as H
      by (vm_compute; reflexivity).
  assert ("__proto__"%string ∉ uniqueIds Samples.section) as Hp
      by (apply (bool_decide_unpack _); vm_compute; exact I).
  split; [exact H|]. split; [exact Hp|].
  destruct (display_numbers sections "data_centers" Samples.section H Hp)
    as (_ & _ & _ & Hnum & Hall & _).
  split; [|exact (Hnum "ev_97b98930"%string 3)].
  apply Hall. apply (bool_decide_unpack _). vm_compute. exact I.
Defined.

Lemma emitted_evidence_referenced_witness :
  let sections : gmap string SectionData :=
    {[ "data_centers"%string := Samples.section ]} in
  let packs : gmap string EvidencePack :=
    {[ "data_centers"%string := Samples.pack ]} in
  let e := toUIEvidence (Samples.item "ev_c037488c" "FT") in
  e ∈ UI.evidence (convertSection sections packs "data_centers") ∧
  ∃ item, item ∈ items Samples.pack ∧ e = toUIEvidence item ∧
          evidence_id item ∈ uniqueIds Samples.section.
Proof.
  intros sections packs e.
  assert (e ∈ UI.evidence (convertSection sections packs "data_centers"))
    as H by (vm_compute; constructor).
  split; [exact H|].
  destruct (emitted_evidence_referenced sections packs "data_centers" e H)
    as (section & pack & item & Hs & Hp & Hin & He & _ & Hu & _).
  assert (sections !! "data_centers"%string = Some Samples.section) as Hs'
      by (vm_compute; reflexivity).
  assert (packs !! "data_centers"%string = Some Samples.pack) as Hp'
      by (vm_compute; reflexivity).
  assert (section = Samples.section) as -> by congruence.
  assert (pack = Samples.pack) as -> by congruence.
  exists item. split; [exact Hin|]. split; [exact He|exact Hu].
Defined.



Lemma assemble_idempotent_witness :
  InPlace.valid MoreSamples.heap MoreSamples.stored ∧
  ∃ first second h2,
    InPlace.assemble_twice MoreSamples.toLocaleDateString MoreSamples.stored
      MoreSamples.heap = ((first, second), h2) ∧
    second = first ∧
    h2 !! 3 = MoreSamples.heap !! 3.
Proof.
  assert (InPlace.valid MoreSamples.heap MoreSamples.stored) as Hv
      by (split; apply map_Forall_singleton; reflexivity).
  split; [exact Hv|].
  destruct (assemble_idempotent MoreSamples.toLocaleDateString
              MoreSamples.stored MoreSamples.heap Hv)
    as (first & second & h2 & E & Heq & _ & Hframe & _).
  exists first, second, h2. split; [exact E|]. split; [exact Heq|].
  apply Hframe. vm_compute. lia.
Defined.



End Assembly.

(** ** The generation view *)

Module GenerationFacts.
Import GenerationView.
Local Open Scope list_scope.

Lemma ids_with_status st l : ids (with_status st <$> l) = ids l.
Proof. unfold ids. rewrite <- list_fmap_compose. by apply list_fmap_ext. Qed.

Lemma ids_updateStep stepId st l : ids (updateStep stepId st l) = ids l.
Proof.
  unfold ids, updateStep. rewrite <- list_fmap_compose.
  apply list_fmap_ext. intros _ step _. simpl.
  repeat case_match; done.
Qed.

Lemma ids_handleStatusUpdate step message st l :
  ids (handleStatusUpdate step message st l) = ids l.
Proof. apply ids_updateStep. Qed.

Lemma tracks_update_steps sel f r :
  (∀ l, ids (f l) = ids l) → tracks sel r → tracks sel (update_steps f r).
Proof.
  intros Hf (Hsel & Hids & Hall). unfold update_steps, tracks. simpl.
  split; [done|]. split; [by rewrite Hf|].
  apply Forall_app. split; [done|].
  constructor; [|done]. by rewrite Hf.
Qed.

Lemma tracks_emit sel e r :
  (∀ l, e ≠ Steps l) → tracks sel r → tracks sel (emit e r).
Proof.
  intros He (Hsel & Hids & Hall). unfold emit, tracks. simpl.
  split; [done|]. split; [done|].
  apply Forall_app. split; [done|].
  constructor; [|done]. destruct e; try done. by destruct (He l).
Qed.

Lemma tracks_on_event sel r e : tracks sel r → tracks sel (on_event r e).
Proof.
  destruct e as [step message st|category content]; simpl.
  - apply tracks_update_steps. intros l. apply ids_handleStatusUpdate.
  - by intros (Hsel & Hids & Hall).
Qed.

Lemma tracks_simulate sel r step : tracks sel r → tracks sel (simulate r step).
Proof.
  intros H. unfold simulate.
  apply tracks_update_steps; [intros; apply ids_updateStep|].
  apply tracks_update_steps; [intros; apply ids_updateStep|done].
Qed.

Lemma tracks_foldl {A} sel (f : Run → A → Run) (xs : list A) r :
  (∀ r x, tracks sel r → tracks sel (f r x)) →
  tracks sel r → tracks sel (foldl f r xs).
Proof.
  intros Hf. revert r. induction xs as [|x xs IH]; intros r Hr; simpl; auto.
Qed.

Lemma handleGenerate_selected rs backend v :
  dataCenters (selected v) || connectivity (selected v)
  || towers (selected v) = true →
  handleGenerate rs backend v = run_generation rs backend v.
Proof. intros Hsel. unfold handleGenerate. by rewrite Hsel. Qed.

Lemma tracks_run_generation rs backend v :
  tracks (selected v) (run_generation rs backend v).
Proof.
  unfold run_generation. cbv zeta.
  set (sel := selected v).
  set (r1 := emit (StreamRequest _) _).
  assert (tracks sel r1) as H1.
  { apply tracks_emit; [done|]. split; [done|].
    split; [apply ids_with_status|].
    repeat constructor. apply ids_with_status. }
  set (r2 := foldl on_event r1 _).
  assert (tracks sel r2) as H2
      by (apply tracks_foldl; [apply tracks_on_event|done]).
  destruct (stream_result backend) as [response|].
  - pose proof (tracks_emit sel toast_generated _ ltac:(done)
                  (tracks_update_steps sel _ r2
                     (ids_with_status complete) H2)) as (? & ? & ?).
    done.
  - set (r := foldl simulate r2 _).
    assert (tracks sel r) as Hr
        by (apply tracks_foldl; [apply tracks_simulate|done]).
    pose proof (tracks_emit sel (Request (request (at_fallback rs) r.1)) r
                  ltac:(done) Hr)
      as Hq.
    destruct (plain_result backend) as [message|response].
    + pose proof (tracks_emit sel (Toast "Generation failed" message true)
                    (fail message
                       (emit (Request (request (at_fallback rs) r.1)) r).1,
                     (emit (Request (request (at_fallback rs) r.1)) r).2)
                    ltac:(done)) as Hf.
      destruct Hq as (? & ? & ?).
      destruct Hf as (? & ? & ?); done.
    + pose proof (tracks_emit sel toast_generated _ ltac:(done) Hq)
        as (? & ? & ?).
      done.
Qed.

Lemma elem_of_foldl_trace {A} (f : Run → A → Run) (xs : list A) (r : Run)
    (e : Effect) :
  (∀ r x, e ∈ r.2 → e ∈ (f r x).2) → e ∈ r.2 → e ∈ (foldl f r xs).2.
Proof.
  intros Hf. revert r. induction xs as [|x xs IH]; intros r He; simpl; auto.
Qed.

Lemma elem_of_update_steps f (r : Run) (e : Effect) :
  e ∈ r.2 → e ∈ (update_steps f r).2.
Proof. intros He. unfold update_steps. simpl. apply elem_of_app. by left. Qed.

Lemma stream_request_issued rs backend v :
  StreamRequest (request (at_stream rs) (begin_run v))
  ∈ (run_generation rs backend v).2.
Proof.
  unfold run_generation. cbv zeta.
  set (req := request (at_stream rs) (begin_run v)).
  set (r1 := emit (StreamRequest _) _).
  assert (StreamRequest req ∈ r1.2) as H1.
  { unfold r1, emit. cbn [fst snd]. apply elem_of_app. right. left. }
  set (r2 := foldl on_event r1 _).
  assert (StreamRequest req ∈ r2.2) as H2.
  { apply elem_of_foldl_trace; [|done].
    intros r [|] He; cbn [on_event]; [by apply elem_of_update_steps|done]. }
  destruct (stream_result backend) as [response|]; cbn [fst snd].
  - unfold emit. cbn [fst snd]. apply elem_of_app. left.
    by apply elem_of_update_steps.
  - set (r := foldl simulate r2 _).
    assert (StreamRequest req ∈ r.2) as Hr.
    { apply elem_of_foldl_trace; [|done]. intros r' x He. unfold simulate.
      by apply elem_of_update_steps, elem_of_update_steps. }
    destruct (plain_result backend); unfold emit; cbn [fst snd];
      repeat (apply elem_of_app; left); done.
Qed.

(** C7: when no vertical is selected the handler leaves the view as it
    is, reports an error to the user and issues no generation request;
    the stream request is issued as soon as one vertical is selected. *)
Theorem no_verticals_no_request (rs : ResearchSettings) (backend : Backend)
    (v : View) :
  (dataCenters (selected v) = false →
   connectivity (selected v) = false →
   towers (selected v) = false →
   handleGenerate rs backend v
   = (v, [Toast "Error"
                "Select at least one sector to generate a newsletter" true])
   ∧ Forall (λ e, is_request e = false) (handleGenerate rs backend v).2) ∧
  (dataCenters (selected v) || connectivity (selected v)
   || towers (selected v) = true →
   ∃ req, StreamRequest req ∈ (handleGenerate rs backend v).2).
Proof.
  split.
  - intros Hd Hc Ht. unfold handleGenerate. rewrite Hd, Hc, Ht.
    cbn [orb negb fst snd].
    split; [done|]. by repeat constructor.
  - intros Hsel. rewrite handleGenerate_selected by done.
    eexists. apply stream_request_issued.
Qed.

Lemma filtered_research_steps sel :
  ("research_dc" ∈ ids (getFilteredSteps sel) ↔ dataCenters sel = true) ∧
  ("research_cf" ∈ ids (getFilteredSteps sel) ↔ connectivity sel = true) ∧
  ("research_tw" ∈ ids (getFilteredSteps sel) ↔ towers sel = true).
Proof.
  destruct sel as [[|] [|] [|]];
    apply (bool_decide_unpack _); by vm_compute.
Qed.

(** C8: the research step of a vertical is among the filtered steps
    exactly when the vertical is selected, and every value the step list
    takes while the handler runs, under any sequence of status reports
    from the backend, lists exactly the filtered steps: the research
    step of an unselected vertical is never shown, hence never active. *)
Theorem only_selected_research_steps (rs : ResearchSettings)
    (backend : Backend) (v : View) (l : list StatusStep) :
  Steps l ∈ (handleGenerate rs backend v).2 →
  ids l = ids (getFilteredSteps (selected v)) ∧
  ("research_dc" ∈ ids l ↔ dataCenters (selected v) = true) ∧
  ("research_cf" ∈ ids l ↔ connectivity (selected v) = true) ∧
  ("research_tw" ∈ ids l ↔ towers (selected v) = true) ∧
  (∀ step, step ∈ l →
     (id step = "research_dc" → dataCenters (selected v) = true) ∧
     (id step = "research_cf" → connectivity (selected v) = true) ∧
     (id step = "research_tw" → towers (selected v) = true)).
Proof.
  intros Hin.
  assert (ids l = ids (getFilteredSteps (selected v))) as Hids.
  { unfold handleGenerate in Hin. cbv zeta in Hin.
    destruct (negb _) eqn:Hsel; cbn [snd] in Hin.
    - apply list_elem_of_singleton in Hin. done.
    - destruct (tracks_run_generation rs backend v) as (_ & _ & Hall).
      rewrite Forall_forall in Hall. by apply (Hall (Steps l)). }
  split; [done|]. rewrite Hids.
  destruct (filtered_research_steps (selected v)) as (Hdc & Hcf & Htw).
  repeat (split; [done|]).
  intros step Hstep.
  assert (id step ∈ ids (getFilteredSteps (selected v))) as Hid.
  { rewrite <- Hids. unfold ids. apply list_elem_of_fmap. eauto. }
  repeat split; intros E; rewrite E in Hid; tauto.
Qed.

Lemma no_verticals_no_request_witness :
  let v := Samples.view Samples.nothing_selected in
  handleGenerate Samples.research_settings Samples.chatty_backend v
  = (v, [Toast "Error"
               "Select at least one sector to generate a newsletter" true])
  ∧ ∃ req, StreamRequest req
           ∈ (handleGenerate Samples.research_settings Samples.chatty_backend
                (Samples.view Samples.towers_only)).2.
Proof.
  intros v. split.
  - exact (proj1 (proj1 (no_verticals_no_request Samples.research_settings
                           Samples.chatty_backend v)
                    eq_refl eq_refl eq_refl)).
  - exact (proj2 (no_verticals_no_request Samples.research_settings
                    Samples.chatty_backend
                    (Samples.view Samples.towers_only)) eq_refl).
Defined.

Example towers_only_steps :
  ids (steps (handleGenerate Samples.research_settings Samples.chatty_backend
                (Samples.view Samples.towers_only)).1)
  = ["manager"; "research_tw"; "review"; "editor"; "assemble"].
Proof. by vm_compute. Qed.

Lemma only_selected_research_steps_witness :
  let v := Samples.view Samples.towers_only in
  let l := with_status pending <$> getFilteredSteps Samples.towers_only in
  Steps l
  ∈ (handleGenerate Samples.research_settings Samples.chatty_backend v).2 ∧
  ("research_dc" ∈ ids l ↔ dataCenters (selected v) = true) ∧
  ("research_tw" ∈ ids l ↔ towers (selected v) = true).
Proof.
  intros v l.
  assert (Steps l ∈ (handleGenerate Samples.research_settings
                       Samples.chatty_backend v).2) as H
      by (vm_compute; constructor).
  split; [exact H|].
  destruct (only_selected_research_steps Samples.research_settings
              Samples.chatty_backend v l H) as (_ & Hdc & _ & Htw & _).
  split; [exact Hdc|exact Htw].
Defined.

End GenerationFacts.

(** ** The research settings *)

Module SettingsFacts.
Import JsText Settings.
Local Open Scope list_scope.

Lemma lookup_default_bind {V} (m : gmap string (gmap string V)) v p :
  default ∅ (m !! v) !! p = m !! v ≫= (.!! p).
Proof. by destruct (m !! v). Qed.

Lemma flag_default settings vertical player :
  default ∅ (settings !! vertical) !! player = flag settings vertical player.
Proof. apply lookup_default_bind. Qed.

(** The inner loop turn sets the flag of its player when it is missing
    and touches no other flag. *)
Lemma migrate_player_flag v st p v' p' :
  is_Some (st.1 !! v) →
  flag (migrate_player v st p).1 v' p'
  = if decide (v' = v ∧ p' = p)
    then Some (default true (flag st.1 v p))
    else flag st.1 v' p'.
Proof.
  intros [inner Hv]. unfold migrate_player.
  fold (flag st.1 v p).
  destruct (flag st.1 v p) as [b|] eqn:Hf; simpl.
  - case_decide as H; [|done]. destruct H as [-> ->]. done.
  - unfold flag in *. rewrite Hv in Hf. simpl in Hf.
    destruct (decide (v' = v)) as [->|Hne].
    + rewrite lookup_alter_eq, Hv. simpl.
      destruct (decide (p' = p)) as [->|Hnp].
      * rewrite lookup_insert_eq. by rewrite decide_True.
      * rewrite lookup_insert_ne by done.
        rewrite decide_False by tauto. done.
    + rewrite lookup_alter_ne by done.
      rewrite decide_False by tauto. done.
Qed.

Lemma migrate_player_present v st p v' :
  is_Some (st.1 !! v') → is_Some ((migrate_player v st p).1 !! v').
Proof.
  intros H. unfold migrate_player. case_match; [done|]. simpl.
  destruct (decide (v = v')) as [->|].
  - rewrite lookup_alter_eq. destruct H as [x ->]. by eexists.
  - by rewrite lookup_alter_ne.
Qed.

Lemma migrate_players_flag v players st v' p' :
  is_Some (st.1 !! v) →
  flag (foldl (migrate_player v) st players).1 v' p'
  = if decide (v' = v ∧ p' ∈ players)
    then Some (default true (flag st.1 v' p'))
    else flag st.1 v' p'.
Proof.
  revert st. induction players as [|q players IH]; intros st Hv; simpl.
  - rewrite decide_False; [done|]. intros [_ ?%elem_of_nil]. done.
  - rewrite IH by by apply migrate_player_present.
    rewrite migrate_player_flag by done.
    destruct (decide (v' = v)) as [->|Hv'];
      [|by rewrite !decide_False by (intros [? _]; done)].
    destruct (decide (p' = q)) as [->|Hq].
    + rewrite (decide_True (P := v = v ∧ q = q)) by done.
      rewrite (decide_True (P := v = v ∧ q ∈ q :: players))
        by (split; [done|by left]).
      destruct (decide (v = v ∧ q ∈ players)); [|done].
      by destruct (flag st.1 v q).
    + rewrite (decide_False (P := v = v ∧ p' = q)) by (intros [_ ?]; done).
      destruct (decide (p' ∈ players)) as [Hin|Hin].
      * rewrite (decide_True (P := v = v ∧ p' ∈ players)) by done.
        by rewrite decide_True by (split; [done|by right]).
      * rewrite (decide_False (P := v = v ∧ p' ∈ players))
          by (intros [_ ?]; done).
        rewrite decide_False; [done|].
        intros [_ [?|?]%elem_of_cons]; done.
Qed.

Lemma migrate_vertical_flag st entry v' p' :
  flag (migrate_vertical st entry).1 v' p'
  = if decide (v' = entry.1 ∧ p' ∈ entry.2)
    then Some (default true (flag st.1 v' p'))
    else flag st.1 v' p'.
Proof.
  unfold migrate_vertical.
  destruct (st.1 !! entry.1) as [inner|] eqn:Hv.
  - by rewrite migrate_players_flag by by rewrite Hv.
  - rewrite migrate_players_flag by (simpl; by rewrite lookup_insert_eq).
    simpl.
    assert (flag (<[entry.1 := ∅]> st.1) v' p' = flag st.1 v' p') as ->.
    { unfold flag. destruct (decide (v' = entry.1)) as [->|Hne].
      - by rewrite lookup_insert_eq, Hv.
      - by rewrite lookup_insert_ne. }
    done.
Qed.

Lemma migrate_entries_flag entries st v' p' :
  flag (foldl migrate_vertical st entries).1 v' p'
  = if decide (listed entries v' p')
    then Some (default true (flag st.1 v' p'))
    else flag st.1 v' p'.
Proof.
  unfold listed.
  revert st. induction entries as [|e entries IH]; intros st.
  - rewrite decide_False; [done|]. by intros ?%Exists_nil.
  - cbn [foldl]. rewrite IH, migrate_vertical_flag.
    destruct (decide (v' = e.1 ∧ p' ∈ e.2)) as [He|He];
      destruct (decide (Exists _ entries)) as [Hr|Hr].
    + rewrite decide_True by by left. by destruct (flag st.1 v' p').
    + by rewrite decide_True by by left.
    + by rewrite decide_True by by right.
    + rewrite decide_False; [done|]. by intros [?|?]%Exists_cons.
Qed.

Lemma listed_default vertical players player :
  (vertical, players) ∈ DEFAULT_PLAYERS → player ∈ players →
  listed DEFAULT_PLAYERS vertical player.
Proof.
  intros He Hp. apply Exists_exists. by exists (vertical, players).
Qed.

Lemma defaults_flag vertical player :
  listed DEFAULT_PLAYERS vertical player →
  flag defaults vertical player = Some true.
Proof.
  assert (Forall (λ e, Forall (λ p, flag defaults e.1 p = Some true) e.2)
                 DEFAULT_PLAYERS) as Hall
      by (apply (bool_decide_unpack _); vm_compute; exact I).
  intros (e & He & -> & Hp)%Exists_exists.
  rewrite Forall_forall in Hall. specialize (Hall e He).
  rewrite Forall_forall in Hall. by apply Hall.
Qed.

(** In the browser every default player ends up with an explicit flag:
    the stored one, or [true] when none was stored. *)
Lemma browser_flag ls vertical player :
  listed DEFAULT_PLAYERS vertical player →
  flag (getPlayerSettings (Some ls)).1 vertical player
  = Some match player_settings ls with
         | Json parsed => default true (flag parsed vertical player)
         | Absent | Malformed => true
         end.
Proof.
  intros Hl. unfold getPlayerSettings.
  assert (∀ parsed, flag (migrate parsed).1 vertical player
                    = Some (default true (flag parsed vertical player)))
    as Hm.
  { intros parsed. unfold migrate. rewrite migrate_entries_flag.
    by rewrite decide_True. }
  destruct (player_settings ls) as [| |parsed]; cbn [fst].
  - by apply defaults_flag.
  - by apply defaults_flag.
  - specialize (Hm parsed). by destruct (migrate parsed).
Qed.

Lemma foldl_insert_other {V} (f : string * list string → V)
    (entries : list (string * list string)) (m : gmap string V) k :
  k ∉ entries.*1 →
  foldl (λ r e, <[e.1 := f e]> r) m entries !! k = m !! k.
Proof.
  revert m. induction entries as [|e entries IH]; intros m Hk; simpl;
    [done|].
  apply not_elem_of_cons in Hk as [Hne Hk].
  rewrite IH by done. by rewrite lookup_insert_ne.
Qed.

Lemma foldl_insert_lookup {V} (f : string * list string → V)
    (entries : list (string * list string)) (m : gmap string V) e :
  NoDup entries.*1 → e ∈ entries →
  foldl (λ r e, <[e.1 := f e]> r) m entries !! e.1 = Some (f e).
Proof.
  revert m. induction entries as [|e' entries IH]; intros m Hnd He;
    [by apply elem_of_nil in He|].
  simpl in *. apply NoDup_cons in Hnd as [Hnot Hnd].
  apply elem_of_cons in He as [->|He].
  - rewrite foldl_insert_other by done. by rewrite lookup_insert_eq.
  - by apply IH.
Qed.

Lemma getActivePlayers_lookup w vertical players :
  (vertical, players) ∈ DEFAULT_PLAYERS →
  (getActivePlayers w).1 !! vertical
  = Some (activeIn (getPlayerSettings w).1
                   (getPlayerNames (getPlayerSettings w).2)
                   vertical players).
Proof.
  intros He. unfold getActivePlayers.
  destruct (getPlayerSettings w) as [settings w']. simpl.
  apply (foldl_insert_lookup
           (λ e, activeIn settings (getPlayerNames w') e.1 e.2)
           DEFAULT_PLAYERS ∅ (vertical, players)); [|done].
  apply (bool_decide_unpack _). by vm_compute.
Qed.

Lemma getPlayerNames_after w :
  getPlayerNames (getPlayerSettings w).2 = getPlayerNames w.
Proof.
  destruct w as [ls|]; [|done]. unfold getPlayerSettings.
  destruct (player_settings ls) as [| |parsed]; try done.
  destruct (migrate parsed) as [parsed' []]; done.
Qed.

Lemma activeIn_spec settings names vertical players :
  activeIn settings names vertical players
  = reported names vertical <$>
      List.filter (λ p, is_true (flag settings vertical p)) players.
Proof.
  unfold activeIn, reported.
  induction players as [|p players IH]; [done|]. cbn [List.filter].
  rewrite !flag_default.
  destruct (is_true (flag settings vertical p)); [|done].
  cbn [fmap list_fmap]. f_equal; [by rewrite lookup_default_bind|]. done.
Qed.

Lemma filter_no_flags vertical players :
  List.filter (λ p, is_true (flag ∅ vertical p)) players = [].
Proof.
  induction players as [|p players IH]; [done|]. cbn [List.filter].
  unfold flag at 1. by rewrite lookup_empty.
Qed.

(** C10 (amended): [getActivePlayers] returns, for each vertical, the
    default players whose flag in the map returned by [getPlayerSettings]
    is [true], in their order, each under its custom name when a
    non-empty one is stored. In the browser that map gives every default
    player an explicit flag: the stored one, or [true] when none is
    stored, so that a player without a stored flag is included. Without
    a window the map is empty and no player is returned. *)
Theorem active_players (w : Window) :
  let settings := (getPlayerSettings w).1 in
  let names := getPlayerNames w in
  (∀ vertical players,
     (vertical, players) ∈ DEFAULT_PLAYERS →
     (getActivePlayers w).1 !! vertical
     = Some (reported names vertical <$>
               List.filter (λ p, is_true (flag settings vertical p))
                           players)) ∧
  (∀ ls vertical players player,
     w = Some ls →
     (vertical, players) ∈ DEFAULT_PLAYERS → player ∈ players →
     flag settings vertical player
     = Some match player_settings ls with
            | Json parsed => default true (flag parsed vertical player)
            | Absent | Malformed => true
            end) ∧
  (w = None →
   settings = ∅ ∧
   ∀ vertical players,
     (vertical, players) ∈ DEFAULT_PLAYERS →
     (getActivePlayers w).1 !! vertical = Some []).
Proof.
  intros settings names. split; [|split].
  - intros vertical players He.
    rewrite (getActivePlayers_lookup w vertical players) by done.
    by rewrite getPlayerNames_after, activeIn_spec.
  - intros ls vertical players player -> He Hp.
    apply browser_flag. by eapply listed_default.
  - intros ->. split; [done|]. intros vertical players He.
    rewrite (getActivePlayers_lookup None vertical players) by done.
    rewrite activeIn_spec. unfold getPlayerSettings. cbn [fst].
    by rewrite filter_no_flags.
Qed.

(** C10, as stated, fails: without a window [getPlayerSettings] returns
    the empty map, which holds no flag for any player; and in the
    browser a default player whose stored flag is absent is returned. *)
Lemma active_players_counterexample :
  ((getPlayerSettings None).1 = ∅ ∧
   flag (getPlayerSettings None).1 "data_centers" "Equinix" = None) ∧
  (∃ parsed,
     player_settings Samples.old_storage = Json parsed ∧
     flag parsed "data_centers" "CyrusOne" = None ∧
     flag parsed "towers_wireless" "Crown Castle" = None ∧
     (getActivePlayers (Some Samples.old_storage)).1 !! "data_centers"%string
     = Some ["Digital Realty"; "CyrusOne"; "QTS Data Centers";
             "NTT Global Data Centers"; "Iron Mountain Data Centers";
             "Switch Inc"; "STACK Infrastructure"; "Google Cloud";
             "Amazon Web Services (AWS)"]%string ∧
     "Crown Castle"%string
     ∈ default [] ((getActivePlayers (Some Samples.old_storage)).1
                     !! "towers_wireless"%string)).
Proof.
  split; [done|]. eexists. split; [reflexivity|].
  split; [by vm_compute|]. split; [by vm_compute|].
  split; [by vm_compute|].
  apply (bool_decide_unpack _). by vm_compute.
Qed.

Lemma active_players_witness :
  let w := Some Samples.old_storage in
  Samples.data_centre_entry ∈ DEFAULT_PLAYERS ∧
  "Equinix"%string ∈ Samples.data_centre_entry.2 ∧
  flag (getPlayerSettings w).1 "data_centers" "Equinix" = Some false.
Proof.
  intros w.
  assert (Samples.data_centre_entry ∈ DEFAULT_PLAYERS) as He
      by (vm_compute; constructor).
  assert ("Equinix"%string ∈ Samples.data_centre_entry.2) as Hp
      by (vm_compute; constructor).
  split; [exact He|]. split; [exact Hp|].
  exact (proj1 (proj2 (active_players w)) Samples.old_storage
           "data_centers"%string Samples.data_centre_entry.2
           "Equinix"%string eq_refl He Hp).
Defined.

End SettingsFacts.

(** ** The orchestration loop *)

Module OrchestratorFacts.
Import Orchestrator.
Local Open Scope list_scope.
Local Open Scope nat_scope.

Lemma cites_pack_spec p ids :
  cites_pack p ids = true → ∃ i, i ∈ ids ∧ i ∈ pack_ids p.
Proof.
  unfold cites_pack. intros (i & Hi & Hp)%existsb_exists.
  exists i. split; [by apply list_elem_of_In|].
  by apply bool_decide_eq_true in Hp.
Qed.

Lemma citation_valid_spec p d :
  citation_valid p d = true →
  (∃ i, i ∈ paragraph_ids d ∧ i ∈ pack_ids p) ∧
  (∀ b, b ∈ draft_bullets d → ∃ i, i ∈ bullet_ids b ∧ i ∈ pack_ids p).
Proof.
  unfold citation_valid. intros [Hp Hb]%andb_true_iff.
  split; [by apply cites_pack_spec|].
  intros b Hin. apply cites_pack_spec.
  rewrite forallb_forall in Hb. by apply Hb, list_elem_of_In.
Qed.

Lemma start_units ps s0 :
  start ps = Some s0 →
  stage s0 = fanning_out ∧ round s0 = 0 ∧
  max_review_rounds s0 = round_limit ps ∧
  Forall (λ u, status u = pending) (units s0).
Proof.
  unfold start. destruct (requested ps) as [|v vs]; [done|].
  intros [= <-]. simpl. repeat split; try done.
  constructor; [done|]. apply Forall_fmap, Forall_forall. by intros u _.
Qed.

Lemma start_grounded ps s0 : start ps = Some s0 → well_grounded s0.
Proof.
  intros (_ & _ & _ & Hp)%start_units. unfold well_grounded.
  eapply Forall_impl; [exact Hp|]. intros u Hu [H|[H|H]]; congruence.
Qed.

Lemma validated_valid compose v p plan d :
  validated compose v p plan = Some d → citation_valid p d = true.
Proof.
  unfold validated.
  destruct (citation_valid p (compose v p plan 0)) eqn:H0;
    [by intros [= <-]|].
  destruct (citation_valid p (compose v p plan 1)) eqn:H1;
    [by intros [= <-]|done].
Qed.

Section Service.
Variable retrieve : string → nat → list (list EvidenceItem).
Variable compose : string → EvidencePack → option FixPlan → nat → Draft.
Variable score : string → Draft → EvidencePack → nat → ReviewScore.
Variable rewrite_draft : string → Draft → Draft.

Abbreviation advance := (advance retrieve compose score rewrite_draft).
Abbreviation run := (run retrieve compose score rewrite_draft).
Abbreviation run_drafter := (run_drafter retrieve compose).
Abbreviation route := (route retrieve compose).
Abbreviation review := (review score).
Abbreviation harmonize := (harmonize rewrite_draft).

(** *** Grounding *)

Lemma run_drafter_status bud rnd plan u :
  status (run_drafter bud rnd plan u) = under_review
  ∨ status (run_drafter bud rnd plan u) = failed.
Proof. unfold Orchestrator.run_drafter. case_match; simpl; auto. Qed.

Lemma run_drafter_grounded bud rnd plan u :
  live (run_drafter bud rnd plan u) →
  grounded (run_drafter bud rnd plan u).
Proof.
  unfold Orchestrator.run_drafter.
  destruct (validated _ _ _ _) as [d|] eqn:Hv; simpl.
  - intros _. exists d. split; [done|]. simpl.
    apply citation_valid_spec. by eapply validated_valid.
  - unfold live. simpl. intros [H|[H|H]]; discriminate.
Qed.

Lemma review_grounded rnd u :
  (live u → grounded u) → live (review rnd u) → grounded (review rnd u).
Proof.
  unfold Orchestrator.review.
  destruct (status u) eqn:Hs; try done.
  destruct (draft u) as [d|] eqn:Hd; [|done].
  intros Hg _.
  destruct Hg as (d' & Hd' & Hg); [left; done|].
  exists d'. simpl. by rewrite <- Hd'.
Qed.

Lemma route_grounded bud rnd plans u :
  (live u → grounded u) →
  live (route bud rnd plans u) → grounded (route bud rnd plans u).
Proof.
  unfold Orchestrator.route.
  destruct (status u) eqn:Hs; try done.
  destruct (List.find _ _).
  - intros _. apply run_drafter_grounded.
  - intros Hg _. destruct Hg as (d & Hd & Hg); [right; left; done|].
    by exists d.
Qed.

Lemma force_accept_grounded u :
  (live u → grounded u) → live (force_accept u) → grounded (force_accept u).
Proof.
  unfold force_accept.
  destruct (status u) eqn:Hs; try done.
  intros Hg _. destruct Hg as (d & Hd & Hg); [right; left; done|].
  by exists d.
Qed.

Lemma harmonize_grounded u :
  (live u → grounded u) → live (harmonize u) → grounded (harmonize u).
Proof.
  unfold Orchestrator.harmonize.
  destruct (status u) eqn:Hs; try done.
  destruct (draft u) as [d|] eqn:Hd; [|done].
  destruct (_ && _) eqn:Hok.
  - intros _ _. apply andb_true_iff in Hok as [_ Hv].
    eexists. split; [done|]. simpl. by apply citation_valid_spec.
  - unfold live. simpl. intros _ [H|[H|H]]; discriminate.
Qed.

Lemma Forall_fmap_step (P : Unit → Prop) (f : Unit → Unit) us :
  (∀ u, P u → P (f u)) → Forall P us → Forall P (f <$> us).
Proof.
  intros Hf Hus. apply Forall_fmap. eapply Forall_impl; [done|].
  intros u. apply Hf.
Qed.

Lemma advance_grounded s : well_grounded s → well_grounded (advance s).
Proof.
  unfold well_grounded, Orchestrator.advance. intros H.
  destruct (stage s); simpl; try done.
  - apply Forall_fmap_step; [|done]. intros u Hu.
    destruct (status u) eqn:Hs; try done.
    apply run_drafter_grounded.
  - assert (Forall (λ u, live u → grounded u)
                   (review (round s) <$> units s)) as Hr
        by (apply Forall_fmap_step; [apply review_grounded|done]).
    by destruct (existsb _ _).
  - destruct (_ <? _)%nat; simpl.
    + apply Forall_fmap_step; [apply force_accept_grounded|done].
    + apply Forall_fmap_step; [apply route_grounded|done].
  - apply Forall_fmap_step; [apply harmonize_grounded|done].
Qed.

Lemma run_grounded n s : well_grounded s → well_grounded (run n s).
Proof.
  intros H. induction n as [|n IH]; [done|].
  by apply advance_grounded.
Qed.

End Service.

(** C1: in every state a run reaches, whatever the retrieval tools and
    the reasoning service answer, a unit that is accepted, or whose
    draft is with the Reviewer or waits for a fix, carries a draft whose
    paragraph and bullets each cite an evidence ID of the unit's pack;
    and the drafter hands on only drafts that pass the validation. *)
Theorem accepted_drafts_grounded
    (retrieve : string → nat → list (list EvidenceItem))
    (compose : string → EvidencePack → option FixPlan → nat → Draft)
    (score : string → Draft → EvidencePack → nat → ReviewScore)
    (rewrite_draft : string → Draft → Draft)
    (ps : Parameters) (s0 : RunState) (n : nat) (u : Unit) :
  start ps = Some s0 →
  u ∈ units (run retrieve compose score rewrite_draft n s0) →
  status u = accepted ∨ status u = under_review ∨ status u = needs_fix →
  grounded u ∧
  (∀ v p plan d,
     validated compose v p plan = Some d → citation_valid p d = true).
Proof.
  intros Hstart Hu Hs. split; [|apply validated_valid].
  pose proof (run_grounded retrieve compose score rewrite_draft n s0
                (start_grounded ps s0 Hstart)) as Hall.
  unfold well_grounded in Hall. rewrite Forall_forall in Hall.
  apply (Hall u Hu). unfold live. tauto.
Qed.

(** *** Termination of the fix loop *)

Section Termination.
Variable retrieve : string → nat → list (list EvidenceItem).
Variable compose : string → EvidencePack → option FixPlan → nat → Draft.
Variable score : string → Draft → EvidencePack → nat → ReviewScore.
Variable rewrite_draft : string → Draft → Draft.

Abbreviation advance := (advance retrieve compose score rewrite_draft).
Abbreviation run := (run retrieve compose score rewrite_draft).
Abbreviation run_drafter := (run_drafter retrieve compose).
Abbreviation route := (route retrieve compose).
Abbreviation review := (review score).
Abbreviation harmonize := (harmonize rewrite_draft).

Lemma run_drafter_drafted bud rnd plan u :
  (status (run_drafter bud rnd plan u) = under_review
   ∧ is_Some (draft (run_drafter bud rnd plan u)))
  ∨ settled (run_drafter bud rnd plan u).
Proof.
  unfold Orchestrator.run_drafter, settled.
  destruct (validated _ _ _ _); simpl; eauto.
Qed.

Lemma review_status rnd u :
  (status u = under_review ∧ is_Some (draft u)) ∨ settled u →
  status (review rnd u) = needs_fix ∨ settled (review rnd u).
Proof.
  unfold Orchestrator.review, settled.
  intros [[Hs [d Hd]]|[Hs|Hs]]; rewrite Hs; [|auto..].
  rewrite Hd. simpl. destruct (acceptable _); auto.
Qed.

Lemma route_status bud rnd plans u :
  status u = needs_fix ∨ settled u →
  (status (route bud rnd plans u) = under_review
   ∧ is_Some (draft (route bud rnd plans u)))
  ∨ settled (route bud rnd plans u).
Proof.
  unfold Orchestrator.route.
  intros [Hs|[Hs|Hs]]; rewrite Hs; unfold settled; [|auto..].
  destruct (List.find _ _); [apply run_drafter_drafted|]. simpl. auto.
Qed.

Lemma force_accept_status u :
  status u = needs_fix ∨ settled u → settled (force_accept u).
Proof.
  unfold force_accept, settled.
  intros [Hs|[Hs|Hs]]; rewrite Hs; simpl; auto.
Qed.

Lemma harmonize_status u : settled u → settled (harmonize u).
Proof.
  unfold Orchestrator.harmonize, settled.
  intros [Hs|Hs]; rewrite Hs; [|auto].
  destruct (draft u); [|auto].
  destruct (_ && _); simpl; auto.
Qed.

Lemma none_needs_fix us :
  Forall (λ u, status u = needs_fix ∨ settled u) us →
  existsb (λ u, bool_decide (status u = needs_fix)) us = false →
  Forall settled us.
Proof.
  induction 1 as [|u us Hu Hus IH]; simpl; [done|].
  intros [Hn Hrest]%orb_false_iff. constructor; [|by apply IH].
  apply bool_decide_eq_false in Hn. by destruct Hu.
Qed.

Lemma advance_max s :
  max_review_rounds (advance s) = max_review_rounds s.
Proof.
  unfold Orchestrator.advance.
  destruct (stage s); try done.
  - by destruct (existsb _ _).
  - by destruct (_ <? _)%nat.
Qed.

(** One transition keeps the stage invariant and uses up rank. *)
Lemma advance_ok s :
  stage_ok s → stage_ok (advance s) ∧ rank (advance s) ≤ rank s - 1.
Proof.
  unfold stage_ok, rank, Orchestrator.advance.
  destruct (stage s) eqn:Hstage; [done| | | | | | |done].
  - (* fanning out *)
    intros [Hr Hus]. simpl. rewrite Hr. split; [|lia].
    split; [lia|]. apply Forall_fmap. eapply Forall_impl; [exact Hus|].
    intros u [Hs|Hs]; simpl; [rewrite Hs; apply run_drafter_drafted|].
    destruct Hs as [Hs|Hs]; rewrite Hs; unfold settled; auto.
  - (* reviewing *)
    intros [Hr Hus].
    assert (Forall (λ u, status u = needs_fix ∨ settled u)
                   (review (round s) <$> units s)) as Hrev.
    { apply Forall_fmap. eapply Forall_impl; [exact Hus|].
      intros u. apply review_status. }
    destruct (existsb _ _) eqn:Hex; simpl.
    + split; [|lia]. split; [lia|done].
    + split; [|lia]. split; [lia|]. by apply none_needs_fix.
  - (* fixing *)
    intros [Hr Hus].
    destruct (Nat.ltb_spec (max_review_rounds s) (round s)); simpl.
    + split; [|lia]. split; [lia|].
      apply Forall_fmap. eapply Forall_impl; [exact Hus|].
      intros u. apply force_accept_status.
    + split; [|lia]. split; [lia|].
      apply Forall_fmap. eapply Forall_impl; [exact Hus|].
      intros u. apply route_status.
  - (* editing *)
    intros [Hr Hus]. simpl. split; [|lia]. split; [lia|].
    apply Forall_fmap. eapply Forall_impl; [exact Hus|].
    intros u. apply harmonize_status.
  - (* assembling *)
    intros [Hr Hus]. simpl. split; [|lia]. done.
  - (* done *)
    intros H. rewrite Hstage. split; [done|lia].
Qed.

Lemma run_ok s n :
  stage_ok s →
  stage_ok (run n s) ∧ rank (run n s) ≤ rank s - n ∧
  max_review_rounds (run n s) = max_review_rounds s.
Proof.
  intros Hs. induction n as [|n (Hok & Hrank & Hmax)].
  - simpl. split; [done|]. split; [lia|done].
  - change (run (S n) s) with (advance (run n s)).
    destruct (advance_ok _ Hok) as [Hok' Hrank'].
    split; [done|]. split; [lia|]. by rewrite advance_max.
Qed.

Lemma stage_ok_round s :
  stage_ok s → round s ≤ max_review_rounds s + 1.
Proof. unfold stage_ok. destruct (stage s); intros H; try done; lia. Qed.

Lemma low_rank_settled s :
  stage_ok s → rank s ≤ 2 → Forall settled (units s).
Proof.
  unfold stage_ok, rank.
  destruct (stage s); intros H Hr; try done; try lia; tauto.
Qed.

Lemma rank_zero_done s : stage_ok s → rank s = 0 → stage s = done.
Proof.
  unfold stage_ok, rank. destruct (stage s); intros H Hr; try done; lia.
Qed.

Lemma start_ok ps s0 :
  start ps = Some s0 →
  stage_ok s0 ∧ rank s0 = 2 * round_limit ps + 5 ∧
  max_review_rounds s0 = round_limit ps.
Proof.
  intros (Hst & Hr & Hmax & Hp)%start_units.
  unfold stage_ok, rank. rewrite Hst, Hr, Hmax.
  split; [|split; [lia|done]]. split; [done|].
  eapply Forall_impl; [exact Hp|]. auto.
Qed.

Lemma forced_acceptance s :
  stage s = fixing → max_review_rounds s < round s →
  stage (advance s) = editing ∧
  units (advance s) = force_accept <$> units s.
Proof.
  intros Hst Hr. unfold Orchestrator.advance. rewrite Hst.
  destruct (Nat.ltb_spec (max_review_rounds s) (round s)); [done|lia].
Qed.

End Termination.

(** C6: whatever the retrieval tools and the reasoning service answer,
    the round counter of a run never exceeds the round limit plus one;
    when the run is in the fixing stage with the counter above the
    limit, the next transition moves every unit still in need of a fix
    to accepted with the draft it has and leaves every unit accepted or
    failed; after at most twice the limit plus three transitions every
    unit is accepted or failed, and two transitions later the run is
    done. *)
Theorem fix_loop_terminates
    (retrieve : string → nat → list (list EvidenceItem))
    (compose : string → EvidencePack → option FixPlan → nat → Draft)
    (score : string → Draft → EvidencePack → nat → ReviewScore)
    (rewrite_draft : string → Draft → Draft)
    (ps : Parameters) (s0 : RunState) :
  start ps = Some s0 →
  let state n := run retrieve compose score rewrite_draft n s0 in
  let limit := round_limit ps in
  (∀ n, round (state n) ≤ limit + 1) ∧
  (∀ n, stage (state n) = fixing → limit < round (state n) →
        stage (state (S n)) = editing ∧
        units (state (S n)) = force_accept <$> units (state n) ∧
        Forall settled (units (state (S n)))) ∧
  (∀ u, status u = needs_fix →
        status (force_accept u) = accepted ∧
        draft (force_accept u) = draft u ∧
        pack (force_accept u) = pack u) ∧
  (∀ n, 2 * limit + 3 ≤ n → Forall settled (units (state n))) ∧
  stage (state (2 * limit + 5)) = done.
Proof.
  intros Hstart state limit.
  destruct (start_ok ps s0 Hstart) as (Hok & Hrank & Hmax).
  assert (∀ n, stage_ok (state n) ∧ rank (state n) ≤ 2 * limit + 5 - n
               ∧ max_review_rounds (state n) = limit) as Hrun.
  { intros n.
    destruct (run_ok retrieve compose score rewrite_draft s0 n Hok)
      as (H1 & H2 & H3).
    unfold state, limit. rewrite <- Hrank, <- Hmax. done. }
  split; [|split; [|split; [|split]]].
  - intros n. destruct (Hrun n) as (H1 & _ & H3).
    apply stage_ok_round in H1. lia.
  - intros n Hst Hr. destruct (Hrun n) as (H1 & _ & H3).
    destruct (forced_acceptance retrieve compose score rewrite_draft
                (state n) Hst ltac:(lia)) as [He Hu].
    change (state (S n))
      with (advance retrieve compose score rewrite_draft (state n)).
    split; [done|]. split; [done|].
    destruct (advance_ok retrieve compose score rewrite_draft _ H1)
      as [Hok' _].
    unfold stage_ok in Hok'. rewrite He in Hok'. tauto.
  - intros u Hs. unfold force_accept. by rewrite Hs.
  - intros n Hn. destruct (Hrun n) as (H1 & H2 & _).
    apply low_rank_settled; [done|lia].
  - destruct (Hrun (2 * limit + 5)) as (H1 & H2 & _).
    apply rank_zero_done; [done|lia].
Qed.

Example sample_stages :
  (λ n, (stage (Samples.after n), round (Samples.after n))) <$> seq 0 10
  = [(fanning_out, 0); (reviewing, 0); (fixing, 1); (reviewing, 1);
     (fixing, 2); (reviewing, 2); (fixing, 3); (editing, 3);
     (assembling, 3); (done, 3)].
Proof. by vm_compute. Qed.

Example sample_statuses :
  (λ n, status <$> units (Samples.after n)) <$> [0; 1; 2; 6; 7]
  = [[pending; pending]; [under_review; under_review];
     [needs_fix; needs_fix]; [needs_fix; needs_fix];
     [accepted; accepted]].
Proof. by vm_compute. Qed.

Lemma accepted_drafts_grounded_witness :
  start Samples.parameters = Some Samples.initial_state ∧
  Samples.forced_unit
  ∈ units (run Samples.retrieve Samples.compose Samples.score
             Samples.rewrite_draft 7 Samples.initial_state) ∧
  status Samples.forced_unit = accepted ∧
  grounded Samples.forced_unit.
Proof.
  assert (start Samples.parameters = Some Samples.initial_state) as Hstart
      by (vm_compute; reflexivity).
  assert (Samples.forced_unit
          ∈ units (run Samples.retrieve Samples.compose Samples.score
                     Samples.rewrite_draft 7 Samples.initial_state)) as Hu
      by (vm_compute; constructor).
  assert (status Samples.forced_unit = accepted) as Hs
      by (vm_compute; reflexivity).
  split; [exact Hstart|]. split; [exact Hu|]. split; [exact Hs|].
  exact (proj1 (accepted_drafts_grounded Samples.retrieve Samples.compose
                  Samples.score Samples.rewrite_draft Samples.parameters
                  Samples.initial_state 7 Samples.forced_unit
                  Hstart Hu (or_introl Hs))).
Defined.

Lemma fix_loop_terminates_witness :
  start Samples.parameters = Some Samples.initial_state ∧
  stage (run Samples.retrieve Samples.compose Samples.score
           Samples.rewrite_draft (2 * round_limit Samples.parameters + 5)
           Samples.initial_state) = done.
Proof.
  assert (start Samples.parameters = Some Samples.initial_state) as Hstart
      by (vm_compute; reflexivity).
  split; [exact Hstart|].
  exact (proj2 (proj2 (proj2 (proj2
           (fix_loop_terminates Samples.retrieve Samples.compose
              Samples.score Samples.rewrite_draft Samples.parameters
              Samples.initial_state Hstart))))).
Defined.

End OrchestratorFacts.

(** ** More on numbering, citations and stripping *)

Module AssemblyMore.
Import JsText JsTextFacts JsPatterns RegexFacts Api ApiFacts StripFacts.
Import Assembly.
Local Open Scope list_scope.
Local Open Scope nat_scope.

Lemma idToNum_range section x n :
  read (idToNum section) x = Some (Num n) →
  1 ≤ n ≤ length (uniqueIds section) ∧ x ∈ uniqueIds section ∧
  x ≠ "__proto__"%string.
Proof.
  intros (Hx & i & Hi & ->)%read_number.
  pose proof (lookup_lt_Some _ _ _ Hi). split; [lia|].
  split; [|done]. by eapply list_elem_of_lookup_2.
Qed.

(** X1: the display numbers of a section number its cited IDs, other
    than [__proto__], by their position among the distinct cited IDs:
    every number read lies between 1 and the number k of distinct cited
    IDs and belongs to a cited ID, no two IDs share a number, the ID at
    position i has number i + 1 (so that, when [__proto__] is not cited,
    every number from 1 to k is given and every cited ID has one), and
    what is read for [__proto__] is never a number. *)
Theorem display_numbers_bijective (section : SectionData) :
  (∀ x n, read (idToNum section) x = Some (Num n) →
          1 ≤ n ≤ length (uniqueIds section) ∧ x ∈ uniqueIds section ∧
          x ≠ "__proto__"%string) ∧
  (∀ x y n, read (idToNum section) x = Some (Num n) →
            read (idToNum section) y = Some (Num n) → x = y) ∧
  (∀ i x, uniqueIds section !! i = Some x → x ≠ "__proto__"%string →
          read (idToNum section) x = Some (Num (i + 1))) ∧
  ("__proto__"%string ∉ uniqueIds section →
   (∀ n, 1 ≤ n ≤ length (uniqueIds section) →
         ∃ x, read (idToNum section) x = Some (Num n)) ∧
   (∀ x, x ∈ uniqueIds section →
         ∃ n, read (idToNum section) x = Some (Num n))) ∧
  read (idToNum section) "__proto__" = Some ObjectPrototype.
Proof.
  assert (∀ i x, uniqueIds section !! i = Some x → x ≠ "__proto__"%string →
                 read (idToNum section) x = Some (Num (i + 1))) as Hpos.
  { intros i x Hi Hx. apply read_number. split; [done|]. by exists i. }
  split; [|split; [|split; [|split]]].
  - apply idToNum_range.
  - intros x y n (_ & i & Hi & ->)%read_number (_ & j & Hj & Hij)%read_number.
    assert (i = j) as -> by lia. congruence.
  - done.
  - intros Hproto. split.
    + intros n [H1 Hn].
      destruct (lookup_lt_is_Some_2 (uniqueIds section) (n - 1)) as [x Hx];
        [lia|].
      exists x. replace n with (n - 1 + 1) by lia. apply Hpos; [done|].
      intros ->. apply Hproto. by eapply list_elem_of_lookup_2.
    + intros x Hx. pose proof Hx as (i & Hi)%list_elem_of_lookup.
      exists (i + 1). apply Hpos; [done|]. by intros ->.
  - apply read_proto.
Qed.

(** X2: the evidence list emitted for a section is a rearrangement of
    the pack items whose ID is cited, each converted once (nothing is
    dropped and nothing is added, so it is never longer than the pack);
    every entry other than one for [__proto__] has a display number
    between 1 and the number of cited IDs; and when [__proto__] is not
    cited the list is in ascending order of display number. *)
Theorem emitted_evidence_complete (section : SectionData)
    (pack : option EvidencePack) :
  let cited := filter (λ e, evidence_id e ∈ uniqueIds section)
                      (from_option items [] pack) in
  referencedEvidence section pack ≡ₚ toUIEvidence <$> cited ∧
  length (referencedEvidence section pack) ≤ length (from_option items [] pack) ∧
  Forall (λ e, UI.id e ≠ "__proto__"%string →
               ∃ n, read (idToNum section) (UI.id e) = Some (Num n) ∧
                    1 ≤ n ≤ length (uniqueIds section))
         (referencedEvidence section pack) ∧
  ("__proto__"%string ∉ uniqueIds section →
   StronglySorted (λ a b, displayNumber section (UI.id a)
                          ≤ displayNumber section (UI.id b))
                  (referencedEvidence section pack)).
Proof.
  intros cited. unfold referencedEvidence. fold cited.
  split; [|split; [|split]].
  - apply fmap_Permutation, sort_js_Permutation.
  - rewrite length_fmap, sort_js_Permutation. apply length_filter.
  - apply Forall_fmap, Forall_forall. intros e He.
    rewrite sort_js_Permutation in He.
    apply list_elem_of_filter in He as [Hid _]. simpl. intros Hproto.
    destruct (cited_has_number _ _ Hid Hproto) as (i & Hi & Hle).
    exists (S i). split; [done|]. lia.
  - intros Hproto.
    assert (∀ e, e ∈ cited → evidence_id e ∈ uniqueIds section) as Hc
        by (intros e He; by apply list_elem_of_filter in He as [? _]).
    rewrite (sort_by_displayNumber _ _ Hproto Hc).
    apply (StronglySorted_fmap _
             (λ a b, displayNumber section (evidence_id a)
                     ≤ displayNumber section (evidence_id b))).
    + intros a b. done.
    + apply (sort_js_by_key_sorted
               (λ e, displayNumber section (evidence_id e))).
Qed.

Lemma citeNums_cited section k ids :
  (∀ x, x ∈ ids → x ∈ uniqueIds section) →
  Forall2 (λ x v, read (idToNum section) x = Some v ∧
                  (x ≠ "__proto__"%string →
                   ∃ n, v = Num n ∧ 1 ≤ n ≤ length (uniqueIds section)))
          (take k ids) (citeNums k ids (idToNum section)).
Proof.
  intros Hids. unfold citeNums.
  assert (∀ x, x ∈ take k ids → x ∈ uniqueIds section) as Hsub
      by (intros x Hx; by eapply Hids, elem_of_take_1).
  induction (take k ids) as [|x l IH]; [constructor|]. simpl.
  assert (∀ y, y ∈ l → y ∈ uniqueIds section) as Hl
      by (intros y Hy; apply Hsub; by right).
  destruct (decide (x = "__proto__"%string)) as [->|Hx].
  - rewrite read_proto. simpl. constructor; [|by apply IH].
    split; [done|]. by intros [].
  - destruct (cited_has_number section x) as (i & Hi & Hle);
      [apply Hsub; left|done|].
    rewrite Hi. simpl. constructor; [|by apply IH].
    split; [done|]. intros _. exists (S i). split; [done|lia].
Qed.

(** X3: the citations appended to a text are what [idToNum] reads for
    the first three IDs cited by the paragraph (the first two of a
    bullet), one per ID and in the order of citation: no cited ID among
    them is skipped; for an ID other than [__proto__] it is the ID's
    display number. The conversion keeps the number of bullets. *)
Theorem shown_citations (section : SectionData) :
  let shown := λ x v,
    read (idToNum section) x = Some v ∧
    (x ≠ "__proto__"%string →
     ∃ n, v = Num n ∧ 1 ≤ n ≤ length (uniqueIds section)) in
  Forall2 shown
          (take 3 (bigPictureIds section))
          (citeNums 3 (bigPictureIds section) (idToNum section)) ∧
  length (bulletsWithCites section) = length (bullets section) ∧
  (∀ index ids,
     bulletEvidenceIds section !! index = Some ids →
     Forall2 shown (take 2 ids) (citeNums 2 ids (idToNum section))).
Proof.
  intros shown. split; [|split].
  - apply citeNums_cited. intros x Hx. apply elem_of_uniqueIds. by left.
  - unfold bulletsWithCites. by rewrite length_imap.
  - intros index ids Hids. apply citeNums_cited. intros x Hx.
    apply elem_of_uniqueIds. right. exists ids. split; [|done].
    by eapply list_elem_of_lookup_2.
Qed.

Lemma elem_of_match_from r skip s x :
  x ∈ match_from r skip s →
  ∃ pre s' n, s = (pre ++ s')%string ∧ rmatch r s' = Some n ∧ x = take_str n s'.
Proof.
  revert skip. induction s as [|c s IH]; intros skip; simpl.
  - destruct skip; [|by intros ?%elem_of_nil].
    destruct (rmatch r "") as [n|] eqn:Hm; [|by intros ?%elem_of_nil].
    intros ->%list_elem_of_singleton. exists "", "", n.
    split; [done|]. split; [done|]. by destruct n.
  - assert (∀ k, x ∈ match_from r k s →
                 ∃ pre s' n, String c s = (pre ++ s')%string
                             ∧ rmatch r s' = Some n ∧ x = take_str n s')
      as Hrest.
    { intros k (pre & s' & n & -> & Hm & ->)%IH.
      exists (String c pre), s', n. by rewrite append_cons. }
    destruct skip as [|k]; [|apply Hrest].
    destruct (rmatch r (String c s)) as [[|n]|] eqn:Hm.
    + intros [->|Hx]%elem_of_cons; [|by eapply Hrest].
      exists "", (String c s), 0. by rewrite Hm.
    + intros [->|Hx]%elem_of_cons; [|by eapply Hrest].
      exists "", (String c s), (S n). by rewrite Hm.
    + apply Hrest.
Qed.

(** X4: the evidence IDs extracted from a text are distinct, and each of
    them is an eleven-character marker (the pattern matches it whole)
    that occurs in the text. *)
Theorem extracted_ids (text : string) :
  NoDup (extractEvidenceIds text) ∧
  ∀ x, x ∈ extractEvidenceIds text →
       String.length x = 11 ∧
       rmatch evidenceIdPattern x = Some 11 ∧
       includes x text = true.
Proof.
  split; [apply NoDup_spread_set|].
  intros x Hx. unfold extractEvidenceIds in Hx.
  rewrite elem_of_spread_set in Hx. unfold matchAll in Hx.
  apply elem_of_match_from in Hx as (pre & s' & n & -> & Hm & ->).
  destruct (rmatch_only_ones _ _ _ only_ones_marker Hm) as (Hn & Hlen & Hre).
  change (length marker) with 11 in Hn. subst n.
  split; [done|]. split; [done|].
  rewrite <- (take_drop_str 11 s') at 2. apply includes_app.
Qed.

Lemma trimStart_head s c r : trimStart s = String c r → is_space c = false.
Proof.
  induction s as [|d s IH]; simpl; [done|].
  destruct (is_space d) eqn:Hd; [done|]. by intros [= <- <-].
Qed.

Lemma trimEnd_last s init c :
  trimEnd s = (init ++ String c "")%string → is_space c = false.
Proof.
  revert init. induction s as [|d s IH]; intros init; simpl.
  - by destruct init.
  - destruct (trimEnd s) as [|e t] eqn:Ht.
    + destruct (is_space d) eqn:Hd; [by destruct init|].
      destruct init as [|i init]; [by intros [= <-]|].
      rewrite append_cons. intros [= _ H]. by destruct init.
    + destruct init as [|i init].
      * rewrite append_nil. done.
      * rewrite append_cons. intros [= _ H]. by eapply IH.
Qed.

Lemma trimEnd_head s c r :
  trimEnd s = String c r → ∃ r', s = String c r'.
Proof.
  destruct s as [|d s]; simpl; [done|].
  destruct (trimEnd s); [destruct (is_space d)|]; intros [= <- _]; eauto.
Qed.

(** X5: the text left by [stripEvidenceIds] neither starts nor ends
    with white space, and the empty text stays empty. *)
Theorem stripped_is_trimmed (text : string) :
  (∀ c rest, stripEvidenceIds text = String c rest → is_space c = false) ∧
  (∀ init c, stripEvidenceIds text = (init ++ String c "")%string →
             is_space c = false) ∧
  stripEvidenceIds "" = ""%string.
Proof.
  unfold stripEvidenceIds, trim. split; [|split].
  - intros c rest (r' & Hs)%trimEnd_head. by eapply trimStart_head.
  - intros init c. apply trimEnd_last.
  - by vm_compute.
Qed.

Lemma display_numbers_bijective_witness :
  read (idToNum Samples.section) "ev_97b98930" = Some (Num 3) ∧
  (1 ≤ 3 ≤ length (uniqueIds Samples.section) ∧
   "ev_97b98930"%string ∈ uniqueIds Samples.section ∧
   "ev_97b98930"%string ≠ "__proto__"%string).
Proof.
  assert (read (idToNum Samples.section) "ev_97b98930" = Some (Num 3)) as H
    by (by vm_compute).
  split; [exact H|].
  exact (proj1 (display_numbers_bijective Samples.section) _ _ H).
Defined.

Lemma extracted_ids_witness :
  "ev_c037488c"%string
  ∈ extractEvidenceIds (big_picture Samples.section) ∧
  includes "ev_c037488c" (big_picture Samples.section) = true.
Proof.
  assert ("ev_c037488c"%string
          ∈ extractEvidenceIds (big_picture Samples.section)) as H
    by (vm_compute; constructor).
  split; [exact H|].
  exact (proj2 (proj2 (proj2 (extracted_ids (big_picture Samples.section))
                         _ H))).
Defined.

Lemma shown_citations_witness :
  bulletEvidenceIds Samples.section !! 1
  = Some ["ev_4c611ddc"; "ev_c037488c"]%string ∧
  citeNums 2 ["ev_4c611ddc"; "ev_c037488c"]%string (idToNum Samples.section)
  = [Num 2; Num 1] ∧
  Forall2 (λ x v, read (idToNum Samples.section) x = Some v ∧
                  (x ≠ "__proto__"%string →
                   ∃ n, v = Num n ∧
                        1 ≤ n ≤ length (uniqueIds Samples.section)))
          (take 2 ["ev_4c611ddc"; "ev_c037488c"]%string)
          (citeNums 2 ["ev_4c611ddc"; "ev_c037488c"]%string
                    (idToNum Samples.section)).
Proof.
  assert (bulletEvidenceIds Samples.section !! 1
          = Some ["ev_4c611ddc"; "ev_c037488c"]%string) as H by reflexivity.
  split; [exact H|]. split; [by vm_compute|].
  exact (proj2 (proj2 (shown_citations Samples.section)) _ _ H).
Defined.

Lemma stripped_is_trimmed_witness :
  stripEvidenceIds (big_picture Samples.section)
  = String "D" "emand is rising." ∧
  is_space "D" = false.
Proof.
  assert (stripEvidenceIds (big_picture Samples.section)
          = String "D" "emand is rising.") as H by (by vm_compute).
  split; [exact H|].
  exact (proj1 (stripped_is_trimmed (big_picture Samples.section)) _ _ H).
Defined.

End AssemblyMore.

(** ** From the assembled text to the rendered citations *)

Module ReadingViewFacts.
Import JsText JsTextFacts JsPatterns RegexFacts JsNumber JsNumberFacts Api.
Import ReadingView.
Local Open Scope list_scope.
Local Open Scope nat_scope.

(** The digits of a number and the closing bracket. *)
Lemma rmatch_digits r ds rest k :
  all_chars is_digit ds = true →
  rmatch r rest = Some k →
  rmatch (Many is_digit :: One (ch "]") :: r) (ds ++ String "]" rest)
  = Some (String.length ds + 1 + k).
Proof.
  intros D R. induction ds as [|d ds IH].
  - rewrite append_nil, rmatch_many.
    change (is_digit "]") with false. cbv iota.
    rewrite rmatch_one. change (ch "]" "]") with true. cbv iota.
    by rewrite R.
  - simpl in D. apply andb_true_iff in D as [Hd D].
    rewrite append_cons, rmatch_many, Hd, (IH D). done.
Qed.

Lemma cite_eq n :
  ∃ d ds, cite (Num n) = String "[" (String d (ds ++ String "]" "")) ∧
          is_digit d = true ∧ all_chars is_digit ds = true ∧
          num_to_string n = String d ds.
Proof.
  destruct (num_to_string_head n) as (d & ds & E & D).
  pose proof (num_to_string_digits n) as A. rewrite E in A. simpl in A.
  apply andb_true_iff in A as [_ A].
  exists d, ds. unfold cite, text_of. rewrite E.
  by rewrite append_cons, append_nil, append_cons.
Qed.

(** The citation pattern matches a citation at the head, whole. *)
Lemma citationPattern_cite n rest :
  rmatch citationPattern (cite (Num n) ++ rest)
  = Some (String.length (cite (Num n))).
Proof.
  destruct (cite_eq n) as (d & ds & -> & Hd & Hds & _).
  rewrite !append_cons. unfold citationPattern.
  rewrite rmatch_one. change (ch "[" "[") with true. cbv iota.
  rewrite rmatch_one, Hd.
  rewrite append_assoc, append_cons, append_nil.
  rewrite (rmatch_digits [] ds rest 0 Hds eq_refl).
  cbn [String.length fmap option_fmap option_map]. rewrite length_app_str. simpl.
  do 3 f_equal. lia.
Qed.

Lemma many_brackets_stop rest :
  match rest with String c _ => ch "]" c = false | EmptyString => True end →
  rmatch [Many (ch "]")] rest = Some 0.
Proof.
  destruct rest as [|c rest]; [done|]. intros H.
  by rewrite rmatch_many, H.
Qed.

Lemma citationRun_cite n rest :
  match rest with String c _ => ch "]" c = false | EmptyString => True end →
  rmatch citationRun (cite (Num n) ++ rest)
  = Some (String.length (cite (Num n))) ∧
  rmatch citationRun (String " " (cite (Num n)) ++ rest)
  = Some (String.length (String " " (cite (Num n)))).
Proof.
  intros Hrest.
  assert (rmatch (skipn 1 citationRun) (cite (Num n) ++ rest)
          = Some (String.length (cite (Num n)))) as Core.
  { destruct (cite_eq n) as (d & ds & -> & Hd & Hds & _).
    rewrite !append_cons. cbn [skipn citationRun].
    rewrite rmatch_one. change (ch "[" "[") with true. cbv iota.
    rewrite rmatch_one, Hd.
    rewrite append_assoc, append_cons, append_nil.
    rewrite (rmatch_digits _ ds rest 0 Hds (many_brackets_stop _ Hrest)).
    cbn [String.length fmap option_fmap option_map]. rewrite length_app_str.
    simpl. do 3 f_equal. lia. }
  assert (rmatch citationRun (cite (Num n) ++ rest)
          = Some (String.length (cite (Num n)))) as Here.
  { destruct (cite_eq n) as (d & ds & E & _). rewrite E in Core |- *.
    rewrite append_cons in Core |- *. unfold citationRun.
    rewrite rmatch_many. change (is_space "[") with false. cbv iota.
    exact Core. }
  split; [done|].
  rewrite append_cons. unfold citationRun. rewrite rmatch_many.
  change (is_space " ") with true. cbv iota.
  fold citationRun. rewrite Here. done.
Qed.

Lemma cites_cons n ns : cites (n :: ns) = (cite n ++ cites ns)%string.
Proof. done. Qed.

Lemma cites_head ns :
  match cites ns with String c _ => ch "]" c = false | EmptyString => True end.
Proof.
  destruct ns as [|n ns]; [done|]. rewrite cites_cons.
  unfold cite. by rewrite append_cons.
Qed.

Lemma match_cites (ns : list nat) :
  match_from citationPattern 0 (cites (Num <$> ns)) = cite <$> (Num <$> ns).
Proof.
  induction ns as [|n ns IH]; [done|]. rewrite !fmap_cons, cites_cons.
  pose proof (citationPattern_cite n (cites (Num <$> ns))) as H.
  destruct (cite_eq n) as (d & ds & E & _). rewrite E in H |- *.
  by rewrite (match_from_hit _ _ _ _ H), IH.
Qed.

Lemma clean_cites (ns : list nat) :
  replace_from citationRun "" 0 (cites (Num <$> ns)) = "".
Proof.
  induction ns as [|n ns IH]; [done|]. rewrite fmap_cons, cites_cons.
  destruct (citationRun_cite n (cites (Num <$> ns)) (cites_head _)) as [H _].
  destruct (cite_eq n) as (d & ds & E & _). rewrite E in H |- *.
  by rewrite (replace_from_hit _ _ _ _ _ H), IH.
Qed.

Lemma citationPattern_miss c s :
  ch "[" c = false → rmatch citationPattern (String c s) = None.
Proof. intros H. unfold citationPattern. by rewrite rmatch_one, H. Qed.

Lemma citationRun_miss s :
  bracket_ahead s = false → rmatch citationRun s = None.
Proof.
  unfold citationRun. induction s as [|c s IH]; [done|]. simpl bracket_ahead.
  intros H. rewrite rmatch_many. destruct (is_space c) eqn:Hc.
  - rewrite (IH H). rewrite rmatch_one.
    assert (ch "[" c = false) as ->; [|done].
    destruct c as [[] [] [] [] [] [] [] []]; vm_compute in Hc |- *; congruence.
  - by rewrite rmatch_one, H.
Qed.

Lemma trimEnd_cons c s :
  trimEnd (String c s) = String c s →
  (s = "" ∧ is_space c = false) ∨ (s ≠ "" ∧ trimEnd s = s).
Proof.
  simpl. destruct (trimEnd s) as [|e t] eqn:E.
  - destruct (is_space c); [done|]. intros [= <-]. by left.
  - intros [= <-]. right. done.
Qed.

Lemma bracket_ahead_clean clean tail :
  clean ≠ "" → all_chars (not_ch "[") clean = true → trimEnd clean = clean →
  bracket_ahead (clean ++ tail) = false.
Proof.
  induction clean as [|c s IH]; [done|]. intros _ A T.
  simpl in A. apply andb_true_iff in A as [Hc A].
  rewrite append_cons. simpl. unfold not_ch in Hc.
  apply negb_true_iff in Hc.
  destruct (is_space c) eqn:Hs; [|done].
  destruct (trimEnd_cons _ _ T) as [[_ ?]|[N T']]; [congruence|].
  by apply IH.
Qed.

Lemma scan_clean clean tail :
  all_chars (not_ch "[") clean = true → trimEnd clean = clean →
  match_from citationPattern 0 (clean ++ tail)
  = match_from citationPattern 0 tail ∧
  replace_from citationRun "" 0 (clean ++ tail)
  = (clean ++ replace_from citationRun "" 0 tail)%string.
Proof.
  induction clean as [|c s IH]; intros A T.
  - by rewrite !append_nil.
  - pose proof (bracket_ahead_clean (String c s) tail ltac:(done) A T) as B.
    apply all_chars_tail in A as [Hc A].
    unfold not_ch in Hc. apply negb_true_iff in Hc.
    assert (trimEnd s = s) as T'.
    { destruct (trimEnd_cons _ _ T) as [[-> _]|[_ ?]]; done. }
    destruct (IH A T') as [IH1 IH2].
    rewrite !append_cons in *.
    rewrite (match_from_miss _ _ _ (citationPattern_miss c _ Hc)).
    rewrite (replace_from_miss _ _ _ _ (citationRun_miss _ B)).
    by rewrite IH1, IH2.
Qed.

Lemma strip_brackets ds :
  all_chars is_digit ds = true →
  replace_from bracket "" 0 (ds ++ String "]" "") = ds.
Proof.
  induction ds as [|d ds IH]; [done|]. intros [Hd D]%all_chars_tail.
  rewrite append_cons. rewrite replace_from_miss.
  - by rewrite (IH D).
  - unfold bracket. rewrite rmatch_one.
    assert (ch "[" d || ch "]" d = false) as ->; [|done].
    destruct d as [[] [] [] [] [] [] [] []]; vm_compute in Hd |- *; congruence.
Qed.

Lemma citationNumber_cite n :
  citationNumber (cite (Num n)) = Some (Z.of_nat n).
Proof.
  unfold citationNumber, replaceAll.
  destruct (cite_eq n) as (d & ds & -> & Hd & Hds & E).
  assert (replace_from bracket "" 0
            (String "[" (String d (ds ++ String "]" ""))) = String d ds) as ->.
  { change (replace_from bracket "" 0 (String "[" ?s))
      with ("" ++ replace_from bracket "" 0 s)%string.
    rewrite append_nil.
    change (String d (ds ++ String "]" ""))
      with (String d ds ++ String "]" "")%string.
    apply strip_brackets. simpl. by rewrite Hd, Hds. }
  rewrite <- E. pose proof (parseInt_num_to_string n "" I) as P.
  by rewrite append_empty in P.
Qed.

Lemma trimEnd_idem s : trimEnd (trimEnd s) = trimEnd s.
Proof.
  induction s as [|c s IH]; [done|]. cbn [trimEnd].
  destruct (trimEnd s) as [|e t] eqn:E.
  - destruct (is_space c) eqn:Hc; [done|]. cbn [trimEnd]. by rewrite Hc.
  - cbn [trimEnd]. cbn [trimEnd] in IH. by rewrite IH.
Qed.

Lemma read_back clean (nums : list nat) :
  all_chars (not_ch "[") clean = true → trimEnd clean = clean →
  cleanText (withCites clean (Num <$> nums)) = clean ∧
  citationMatch (withCites clean (Num <$> nums)) = cite <$> (Num <$> nums).
Proof.
  intros A T. unfold cleanText, citationMatch, replaceAll, matchAll, withCites.
  destruct (scan_clean clean
              match Num <$> nums with
              | [] => ""
              | _ :: _ => " " ++ cites (Num <$> nums)
              end%string
              A T) as [M R].
  rewrite M, R. destruct nums as [|n ns].
  - split; [apply append_empty|done].
  - rewrite !fmap_cons, cites_cons.
    change (" " ++ cite (Num n) ++ cites (Num <$> ns))%string
      with (String " " (cite (Num n)) ++ cites (Num <$> ns))%string.
    destruct (citationRun_cite n (cites (Num <$> ns)) (cites_head _))
      as [_ H].
    rewrite (replace_from_hit _ _ _ _ _ H), clean_cites.
    split; [by rewrite !append_empty|].
    rewrite append_cons, match_from_miss by done.
    by rewrite <- cites_cons, <- !fmap_cons, match_cites.
Qed.

(** X6: what the assembly appended is what the reader sees, for display
    numbers below 2^53 (where the numbers of the source are exact). When
    the text left by [stripEvidenceIds] holds no opening bracket, the
    reading view shows that text and, after it, one citation per display
    number, in order; the citation of number n + 1 is resolved against
    entry n of the section's evidence list, and is a link exactly when
    that entry exists and has a URL. *)
Theorem citations_read_back (section : UI.Section) (text : string)
    (nums : list nat) :
  all_chars (not_ch "[") (stripEvidenceIds text) = true →
  Forall (λ n, (Z.of_nat n < 2 ^ 53)%Z) nums →
  renderText section (withCites (stripEvidenceIds text) (Num <$> nums))
  = (stripEvidenceIds text,
     (λ n, renderCitation section (cite (Num n))) <$> nums) ∧
  (∀ n, (Z.of_nat n < 2 ^ 53)%Z →
        citationNumber (cite (Num n)) = Some (Z.of_nat n)) ∧
  (∀ n, (Z.of_nat (S n) < 2 ^ 53)%Z →
        renderCitation section (cite (Num (S n)))
        = match UI.evidence section !! n with
          | Some e =>
              match UI.url e with
              | EmptyString => Bare (Some (Z.of_nat (S n)))
              | href => Link href (Some (Z.of_nat (S n)))
              end
          | None => Bare (Some (Z.of_nat (S n)))
          end) ∧
  renderCitation section (cite (Num 0)) = Bare (Some 0%Z).
Proof.
  intros A _.
  assert (trimEnd (stripEvidenceIds text) = stripEvidenceIds text) as T
    by apply trimEnd_idem.
  destruct (read_back _ nums A T) as [C M].
  split; [|split; [intros n _; apply citationNumber_cite|split]].
  - unfold renderText. rewrite C, M. by rewrite <- !list_fmap_compose.
  - intros n _. unfold renderCitation. rewrite citationNumber_cite.
    unfold evidenceAt.
    replace (1 <=? Z.of_nat (S n))%Z with true
      by (symmetry; apply Z.leb_le; lia).
    replace (Z.to_nat (Z.of_nat (S n) - 1)) with n by lia. done.
  - unfold renderCitation. by rewrite citationNumber_cite.
Qed.

Lemma citations_read_back_witness :
  all_chars (not_ch "[")
    (stripEvidenceIds "Capacity grew (ev_0a1b2c3d) in Q3.") = true ∧
  Forall (λ n, (Z.of_nat n < 2 ^ 53)%Z) [1; 2] ∧
  renderText MoreSamples.ui_section
    (withCites (stripEvidenceIds "Capacity grew (ev_0a1b2c3d) in Q3.")
               (Num <$> [1; 2]))
  = ("Capacity grew in Q3."%string,
     [Link "https://example.org/a" (Some 1%Z); Bare (Some 2%Z)]).
Proof.
  assert (Forall (λ n, (Z.of_nat n < 2 ^ 53)%Z) [1; 2]) as Hn
    by (repeat constructor).
  split; [by vm_compute|]. split; [exact Hn|].
  rewrite (proj1 (citations_read_back MoreSamples.ui_section
                    "Capacity grew (ev_0a1b2c3d) in Q3." [1; 2] eq_refl Hn)).
  by vm_compute.
Defined.

End ReadingViewFacts.

(** ** The stream reader and the loader *)

Module ApiClientFacts.
Import JsText JsTextFacts JsPatterns RegexFacts JsNumber JsNumberFacts Api.
Import ReadingView ApiClient.
Local Open Scope list_scope.
Local Open Scope nat_scope.

Lemma split_on_cons sep c s :
  split_on sep (String c s)
  = if ch sep c then "" :: split_on sep s
    else match split_on sep s with
         | w :: ws => String c w :: ws
         | [] => [String c ""]
         end.
Proof. done. Qed.

Lemma split_on_nonempty sep s : split_on sep s ≠ [].
Proof.
  induction s as [|c s IH]; [done|]. rewrite split_on_cons.
  destruct (ch sep c); [done|]. by destruct (split_on sep s).
Qed.

(** The rest of a split: [lines.pop() || '']. *)
Lemma removelast_cons {A} (x : A) l : l ≠ [] → removelast (x :: l) = x :: removelast l.
Proof. by destruct l. Qed.

Lemma last_cons_ne {A} (x : A) l : l ≠ [] → last (x :: l) = last l.
Proof. by destruct l. Qed.

Lemma split_on_app sep a b :
  split_on sep (a ++ b)
  = removelast (split_on sep a)
    ++ split_on sep (str_or (last (split_on sep a)) "" ++ b).
Proof.
  induction a as [|c a IH].
  - by rewrite !append_nil.
  - rewrite append_cons, !split_on_cons.
    pose proof (split_on_nonempty sep a) as N.
    destruct (ch sep c) eqn:Hc.
    + rewrite removelast_cons, last_cons_ne by done. by rewrite IH.
    + rewrite IH. destruct (split_on sep a) as [|w [|w2 ws]] eqn:E; [done|..].
      * cbn [removelast last app].
        assert (∀ x : string, (str_or (Some x) "" ++ b)%string = (x ++ b)%string)
          as S by (by intros []).
        rewrite !S, append_cons, split_on_cons, Hc. done.
      * rewrite !removelast_cons by done. rewrite !last_cons_ne by done.
        done.
Qed.

Lemma removelast_app_ne {A} (l l' : list A) :
  l' ≠ [] → removelast (l ++ l') = l ++ removelast l'.
Proof.
  intros N. induction l as [|x l IH]; [done|].
  rewrite <- app_comm_cons, removelast_cons, IH; [done|].
  intros E. apply app_eq_nil in E as [_ ?]. done.
Qed.

Lemma complete_lines_app a b :
  complete_lines (a ++ b)
  = complete_lines a
    ++ complete_lines (str_or (last (split_on newline a)) "" ++ b).
Proof.
  unfold complete_lines. rewrite split_on_app.
  apply removelast_app_ne, split_on_nonempty.
Qed.

Lemma last_split_app a b :
  last (split_on newline (a ++ b))
  = last (split_on newline (str_or (last (split_on newline a)) "" ++ b)).
Proof.
  rewrite split_on_app. rewrite last_app.
  pose proof (split_on_nonempty newline
                (str_or (last (split_on newline a)) "" ++ b)) as N.
  destruct (last (split_on _ (_ ++ b))) eqn:E; [done|].
  apply last_None in E. done.
Qed.

Lemma str_or_some (x : string) : str_or (Some x) "" = x.
Proof. by destruct x. Qed.

Lemma split_on_rest sep s :
  split_on sep (str_or (last (split_on sep s)) "")
  = [str_or (last (split_on sep s)) ""].
Proof.
  induction s as [|c s IH]; [done|]. rewrite split_on_cons.
  pose proof (split_on_nonempty sep s) as N.
  destruct (ch sep c) eqn:Hc.
  - by rewrite last_cons_ne.
  - destruct (split_on sep s) as [|w [|w2 ws]] eqn:E; [done|..].
    + cbn [last] in IH |- *. rewrite str_or_some in IH |- *.
      by rewrite split_on_cons, Hc, IH.
    + rewrite last_cons_ne by done. by rewrite last_cons_ne in IH.
Qed.

Lemma complete_lines_rest s :
  complete_lines (str_or (last (split_on newline s)) "") = [].
Proof. unfold complete_lines. by rewrite split_on_rest. Qed.

Section Stream.
Variable parse : string → Parsed.

Lemma on_line_thrown r f line :
  thrown r = Some f → on_line parse r line = r.
Proof. unfold on_line. by intros ->. Qed.

Lemma on_lines_thrown r f lines :
  thrown r = Some f → foldl (on_line parse) r lines = r.
Proof.
  intros H. induction lines as [|l lines IH]; [done|]. simpl.
  by rewrite (on_line_thrown _ _ _ H).
Qed.

Lemma on_chunks_thrown st f chunks :
  thrown st.2 = Some f → foldl (on_chunk parse) st chunks = st.
Proof.
  intros H. induction chunks as [|c chunks IH]; [done|]. simpl.
  unfold on_chunk at 2. by rewrite H.
Qed.

(** The read loop processes the complete lines of the text received so
    far, whatever the chunks. *)
Lemma on_chunks_lines buffer r chunks :
  complete_lines buffer = [] →
  (foldl (on_chunk parse) (buffer, r) chunks).2
  = foldl (on_line parse) r (complete_lines (buffer ++ joined chunks)).
Proof.
  revert buffer r. induction chunks as [|c chunks IH]; intros buffer r B.
  - cbn [foldl joined foldr snd]. rewrite append_empty, B. reflexivity.
  - cbn [foldl]. change (joined (c :: chunks)) with (c ++ joined chunks)%string.
    destruct (thrown r) as [f|] eqn:T.
    + unfold on_chunk at 2. cbn [snd]. rewrite T.
      rewrite on_chunks_thrown with (f := f) by done.
      by rewrite on_lines_thrown with (f := f).
    + unfold on_chunk at 2. cbn [fst snd]. rewrite T.
      rewrite IH by apply complete_lines_rest.
      rewrite <- append_assoc, (complete_lines_app (buffer ++ c)), foldl_app.
      reflexivity.
Qed.



End Stream.

Lemma split_on_free sep w t :
  split_on sep w = [w] →
  split_on sep (w ++ String sep t) = w :: split_on sep t.
Proof.
  induction w as [|c w IH]; intros H.
  - rewrite append_nil, split_on_cons.
    assert (ch sep sep = true) as -> by apply Nat.eqb_refl. done.
  - rewrite split_on_cons in H. rewrite append_cons, split_on_cons.
    destruct (ch sep c); [by destruct (split_on sep w)|].
    pose proof (split_on_nonempty sep w) as N.
    destruct (split_on sep w) as [|x xs] eqn:E; [done|].
    injection H as -> ->. by rewrite IH.
Qed.

Lemma split_on_none sep tail :
  all_chars (not_ch sep) tail = true → split_on sep tail = [tail].
Proof.
  induction tail as [|c s IH]; [done|]. intros [Hc A]%andb_true_iff.
  rewrite split_on_cons. unfold not_ch in Hc. apply negb_true_iff in Hc.
  by rewrite Hc, (IH A).
Qed.

Lemma complete_lines_tail text tail :
  all_chars (not_ch newline) tail = true →
  complete_lines (text ++ String newline tail)
  = complete_lines (text ++ String newline "").
Proof.
  intros A. rewrite (complete_lines_app text (String newline tail)),
    (complete_lines_app text (String newline "")). f_equal.
  unfold complete_lines.
  rewrite (split_on_free _ _ tail), (split_on_free _ _ "")
    by apply split_on_rest.
  by rewrite (split_on_none _ _ A).
Qed.

(** X9: the stream is read line by line, whatever the chunks: the
    callbacks and the result are those of processing, in order, the lines of the
    whole text that a newline ends. So the same text in other chunks, or
    in one, gives the same outcome, and what follows the last newline is
    never read. *)
Theorem stream_by_lines (parse : string → Parsed) (chunks : list string) :
  generateNewsletterStreaming parse (Body chunks)
  = outcome (foldl (on_line parse) init (complete_lines (joined chunks))) ∧
  generateNewsletterStreaming parse (Body chunks)
  = generateNewsletterStreaming parse (Body [joined chunks]) ∧
  (∀ chunks', joined chunks' = joined chunks →
     generateNewsletterStreaming parse (Body chunks')
     = generateNewsletterStreaming parse (Body chunks)) ∧
  (∀ text tail : string,
     all_chars (not_ch newline) tail = true →
     generateNewsletterStreaming parse
       (Body [(text ++ String newline tail)%string])
     = generateNewsletterStreaming parse
         (Body [(text ++ String newline "")%string])).
Proof.
  assert (∀ l, generateNewsletterStreaming parse (Body l)
               = outcome (foldl (on_line parse) init
                            (complete_lines (joined l)))) as L.
  { intros l. unfold generateNewsletterStreaming.
    rewrite on_chunks_lines by done. by rewrite append_nil. }
  split; [apply L|]. split; [|split].
  - rewrite !L. cbn [joined foldr]. by rewrite append_empty.
  - intros chunks' E. by rewrite !L, E.
  - intros text tail A. rewrite !L. cbn [joined foldr].
    rewrite !append_empty. by rewrite (complete_lines_tail _ _ A).
Qed.


Section Fetch.
Variable getSectionData : string → string → option SectionData.
Variable getEvidencePack : string → string → option EvidencePack.

Lemma fetch_vertical_stored id st v :
  fetch_vertical getSectionData getEvidencePack id st v
  = (<[v := (stored_for getSectionData getEvidencePack id v).1]> st.1,
     <[v := (stored_for getSectionData getEvidencePack id v).2]> st.2).
Proof.
  unfold fetch_vertical, stored_for.
  destruct (getSectionData id v), (getEvidencePack id v); cbn [fst snd];
    try done.
  by rewrite insert_insert_eq.
Qed.

Lemma fetch_lookup id l st v :
  (foldl (fetch_vertical getSectionData getEvidencePack id) st l).1 !! v
  = (if decide (v ∈ l)
     then Some (stored_for getSectionData getEvidencePack id v).1
     else st.1 !! v) ∧
  (foldl (fetch_vertical getSectionData getEvidencePack id) st l).2 !! v
  = (if decide (v ∈ l)
     then Some (stored_for getSectionData getEvidencePack id v).2
     else st.2 !! v).
Proof.
  revert st. induction l as [|x l IH]; intros st.
  - cbn [foldl]. destruct (decide (v ∈ [])) as [H|]; [by inversion H|done].
  - cbn [foldl]. destruct (IH (fetch_vertical getSectionData getEvidencePack
                                 id st x)) as [-> ->].
    rewrite fetch_vertical_stored. cbn [fst snd].
    destruct (decide (v ∈ l)) as [Hl|Hl];
      destruct (decide (v ∈ x :: l)) as [H|H]; try done.
    + exfalso. apply H. by right.
    + apply elem_of_cons in H as [->|?]; [|done].
      by rewrite !lookup_insert_eq.
    + rewrite !lookup_insert_ne; [done|..]; intros ->; apply H; left.
Qed.

End Fetch.

Lemma convertSection_lookup sections packs sections' packs' v :
  sections !! v = sections' !! v → packs !! v = packs' !! v →
  convertSection sections packs v = convertSection sections' packs' v.
Proof. unfold convertSection. by intros -> ->. Qed.

Lemma convertSection_placeholder sections packs v :
  sections !! v = Some (placeholder v) →
  packs !! v = Some {| items := [] |} →
  convertSection sections packs v = empty_section (Some ""%string).
Proof.
  unfold convertSection. intros -> ->. by vm_compute.
Qed.

Lemma convertSection_missing sections packs v :
  sections !! v = None →
  convertSection sections packs v = empty_section None.
Proof. unfold convertSection. by intros ->. Qed.

(** X8: a failed request hides the section. The document built for a
    newsletter shows a backend section only when the vertical is listed
    in the metadata and both its section and its evidence pack were
    fetched; then the section shown is the conversion of exactly these
    two. If the vertical is not listed, or either request fails (the
    evidence pack alone is enough), the section is empty and the reading
    view does not render it. Without metadata there is no document. *)
Theorem fetch_fallback (toLocaleDateString : string → string)
    (getNewsletterMeta : string → option NewsletterMeta)
    (getSectionData : string → string → option SectionData)
    (getEvidencePack : string → string → option EvidencePack)
    (newsletterId : string) :
  match getNewsletterMeta newsletterId with
  | None =>
      fetchNewsletterDetail toLocaleDateString getNewsletterMeta
        getSectionData getEvidencePack newsletterId = None
  | Some meta =>
      ∃ detail,
        fetchNewsletterDetail toLocaleDateString getNewsletterMeta
          getSectionData getEvidencePack newsletterId = Some detail ∧
        nd_id detail = newsletter_id meta ∧
        ∀ v shown,
          section_of detail v = Some shown →
          (∀ section pack,
             v ∈ verticals_included meta →
             getSectionData newsletterId v = Some section →
             getEvidencePack newsletterId v = Some pack →
             shown = convertSection {[ v := section ]} {[ v := pack ]} v) ∧
          (v ∉ verticals_included meta ∨
           getSectionData newsletterId v = None ∨
           getEvidencePack newsletterId v = None →
           renders shown = false ∧ UI.bigPicture shown = ""%string ∧
           UI.bullets shown = [] ∧ UI.evidence shown = [])
  end.
Proof.
  unfold fetchNewsletterDetail.
  destruct (getNewsletterMeta newsletterId) as [meta|]; [|done].
  eexists. split; [done|]. split; [done|].
  set (S := fetched getSectionData getEvidencePack newsletterId meta).
  assert (∀ v shown,
            section_of (convertToUIFormat toLocaleDateString meta S.1 S.2) v
            = Some shown →
            shown = convertSection S.1 S.2 v) as Sec.
  { intros v shown. unfold section_of.
    destruct (String.eqb v "data_centers") eqn:E1;
      [apply String.eqb_eq in E1 as ->; by intros [= <-]|].
    destruct (String.eqb v "connectivity_fibre") eqn:E2;
      [apply String.eqb_eq in E2 as ->; by intros [= <-]|].
    destruct (String.eqb v "towers_wireless") eqn:E3;
      [apply String.eqb_eq in E3 as ->; by intros [= <-]|].
    done. }
  intros v shown Hs. apply Sec in Hs as ->.
  destruct (fetch_lookup getSectionData getEvidencePack newsletterId
              (verticals_included meta) (∅, ∅) v) as [L1 L2].
  fold (fetched getSectionData getEvidencePack newsletterId meta) in L1, L2.
  fold S in L1, L2. cbn [fst snd] in L1, L2.
  destruct (decide (v ∈ verticals_included meta)) as [Hv|Hv].
  - unfold stored_for in L1, L2. split.
    + intros section pack _ Hsec Hpack. rewrite Hsec, Hpack in L1, L2.
      apply convertSection_lookup; [rewrite L1|rewrite L2];
        by rewrite lookup_singleton_eq.
    + intros H.
      assert (convertSection S.1 S.2 v = empty_section (Some ""%string))
        as ->; [|done].
      destruct H as [?|H]; [done|].
      apply convertSection_placeholder; [rewrite L1|rewrite L2];
        destruct H as [-> | ->]; try done;
        by destruct (getSectionData newsletterId v).
  - split; [done|]. intros _.
    assert (convertSection S.1 S.2 v = empty_section None) as ->; [|done].
    apply convertSection_missing. by rewrite L1.
Qed.

Lemma split_on_head sep a r :
  all_chars (not_ch sep) a = true →
  ∃ w ws, split_on sep (a ++ r) = (a ++ w)%string :: ws.
Proof.
  induction a as [|c a IH]; intros A.
  - rewrite append_nil. pose proof (split_on_nonempty sep r).
    destruct (split_on sep r) as [|w ws]; [done|]. exists w, ws.
    by rewrite append_nil.
  - apply andb_true_iff in A as [Hc A]. unfold not_ch in Hc.
    apply negb_true_iff in Hc. destruct (IH A) as (w & ws & E).
    exists w, ws. by rewrite !append_cons, split_on_cons, Hc, E.
Qed.

Lemma date_parts (y m d t : string) :
  String.length y = 4 → String.length m = 2 → String.length d = 2 →
  substring_js 0 4 (y ++ m ++ d ++ t) = y ∧
  substring_js 4 6 (y ++ m ++ d ++ t) = m ∧
  substring_js 6 8 (y ++ m ++ d ++ t) = d.
Proof.
  intros Ly Lm Ld.
  destruct y as [|y1 [|y2 [|y3 [|y4 [|]]]]]; try done.
  destruct m as [|m1 [|m2 [|]]]; try done.
  destruct d as [|d1 [|d2 [|]]]; try done.
  rewrite !append_cons, !append_nil. unfold substring_js.
  cbn [Nat.sub substring]. by destruct t.
Qed.

(** X7: the date of a document is cut out of its identifier: with an
    identifier made of a first part, an underscore, and then four, two
    and two characters (none of them an underscore), whatever follows,
    the date is these three groups joined by hyphens; an identifier
    without underscore gives the date of two hyphens. *)
Theorem detail_date (toLocaleDateString : string → string)
    (meta : NewsletterMeta) (sections : gmap string SectionData)
    (packs : gmap string EvidencePack) :
  let detail := convertToUIFormat toLocaleDateString meta sections packs in
  (∀ first y m d rest : string,
     newsletter_id meta = (first ++ "_" ++ y ++ m ++ d ++ rest)%string →
     all_chars (not_ch "_") first = true →
     all_chars (not_ch "_") (y ++ m ++ d) = true →
     String.length y = 4 → String.length m = 2 → String.length d = 2 →
     nd_date detail = (y ++ "-" ++ m ++ "-" ++ d)%string) ∧
  (all_chars (not_ch "_") (newsletter_id meta) = true →
   nd_date detail = "--"%string) ∧
  nd_id detail = newsletter_id meta.
Proof.
  cbv zeta. unfold convertToUIFormat. cbn [nd_date nd_id].
  split; [|split; [|done]].
  - intros first y m d rest E A1 A2 Ly Lm Ld. rewrite E.
    change (first ++ "_" ++ y ++ m ++ d ++ rest)%string
      with (first ++ String "_" (y ++ m ++ d ++ rest))%string.
    rewrite (split_on_free "_" first) by (by apply split_on_none).
    assert (y ++ m ++ d ++ rest = (y ++ m ++ d) ++ rest)%string as ->
      by (by rewrite !append_assoc).
    destruct (split_on_head "_" _ rest A2) as (w & ws & ->).
    cbn [lookup list_lookup]. rewrite str_or_some.
    rewrite !append_assoc.
    by destruct (date_parts y m d w Ly Lm Ld) as (-> & -> & ->).
  - intros A. by rewrite (split_on_none _ _ A).
Qed.

Lemma detail_date_witness :
  newsletter_id MoreSamples.meta
  = ("newsletter" ++ "_" ++ "2026" ++ "01" ++ "12" ++ "_ab12cd")%string ∧
  nd_date (convertToUIFormat MoreSamples.toLocaleDateString MoreSamples.meta
             ∅ ∅)
  = ("2026" ++ "-" ++ "01" ++ "-" ++ "12")%string.
Proof.
  assert (newsletter_id MoreSamples.meta
          = ("newsletter" ++ "_" ++ "2026" ++ "01" ++ "12" ++ "_ab12cd")%string)
    as H by reflexivity.
  split; [exact H|].
  exact (proj1 (detail_date MoreSamples.toLocaleDateString MoreSamples.meta
                  ∅ ∅)
           "newsletter"%string "2026"%string "01"%string "12"%string
           "_ab12cd"%string H eq_refl eq_refl eq_refl eq_refl eq_refl).
Defined.

Lemma fetch_fallback_witness :
  MoreSamples.getSectionData "n" "data_centers" = Some Samples.section ∧
  MoreSamples.getEvidencePack "n" "data_centers" = None ∧
  ∃ detail,
    fetchNewsletterDetail MoreSamples.toLocaleDateString
      MoreSamples.getNewsletterMeta MoreSamples.getSectionData
      MoreSamples.getEvidencePack "n" = Some detail ∧
    renders (dataCenters (nd_sections detail)) = false.
Proof.
  split; [reflexivity|]. split; [reflexivity|].
  destruct (fetch_fallback MoreSamples.toLocaleDateString
              MoreSamples.getNewsletterMeta MoreSamples.getSectionData
              MoreSamples.getEvidencePack "n") as (detail & E & _ & H).
  exists detail. split; [exact E|].
  exact (proj1 (proj2 (H "data_centers"%string _ eq_refl)
                  (or_intror (or_intror eq_refl)))).
Defined.

Lemma stream_by_lines_witness :
  all_chars (not_ch newline) "data: {done}" = true ∧
  generateNewsletterStreaming MoreSamples.parse
    (Body [("event: complete" ++ String newline "data: {done}")%string])
  = generateNewsletterStreaming MoreSamples.parse
      (Body [("event: complete" ++ String newline "")%string]).
Proof.
  split; [reflexivity|].
  exact (proj2 (proj2 (proj2 (stream_by_lines MoreSamples.parse [])))
           "event: complete"%string "data: {done}"%string eq_refl).
Defined.


End ApiClientFacts.

(** ** Status updates, requests and regions of the generation view *)

Module GenerationMore.
Import JsText GenerationView GenerationFacts GenerationControls.
Local Open Scope list_scope.
Local Open Scope nat_scope.

Lemma updateStep_lookup stepId st prev i :
  updateStep stepId st prev !! i
  = (λ step,
       if String.eqb (id step) stepId then with_status st step
       else if bool_decide (st = active)
               && bool_decide (stepId ∈ parallelSteps)
               && bool_decide (id step ∈ parallelSteps) then step
       else if bool_decide (st = active)
               && bool_decide (status step = active)
               && negb (String.eqb (id step) stepId)
               && negb (bool_decide (id step ∈ parallelSteps))
            then with_status complete step
       else step) <$> prev !! i.
Proof. unfold updateStep. by rewrite list_lookup_fmap. Qed.

Lemma updateStep_cases (stepId : string) (st : StepStatus)
    (prev : list StatusStep) (i : nat) (step : StatusStep) :
  prev !! i = Some step →
  ∃ step',
    updateStep stepId st prev !! i = Some step' ∧
    id step' = id step ∧ label step' = label step ∧
    (id step = stepId → status step' = st) ∧
    (id step ≠ stepId → id step ∈ parallelSteps → step' = step) ∧
    (id step ≠ stepId → st = complete → step' = step) ∧
    (id step ≠ stepId → status step ≠ active → step' = step) ∧
    (id step ≠ stepId → st = active → status step = active →
     id step ∉ parallelSteps → status step' = complete).
Proof.
  intros Hi. rewrite updateStep_lookup, Hi. simpl. eexists. split; [done|].
  destruct (String.eqb_spec (id step) stepId) as [He|He].
  - simpl. repeat split; done.
  - destruct (decide (st = active)) as [->|Hst];
      destruct (decide (id step ∈ parallelSteps)) as [Hp|Hp];
      destruct (decide (status step = active)) as [Ha|Ha];
      destruct (decide (stepId ∈ parallelSteps)) as [Hs|Hs];
      rewrite ?(bool_decide_eq_true_2 _ Hp), ?(bool_decide_eq_false_2 _ Hp),
        ?(bool_decide_eq_true_2 _ Ha), ?(bool_decide_eq_false_2 _ Ha),
        ?(bool_decide_eq_true_2 _ Hs), ?(bool_decide_eq_false_2 _ Hs),
        ?(bool_decide_eq_false_2 _ Hst); simpl;
      repeat split; try done; try (intros; congruence).
    all: try by destruct st.
Qed.

(** X11: what a status update does to one step. Identifier and label
    are kept; the step named takes the new status; a research step is
    never touched by an update for another step; an update to complete
    touches no other step; and when a step becomes active, the other
    steps that were active are completed, except the research steps. *)
Theorem updateStep_effect (stepId : string) (st : StepStatus)
    (prev : list StatusStep) (i : nat) (step : StatusStep) :
  prev !! i = Some step →
  ∃ step',
    updateStep stepId st prev !! i = Some step' ∧
    id step' = id step ∧ label step' = label step ∧
    (id step = stepId → status step' = st) ∧
    (id step ≠ stepId → id step ∈ parallelSteps → step' = step) ∧
    (id step ≠ stepId → st = complete → step' = step) ∧
    (id step ≠ stepId → status step ≠ active → step' = step) ∧
    (id step ≠ stepId → st = active → status step = active →
     id step ∉ parallelSteps → status step' = complete).
Proof. apply updateStep_cases. Qed.

Lemma simulate_steps_lookup s x i step :
  s !! i = Some step →
  ∃ step', simulate_steps s x !! i = Some step' ∧ id step' = id step ∧
           (id step = id x → status step' = complete) ∧
           (id step ≠ id x → status step = complete → step' = step).
Proof.
  intros Hi. unfold simulate_steps.
  destruct (updateStep_cases (id x) active s i step Hi)
    as (a & Ha & Hida & _ & Hsame & _ & _ & Hkeep & _).
  destruct (updateStep_cases (id x) complete _ i a Ha)
    as (b & Hb & Hidb & _ & Hset & _ & Hother & _).
  exists b. split; [done|]. split; [congruence|]. split.
  - intros E. apply Hset. congruence.
  - intros Hne Hc. rewrite Hother; [|congruence|done].
    apply Hkeep; [done|]. rewrite Hc. done.
Qed.

Lemma simulate_all_lookup l s i step :
  s !! i = Some step →
  id step ∈ ids l ∨ status step = complete →
  ∃ step', foldl simulate_steps s l !! i = Some step' ∧
           id step' = id step ∧ status step' = complete.
Proof.
  revert s step. induction l as [|x l IH]; intros s step Hi Hor; simpl.
  - destruct Hor as [?%elem_of_nil|Hc]; [done|]. by exists step.
  - destruct (simulate_steps_lookup s x i step Hi)
      as (step1 & H1 & Hid1 & Hset & Hkeep).
    destruct (decide (id step = id x)) as [E|Hne].
    + destruct (IH _ _ H1 (or_intror (Hset E))) as (step' & ? & ? & ?).
      exists step'. repeat split; congruence.
    + destruct Hor as [[?|Hin]%elem_of_cons|Hc]; [done| |].
      * destruct (IH _ _ H1) as (step' & ? & ? & ?).
        { left. by rewrite Hid1. }
        exists step'. repeat split; congruence.
      * rewrite (Hkeep Hne Hc) in H1.
        destruct (IH _ _ H1 (or_intror Hc)) as (step' & ? & ? & ?).
        by exists step'.
Qed.

Lemma ids_simulate_all l s : ids (foldl simulate_steps s l) = ids s.
Proof.
  revert s. induction l as [|x l IH]; intros s; simpl; [done|].
  rewrite IH. unfold simulate_steps. by rewrite !ids_updateStep.
Qed.

Lemma simulate_all_complete l s :
  ids s = ids l → Forall (λ step, status step = complete) (foldl simulate_steps s l).
Proof.
  intros Hids. apply Forall_lookup. intros i step' Hi.
  assert (length (foldl simulate_steps s l) = length s) as Hlen.
  { pose proof (ids_simulate_all l s) as H. unfold ids in H.
    apply (f_equal length) in H. by rewrite !length_fmap in H. }
  destruct (lookup_lt_is_Some_2 s i) as [step Hs].
  { rewrite <- Hlen. by eapply lookup_lt_Some. }
  destruct (simulate_all_lookup l s i step Hs) as (step2 & H2 & _ & Hc).
  { left. rewrite <- Hids. unfold ids. apply list_elem_of_fmap.
    exists step. split; [done|]. by eapply list_elem_of_lookup_2. }
  congruence.
Qed.

Lemma steps_simulate r x :
  steps (simulate r x).1 = simulate_steps (steps r.1) x.
Proof. done. Qed.

Lemma steps_foldl_simulate l r :
  steps (foldl simulate r l).1 = foldl simulate_steps (steps r.1) l.
Proof.
  revert r. induction l as [|x l IH]; intros r; simpl; [done|].
  by rewrite IH.
Qed.

(** Frames *)

Lemma frame_update_steps f r : frame (update_steps f r).1 = frame r.1.
Proof. done. Qed.

Lemma frame_on_event r e : frame (on_event r e).1 = frame r.1.
Proof. by destruct e. Qed.

Lemma frame_simulate r x : frame (simulate r x).1 = frame r.1.
Proof. done. Qed.

Lemma frame_foldl {A} (f : Run → A → Run) (xs : list A) r :
  (∀ r x, frame (f r x).1 = frame r.1) → frame (foldl f r xs).1 = frame r.1.
Proof.
  intros Hf. revert r. induction xs as [|x xs IH]; intros r; simpl; [done|].
  by rewrite IH, Hf.
Qed.

Lemma requests_update_steps f r :
  List.filter is_request (update_steps f r).2 = List.filter is_request r.2.
Proof.
  unfold update_steps. cbn [snd]. rewrite List.filter_app. simpl.
  by rewrite app_nil_r.
Qed.

Lemma requests_on_event r e :
  List.filter is_request (on_event r e).2 = List.filter is_request r.2.
Proof. destruct e; [apply requests_update_steps|done]. Qed.

Lemma requests_simulate r x :
  List.filter is_request (simulate r x).2 = List.filter is_request r.2.
Proof. unfold simulate. by rewrite !requests_update_steps. Qed.

Lemma requests_foldl {A} (f : Run → A → Run) (xs : list A) r :
  (∀ r x, List.filter is_request (f r x).2 = List.filter is_request r.2) →
  List.filter is_request (foldl f r xs).2 = List.filter is_request r.2.
Proof.
  intros Hf. revert r. induction xs as [|x xs IH]; intros r; simpl; [done|].
  by rewrite IH, Hf.
Qed.

Lemma request_frame rs v v' : inputs v = inputs v' → request rs v = request rs v'.
Proof. unfold inputs, request. by intros [= -> -> -> ->]. Qed.

Lemma selectedVerticalIds_nonempty sel :
  dataCenters sel || connectivity sel || towers sel = true →
  selectedVerticalIds sel ≠ [].
Proof. destruct sel as [[] [] []]; done. Qed.

(** X12: the requests of a run with a vertical selected: the stream
    request first, with the settings read before it, and, only when the
    stream fails, a plain request with the settings read again at that
    moment (whatever progress was reported in between). The verticals
    requested are the selected ones, at least one, in the fixed order of
    the three identifiers; the two requests have the same time window,
    region focus and verticals, and they are the same request when the
    two reads of the settings agree. *)
Theorem requests_sent (rs : ResearchSettings) (backend : Backend) (v : View) :
  hasVerticals v = true →
  List.filter is_request (handleGenerate rs backend v).2
  = StreamRequest (request (at_stream rs) v)
    :: match stream_result backend with
       | Some _ => []
       | None => [Request (request (at_fallback rs) v)]
       end
  ∧ verticals (request (at_stream rs) v) = selectedVerticalIds (selected v)
  ∧ verticals (request (at_stream rs) v) ≠ []
  ∧ sublist (verticals (request (at_stream rs) v))
            ["data_centers"; "connectivity_fibre"; "towers_wireless"]%string
  ∧ time_window (request (at_fallback rs) v)
    = time_window (request (at_stream rs) v)
  ∧ region_focus (request (at_fallback rs) v)
    = region_focus (request (at_stream rs) v)
  ∧ verticals (request (at_fallback rs) v)
    = verticals (request (at_stream rs) v)
  ∧ (at_fallback rs = at_stream rs →
     request (at_fallback rs) v = request (at_stream rs) v).
Proof.
  intros Hsel. unfold hasVerticals in Hsel.
  split; [|split; [done|split; [by apply selectedVerticalIds_nonempty|]]].
  2: { split; [|by repeat split; try intros ->].
       cbn [request verticals]. unfold selectedVerticalIds.
       destruct (selected v) as [[] [] []]; cbn [dataCenters connectivity towers app];
         repeat first [apply sublist_skip | apply sublist_cons
                      | apply sublist_nil]. }
  rewrite handleGenerate_selected by done.
  unfold run_generation. cbv zeta. cbn [snd].
  set (r1 := emit (StreamRequest _) _).
  assert (List.filter is_request r1.2
          = [StreamRequest (request (at_stream rs) v)]) as H1 by done.
  assert (frame r1.1 = frame (begin_run v)) as F1 by done.
  set (r2 := foldl on_event r1 _).
  assert (List.filter is_request r2.2
          = [StreamRequest (request (at_stream rs) v)]) as H2
      by (unfold r2; by rewrite requests_foldl by apply requests_on_event).
  assert (frame r2.1 = frame (begin_run v)) as F2
      by (unfold r2; by rewrite frame_foldl by apply frame_on_event).
  destruct (stream_result backend) as [response|]; cbn [fst snd].
  - unfold emit. cbn [fst snd]. rewrite List.filter_app.
    by rewrite requests_update_steps, H2.
  - set (r := foldl simulate r2 _).
    assert (List.filter is_request r.2
            = [StreamRequest (request (at_stream rs) v)]) as Hr
        by (unfold r; by rewrite requests_foldl by apply requests_simulate).
    assert (frame r.1 = frame (begin_run v)) as Fr
        by (unfold r; by rewrite frame_foldl by apply frame_simulate).
    assert (request (at_fallback rs) r.1 = request (at_fallback rs) v) as ->.
    { apply request_frame. exact (f_equal snd Fr). }
    destruct (plain_result backend); unfold emit; cbn [fst snd];
      rewrite ?List.filter_app, Hr; done.
Qed.

(** X13: how a run ends. Whatever the backend does, the view stops
    generating, it lists the steps of the selection and all of them are
    complete; on success (by stream, or by the plain request after a
    failed stream) the newsletter is recorded as last and ready, no error
    is shown and the last toast announces it; when both requests fail
    the error is the message of the plain request, no newsletter is
    recorded and the last toast is the failure. *)
Theorem generation_outcome (rs : ResearchSettings) (backend : Backend)
    (v : View) :
  hasVerticals v = true →
  let v' := (handleGenerate rs backend v).1 in
  let trace := (handleGenerate rs backend v).2 in
  isGenerating v' = false ∧
  ids (steps v') = ids (getFilteredSteps (selected v)) ∧
  Forall (λ step, status step = complete) (steps v') ∧
  match stream_result backend, plain_result backend with
  | None, inl message =>
      error v' = Some message ∧ lastNewsletterId v' = None ∧
      readyNewsletterId v' = None ∧
      last trace = Some (Toast "Generation failed" message true)
  | Some response, _ | None, inr response =>
      error v' = None ∧
      lastNewsletterId v' = Some (newsletter_id response) ∧
      readyNewsletterId v' = Some (newsletter_id response) ∧
      generatedVerticalIds v' = selectedVerticalIds (selected v) ∧
      last trace = Some toast_generated
  end.
Proof.
  intros Hsel v' trace. unfold hasVerticals in Hsel.
  assert (ids (steps v') = ids (getFilteredSteps (selected v))) as Hids.
  { unfold v'. rewrite handleGenerate_selected by done.
    by destruct (tracks_run_generation rs backend v) as (_ & ? & _). }
  split; [|split; [done|]].
  { unfold v'. by rewrite handleGenerate_selected by done. }
  unfold v', trace. clear v' trace Hids.
  rewrite handleGenerate_selected by done.
  unfold run_generation. cbv zeta.
  set (r1 := emit (StreamRequest _) _).
  set (r2 := foldl on_event r1 _).
  assert (frame r2.1 = frame (begin_run v)) as F2
      by (unfold r2; by rewrite frame_foldl by apply frame_on_event).
  assert (selected r2.1 = selected v) as Hs2
      by exact (f_equal (λ x, x.2.1.1.1) F2).
  pose proof (f_equal (λ x, x.1.1.1.1.2) F2) as He2. simpl in He2.
  destruct (stream_result backend) as [response|]; cbn [fst snd].
  - split.
    { simpl. apply Forall_fmap, Forall_forall. by intros step _. }
    repeat split; simpl; try done; try (by rewrite Hs2).
    unfold emit. cbn [snd]. apply last_snoc.
  - set (r := foldl simulate r2 _).
    assert (frame r.1 = frame (begin_run v)) as Fr
        by (unfold r; by rewrite frame_foldl by apply frame_simulate).
    assert (Forall (λ step, status step = complete) (steps r.1)) as Hc.
    { unfold r. rewrite steps_foldl_simulate. apply simulate_all_complete.
      rewrite Hs2.
      assert (tracks (selected v) r2) as (_ & ? & _); [|done].
      apply tracks_foldl; [apply tracks_on_event|].
      apply tracks_emit; [done|]. split; [done|].
      split; [apply ids_with_status|].
      repeat constructor. apply ids_with_status. }
    assert (selected r.1 = selected v) as Hsr
        by exact (f_equal (λ x, x.2.1.1.1) Fr).
    pose proof (f_equal (λ x, x.1.1.1.2) Fr) as Hl. simpl in Hl.
    pose proof (f_equal (λ x, x.1.1.2) Fr) as Hr. simpl in Hr.
    pose proof (f_equal (λ x, x.1.1.1.1.2) Fr) as Her. simpl in Her.
    destruct (plain_result backend) as [message|response]; cbn [fst snd].
    + split; [done|]. repeat split; simpl; try done.
      unfold emit. cbn [snd]. apply last_snoc.
    + split; [done|]. repeat split; simpl; try done; try (by rewrite Hsr).
      unfold emit. cbn [snd]. apply last_snoc.
Qed.

Lemma toggleRegion_elem region prev x :
  x ∈ toggleRegion region prev ↔
  (x = region ∧ region ∉ prev) ∨ (x ≠ region ∧ x ∈ prev).
Proof.
  unfold toggleRegion. case_bool_decide as Hin.
  - rewrite list_elem_of_In, filter_In, <- list_elem_of_In.
    rewrite negb_true_iff, String.eqb_neq. split.
    + intros [? ?]. by right.
    + intros [[-> ?]|[? ?]]; done.
  - rewrite elem_of_app, list_elem_of_singleton. split.
    + intros [Hx| ->]; [right|by left]. split; [|done]. by intros ->.
    + intros [[-> ?]|[? ?]]; auto.
Qed.

Lemma toggleRegion_NoDup region prev :
  NoDup prev → NoDup (toggleRegion region prev).
Proof.
  intros Hnd. unfold toggleRegion. case_bool_decide as Hin.
  - by apply NoDup_ListNoDup, List.NoDup_filter, NoDup_ListNoDup.
  - apply NoDup_app. split; [done|]. split; [|apply NoDup_singleton].
    intros x Hx ->%list_elem_of_singleton. done.
Qed.

(** X14: whatever buttons are pressed, starting from a duplicate-free
    selection among the six regions, the selection stays duplicate-free
    and among the six, pressing a button flips that region and no other,
    and the region focus of the request is missing exactly when no region
    or all six are selected. *)
Theorem region_toggles (presses : list string) (start : list string) :
  NoDup start → start ⊆ regionOptions →
  Forall (λ r, r ∈ regionOptions) presses →
  let regions := foldl (λ prev r, toggleRegion r prev) start presses in
  NoDup regions ∧ regions ⊆ regionOptions ∧
  (∀ r x, x ∈ toggleRegion r regions ↔
          (x = r ∧ r ∉ regions) ∨ (x ≠ r ∧ x ∈ regions)) ∧
  (regionFocus regions = None ↔
   regions = [] ∨ ∀ r, r ∈ regionOptions → r ∈ regions).
Proof.
  intros Hnd Hsub Hp regions.
  assert (NoDup regions ∧ regions ⊆ regionOptions) as [Hnd' Hsub'].
  { unfold regions. clear regions. revert start Hnd Hsub.
    induction Hp as [|r presses Hr Hp IH]; intros start Hnd Hsub; [done|].
    simpl. apply IH; [by apply toggleRegion_NoDup|].
    intros x [[-> _]|[_ ?]]%toggleRegion_elem; [done|by apply Hsub]. }
  split; [done|]. split; [done|]. split; [intros; apply toggleRegion_elem|].
  assert (length regions ≤ 6) as Hlen.
  { change 6 with (length regionOptions).
    apply NoDup_incl_length; [by apply NoDup_ListNoDup|].
    intros x Hx%list_elem_of_In. by apply list_elem_of_In, Hsub'. }
  unfold regionFocus. split.
  - destruct regions as [|r0 rest] eqn:E; [by left|]. right.
    destruct (Nat.ltb_spec (length (r0 :: rest)) 6) as [Hlt|Hge];
      [done|].
    intros r Hr. apply list_elem_of_In.
    apply (NoDup_length_incl (l := r0 :: rest) (l' := regionOptions));
      [by apply NoDup_ListNoDup|done| |by apply list_elem_of_In].
    intros x Hx%list_elem_of_In. by apply list_elem_of_In, Hsub'.
  - intros [->|Hall]; [done|].
    assert (6 ≤ length regions) as Hge.
    { change 6 with (length regionOptions).
      apply NoDup_incl_length.
      - apply NoDup_ListNoDup. apply (bool_decide_unpack _). by vm_compute.
      - intros x Hx%list_elem_of_In. by apply list_elem_of_In, Hall. }
    destruct (Nat.ltb_spec (length regions) 6); [lia|].
    by rewrite andb_false_r.
Qed.

Lemma updateStep_effect_witness :
  MoreSamples.running !! 0 = Some MoreSamples.manager_active ∧
  ∃ step', updateStep "review" active MoreSamples.running !! 0 = Some step' ∧
           status step' = complete.
Proof.
  assert (MoreSamples.running !! 0 = Some MoreSamples.manager_active) as H
    by reflexivity.
  split; [exact H|].
  destruct (updateStep_effect "review" active _ 0 _ H)
    as (step' & E & _ & _ & _ & _ & _ & _ & C).
  exists step'. split; [exact E|].
  apply C; [done|done|done|].
  apply (bool_decide_unpack _). by vm_compute.
Defined.

Lemma requests_sent_witness :
  hasVerticals (Samples.view Samples.towers_only) = true ∧
  List.filter is_request
    (handleGenerate Samples.research_settings Samples.failing_stream
       (Samples.view Samples.towers_only)).2
  = [StreamRequest
       (request (at_stream Samples.research_settings)
                (Samples.view Samples.towers_only));
     Request
       (request (at_fallback Samples.research_settings)
                (Samples.view Samples.towers_only))] ∧
  max_review_rounds
    (request (at_stream Samples.research_settings)
             (Samples.view Samples.towers_only)) = 2 ∧
  max_review_rounds
    (request (at_fallback Samples.research_settings)
             (Samples.view Samples.towers_only)) = 3 ∧
  verticals (request (at_stream Samples.research_settings)
               (Samples.view Samples.towers_only))
  = ["towers_wireless"%string].
Proof.
  assert (hasVerticals (Samples.view Samples.towers_only) = true) as H
    by reflexivity.
  split; [exact H|].
  split; [exact (proj1 (requests_sent Samples.research_settings
                          Samples.failing_stream _ H))|].
  split; [reflexivity|]. split; [reflexivity|].
  exact (proj1 (proj2 (requests_sent Samples.research_settings
                         Samples.failing_stream _ H))).
Defined.

Lemma generation_outcome_witness :
  hasVerticals (Samples.view Samples.towers_only) = true ∧
  isGenerating
    (handleGenerate Samples.research_settings Samples.chatty_backend
       (Samples.view Samples.towers_only)).1 = false.
Proof.
  assert (hasVerticals (Samples.view Samples.towers_only) = true) as H
    by reflexivity.
  split; [exact H|].
  exact (proj1 (generation_outcome Samples.research_settings
                  Samples.chatty_backend _ H)).
Defined.

Lemma region_toggles_witness :
  NoDup ["UK"; "EU"]%string ∧
  NoDup (foldl (λ prev r, toggleRegion r prev) ["UK"; "EU"]%string
               ["US"; "UK"; "MENA"]%string).
Proof.
  assert (NoDup ["UK"; "EU"]%string) as Hnd
    by (apply (bool_decide_unpack _); by vm_compute).
  assert (["UK"; "EU"]%string ⊆ regionOptions) as Hsub
    by (apply (bool_decide_unpack _); by vm_compute).
  assert (Forall (λ r, r ∈ regionOptions) ["US"; "UK"; "MENA"]%string) as Hp
    by (apply (bool_decide_unpack _); by vm_compute).
  split; [exact Hnd|].
  exact (proj1 (region_toggles _ _ Hnd Hsub Hp)).
Defined.

End GenerationMore.

(** ** Storage round trips of the settings modal *)

Module SettingsModalFacts.
Import JsText JsTextFacts JsPatterns RegexFacts JsNumber JsNumberFacts.
Import Settings SettingsFacts
  SettingsModal.
Local Open Scope list_scope.
Local Open Scope nat_scope.

Lemma foldl_same {A B} (f : A * bool → B → A * bool) :
  (∀ st x, (f st x).2 = false → f st x = st) →
  ∀ l st, (foldl f st l).2 = false → foldl f st l = st.
Proof.
  intros Hf l. induction l as [|x l IH]; intros st H; [done|].
  simpl in *. rewrite (IH _ H) in H |- *. by apply Hf.
Qed.

Lemma migrate_player_same v st p :
  (migrate_player v st p).2 = false → migrate_player v st p = st.
Proof. unfold migrate_player. by destruct (st.1 !! v ≫= _). Qed.

Lemma migrate_vertical_same st entry :
  (migrate_vertical st entry).2 = false → migrate_vertical st entry = st.
Proof.
  unfold migrate_vertical. intros H.
  pose proof (foldl_same _ (migrate_player_same entry.1) _ _ H) as E.
  rewrite E in H |- *. destruct (st.1 !! entry.1); [done|]. done.
Qed.

Lemma migrate_same parsed :
  (migrate parsed).2 = false → (migrate parsed).1 = parsed.
Proof.
  unfold migrate. intros H.
  by rewrite (foldl_same _ migrate_vertical_same _ _ H).
Qed.

Lemma flag_present s v p : is_Some (flag s v p) → is_Some (s !! v).
Proof. unfold flag. destruct (s !! v); [eauto|]. by intros [? ?]. Qed.

Lemma migrate_players_complete v players st :
  (∀ p, p ∈ players → is_Some (flag st.1 v p)) →
  foldl (migrate_player v) st players = st.
Proof.
  induction players as [|p players IH]; intros H; [done|].
  simpl. assert (migrate_player v st p = st) as ->.
  { unfold migrate_player. destruct (H p) as [b Hb]; [left|].
    unfold flag in Hb. by rewrite Hb. }
  apply IH. intros q Hq. apply H. by right.
Qed.

Lemma migrate_entries_complete entries st :
  (∀ entry, entry ∈ entries →
     is_Some (st.1 !! entry.1) ∧
     ∀ p, p ∈ entry.2 → is_Some (flag st.1 entry.1 p)) →
  foldl migrate_vertical st entries = st.
Proof.
  induction entries as [|e entries IH]; intros H; [done|].
  simpl. assert (migrate_vertical st e = st) as ->.
  { unfold migrate_vertical. destruct (H e) as [[m Hm] Hp]; [left|].
    rewrite Hm. by apply migrate_players_complete. }
  apply IH. intros e' He'. apply H. by right.
Qed.

Lemma default_players_nonempty entry :
  entry ∈ DEFAULT_PLAYERS → ∃ p, p ∈ entry.2.
Proof.
  intros H. assert (Forall (λ e, ∃ p, p ∈ e.2) DEFAULT_PLAYERS) as F.
  { repeat constructor; eexists; left. }
  by apply (proj1 (Forall_forall _ _) F).
Qed.

Lemma migrate_complete s : complete s → migrate s = (s, false).
Proof.
  intros C. unfold migrate. apply migrate_entries_complete.
  intros [v players] He. simpl. split.
  - destruct (default_players_nonempty _ He) as [p Hp].
    apply (flag_present _ _ p), C. by apply (listed_default v players).
  - intros p Hp. apply C. by apply (listed_default v players).
Qed.

Lemma read_complete ls : complete (getPlayerSettings (Some ls)).1.
Proof. intros v p L. rewrite browser_flag by done. eauto. Qed.

Lemma read_writes_back ls :
  ∃ ls', (getPlayerSettings (Some ls)).2 = Some ls' ∧
         player_settings ls' = Json (getPlayerSettings (Some ls)).1 ∧
         player_names ls' = player_names ls.
Proof.
  unfold getPlayerSettings.
  destruct (player_settings ls) as [| |parsed] eqn:E;
    [by eexists..|].
  pose proof (migrate_same parsed) as S.
  destruct (migrate parsed) as [s' [|]]; simpl in *.
  - by eexists.
  - exists ls. rewrite S by done. done.
Qed.

(** X15: reading the player settings a second time changes nothing: the
    first read leaves in storage exactly the settings it returned, names
    untouched, and a further read returns them again without writing; the
    active players computed after a read are those computed before. *)
Theorem settings_read_stable (w : Window) :
  getPlayerSettings (getPlayerSettings w).2 = getPlayerSettings w ∧
  getActivePlayers (getPlayerSettings w).2 = getActivePlayers w ∧
  (∀ ls, w = Some ls →
     ∃ ls', (getPlayerSettings w).2 = Some ls' ∧
            player_settings ls' = Json (getPlayerSettings w).1 ∧
            player_names ls' = player_names ls).
Proof.
  assert (getPlayerSettings (getPlayerSettings w).2 = getPlayerSettings w)
    as Stable.
  { destruct w as [ls|]; [|done].
    destruct (read_writes_back ls) as (ls' & E & S & _).
    pose proof (read_complete ls) as C.
    destruct (getPlayerSettings (Some ls)) as [s w']. cbn [fst snd] in *.
    subst w'. unfold getPlayerSettings. rewrite S.
    by rewrite (migrate_complete _ C). }
  split; [done|]. split.
  - unfold getActivePlayers. rewrite Stable.
    by destruct (getPlayerSettings w).
  - intros ls ->. apply read_writes_back.
Qed.

Lemma read_flag ls parsed v p :
  player_settings ls = Json parsed →
  flag (getPlayerSettings (Some ls)).1 v p
  = if decide (listed DEFAULT_PLAYERS v p)
    then Some (default true (flag parsed v p))
    else flag parsed v p.
Proof.
  intros E. unfold getPlayerSettings. rewrite E.
  pose proof (migrate_entries_flag DEFAULT_PLAYERS (parsed, false) v p) as M.
  unfold migrate. by destruct (foldl _ _ _).
Qed.

Lemma read_flag_stored ls parsed v p b :
  player_settings ls = Json parsed → flag parsed v p = Some b →
  flag (getPlayerSettings (Some ls)).1 v p = Some b.
Proof. intros E Hb. rewrite (read_flag _ _ _ _ E), Hb. by destruct (decide _). Qed.

(** X16: the migration never overrides what was stored: a flag that the
    stored settings hold is returned as it is, a player outside the
    defaults that has no stored flag gets none, and stored settings with
    a flag for every default player are returned unchanged, without a
    write. *)
Theorem migration_keeps_stored (ls : LocalStorage) (parsed : PlayerSettings) :
  player_settings ls = Json parsed →
  (∀ vertical player b,
     flag parsed vertical player = Some b →
     flag (getPlayerSettings (Some ls)).1 vertical player = Some b) ∧
  (∀ vertical player,
     ¬ listed DEFAULT_PLAYERS vertical player →
     flag (getPlayerSettings (Some ls)).1 vertical player
     = flag parsed vertical player) ∧
  (complete parsed → getPlayerSettings (Some ls) = (parsed, Some ls)).
Proof.
  intros E. pose proof (λ v p, read_flag ls parsed v p E) as F.
  split; [|split].
  - intros v p b Hb. rewrite F, Hb. by destruct (decide _).
  - intros v p L. rewrite F. by destruct (decide _).
  - intros C. unfold getPlayerSettings. rewrite E.
    by rewrite (migrate_complete _ C).
Qed.

Lemma flag_insert (s : PlayerSettings) v p b v' p' :
  flag (<[v := <[p := b]> (default ∅ (s !! v))]> s) v' p'
  = if decide (v' = v ∧ p' = p) then Some b else flag s v' p'.
Proof.
  unfold flag. destruct (decide (v' = v)) as [->|Hv].
  - rewrite lookup_insert_eq. simpl. destruct (decide (p' = p)) as [->|Hp].
    + rewrite lookup_insert_eq. by rewrite decide_True.
    + rewrite lookup_insert_ne by done. rewrite decide_False by tauto.
      by destruct (s !! v).
  - rewrite lookup_insert_ne by done. by rewrite decide_False by tauto.
Qed.

(** X17: a toggle is read back: the player shows as enabled exactly when
    it was switched on, no other flag moves, the storage holds the new
    settings, a later read of the storage returns the flag, and of two
    toggles of the same player the last one wins. *)
Theorem toggle_round_trip (vertical player : string) (enabled : bool)
    (st : Modal * LocalStorage) :
  let st' := handleToggle vertical player enabled st in
  isPlayerEnabled st'.1 vertical player = enabled ∧
  (∀ v p, (v, p) ≠ (vertical, player) →
     flag (settings st'.1) v p = flag (settings st.1) v p) ∧
  player_settings st'.2 = Json (settings st'.1) ∧
  player_names st'.2 = player_names st.2 ∧
  names st'.1 = names st.1 ∧
  flag (getPlayerSettings (Some st'.2)).1 vertical player = Some enabled ∧
  (∀ enabled0,
     handleToggle vertical player enabled
       (handleToggle vertical player enabled0 st) = st').
Proof.
  cbv zeta. unfold handleToggle, isPlayerEnabled. cbn [fst snd settings names
    with_settings setItem_settings player_settings player_names].
  split; [|split; [|split; [|split; [|split; [|split]]]]]; try done.
  - change (is_true (flag (<[vertical := <[player := enabled]>
              (default ∅ (settings st.1 !! vertical))]> (settings st.1))
              vertical player) = enabled).
    rewrite flag_insert, decide_True by done. by destruct enabled.
  - intros v p N. rewrite flag_insert, decide_False; [done|].
    intros [-> ->]. done.
  - apply (read_flag_stored _ (<[vertical := <[player := enabled]>
            (default ∅ (settings st.1 !! vertical))]> (settings st.1)));
      [done|]. by rewrite flag_insert, decide_True.
  - intros enabled0. rewrite lookup_insert_eq. cbn [default]. unfold id.
    by rewrite !insert_insert_eq.
Qed.

Lemma players_of_default vertical players :
  (vertical, players) ∈ DEFAULT_PLAYERS → players_of vertical = players.
Proof.
  intros H.
  assert (Forall (λ e, players_of e.1 = e.2) DEFAULT_PLAYERS) as F
    by (repeat (constructor; [reflexivity|]); constructor).
  exact (proj1 (Forall_forall _ _) F _ H).
Qed.

Lemma listed_players_of vertical player :
  listed DEFAULT_PLAYERS vertical player ↔ player ∈ players_of vertical.
Proof.
  unfold listed. rewrite Exists_exists. split.
  - intros ([v players] & He & -> & Hp). simpl in *.
    by rewrite (players_of_default _ _ He).
  - unfold players_of. intros Hp.
    destruct (List.find _ DEFAULT_PLAYERS) as [e|] eqn:F; [|by inversion Hp].
    apply find_some in F as [Hin Heq]. exists e.
    apply String.eqb_eq in Heq. split; [by apply list_elem_of_In|]. done.
Qed.

Lemma foldl_flags (b : bool) l (m : gmap string bool) q :
  foldl (λ m p, <[p := b]> m) m l !! q
  = if decide (q ∈ l) then Some b else m !! q.
Proof.
  revert m. induction l as [|p l IH]; intros m; cbn [foldl].
  - destruct (decide (q ∈ [])) as [H|]; [by inversion H|done].
  - rewrite IH. destruct (decide (q ∈ l)) as [Hq|Hq];
      destruct (decide (q ∈ p :: l)) as [H|H]; try done.
    + exfalso. apply H. by right.
    + apply elem_of_cons in H as [->|?]; [by rewrite lookup_insert_eq|done].
    + rewrite lookup_insert_ne; [done|]. intros ->. apply H. left.
Qed.

Lemma flag_toggle_all (s : PlayerSettings) v b v' p' :
  flag (<[v := foldl (λ m p, <[p := b]> m) ∅ (players_of v)]> s) v' p'
  = if decide (v' = v)
    then (if decide (p' ∈ players_of v) then Some b else None)
    else flag s v' p'.
Proof.
  unfold flag. destruct (decide (v' = v)) as [->|Hv].
  - rewrite lookup_insert_eq. simpl. by rewrite foldl_flags.
  - by rewrite lookup_insert_ne.
Qed.

Lemma filter_all {A} (f : A → bool) l :
  (∀ x, x ∈ l → f x = true) → List.filter f l = l.
Proof.
  induction l as [|x l IH]; intros H; [done|]. simpl.
  rewrite H by left. f_equal. apply IH. intros y Hy. apply H. by right.
Qed.

Lemma filter_none {A} (f : A → bool) l :
  (∀ x, x ∈ l → f x = false) → List.filter f l = [].
Proof.
  induction l as [|x l IH]; intros H; [done|]. simpl.
  rewrite H by left. apply IH. intros y Hy. apply H. by right.
Qed.

Lemma forallb_all {A} (f : A → bool) l :
  (∀ x, x ∈ l → f x = true) → forallb f l = true.
Proof.
  intros H. apply forallb_forall. intros x Hx. apply H.
  by apply list_elem_of_In.
Qed.

Lemma forallb_never {A} (f : A → bool) l :
  (∀ x, x ∈ l → f x = false) → forallb f l = bool_decide (l = []).
Proof.
  destruct l as [|x l]; intros H; [done|]. cbn [forallb].
  rewrite H by left. done.
Qed.

(** X18: select all and deselect all: every default player of the vertical
    gets the flag, the enabled count is all or nothing, any flag the
    vertical held for another player is dropped, the other verticals are
    left alone, and the button flips the all-enabled state. *)
Theorem toggle_all_round_trip (vertical : string) (enabled : bool)
    (st : Modal * LocalStorage) :
  let st' := handleToggleAll vertical enabled st in
  (∀ p, flag (settings st'.1) vertical p
        = if decide (p ∈ players_of vertical) then Some enabled else None) ∧
  (∀ v p, v ≠ vertical →
     flag (settings st'.1) v p = flag (settings st.1) v p) ∧
  getEnabledCount st'.1 vertical
  = (if enabled then length (players_of vertical) else 0) ∧
  areAllEnabled st'.1 vertical
  = (enabled || bool_decide (players_of vertical = [])) ∧
  player_settings st'.2 = Json (settings st'.1) ∧
  areAllEnabled (pressToggleAll vertical st).1 vertical
  = (negb (areAllEnabled st.1 vertical)
     || bool_decide (players_of vertical = [])).
Proof.
  assert (∀ b p, p ∈ players_of vertical →
            isPlayerEnabled (handleToggleAll vertical b st).1 vertical p = b)
    as En.
  { intros b p Hp. unfold isPlayerEnabled, handleToggleAll.
    cbn [fst settings with_settings].
    change (is_true (flag (<[vertical := foldl (λ m p, <[p := b]> m) ∅
              (players_of vertical)]> (settings st.1)) vertical p) = b).
    rewrite flag_toggle_all, !decide_True by done. by destruct b. }
  assert (∀ b, areAllEnabled (handleToggleAll vertical b st).1 vertical
               = (b || bool_decide (players_of vertical = []))) as All.
  { intros b. unfold areAllEnabled. destruct b.
    - apply forallb_all. intros x Hx. by apply En.
    - apply forallb_never. intros x Hx. by apply En. }
  cbv zeta. split; [|split; [|split; [|split; [|split]]]].
  - intros p. unfold handleToggleAll. cbn [fst settings with_settings].
    by rewrite flag_toggle_all, decide_True.
  - intros v p N. unfold handleToggleAll. cbn [fst settings with_settings].
    by rewrite flag_toggle_all, decide_False.
  - unfold getEnabledCount. destruct enabled.
    + rewrite filter_all; [done|]. intros. by apply En.
    + rewrite filter_none; [done|]. intros. by apply En.
  - apply All.
  - done.
  - unfold pressToggleAll. apply All.
Qed.

Lemma synced_read st :
  synced st → complete (settings st.1) →
  getPlayerSettings (Some st.2) = (settings st.1, Some st.2).
Proof.
  intros [S _] C. unfold getPlayerSettings. rewrite S.
  by rewrite (migrate_complete _ C).
Qed.

Lemma open_modal_ok st :
  synced (open_modal st) ∧ complete (settings (open_modal st).1).
Proof.
  unfold open_modal.
  destruct (read_writes_back st.2) as (ls' & E & S & N).
  pose proof (read_complete st.2) as C.
  destruct (getPlayerSettings (Some st.2)) as [s w]. cbn [fst snd] in *. subst w.
  split; [|done]. split; simpl; done.
Qed.

Lemma act_ok st a :
  synced st ∧ complete (settings st.1) →
  synced (act st a) ∧ complete (settings (act st a).1).
Proof.
  intros [[S N] C]. destruct a as [v p b|v|v p value]; simpl.
  - split; [split; [done|]|].
    + unfold handleToggle. cbn [fst snd names with_settings]. by rewrite <- N.
    + intros v' p' L. unfold handleToggle. cbn [fst settings with_settings].
      rewrite flag_insert. destruct (decide _); [eauto|by apply C].
  - split; [split; [done|]|].
    + unfold pressToggleAll, handleToggleAll.
      cbn [fst snd names with_settings]. by rewrite <- N.
    + intros v' p' L. unfold pressToggleAll, handleToggleAll.
      cbn [fst settings with_settings]. rewrite flag_toggle_all.
      destruct (decide (v' = v)) as [->|]; [|by apply C].
      rewrite decide_True; [eauto|]. by apply listed_players_of.
  - unfold saveEditing. cbn [fst snd editingPlayer setEditValue startEditing].
    split; [split; [done|done]|done].
Qed.

Lemma actions_ok st actions :
  synced (foldl act (open_modal st) actions) ∧
  complete (settings (foldl act (open_modal st) actions).1).
Proof.
  induction actions as [|a actions IH] using rev_ind.
  - apply open_modal_ok.
  - rewrite foldl_app. simpl. by apply act_ok.
Qed.

(** X19: what the modal shows is what a request will carry: after the modal
    opened, and whatever toggles, select-all presses and renames
    followed, reading the storage returns the modal's settings without
    writing, the active players of each default vertical are the enabled
    players under the names the modal displays, in the default order, and
    the count the modal shows is their number. *)
Theorem modal_matches_request (st : Modal * LocalStorage)
    (actions : list Action) :
  let st' := foldl act (open_modal st) actions in
  getPlayerSettings (Some st'.2) = (settings st'.1, Some st'.2) ∧
  getPlayerNames (Some st'.2) = names st'.1 ∧
  ∀ vertical players,
    (vertical, players) ∈ DEFAULT_PLAYERS →
    (getActivePlayers (Some st'.2)).1 !! vertical
    = Some (getDisplayName st'.1 vertical <$>
              List.filter (isPlayerEnabled st'.1 vertical) players) ∧
    getEnabledCount st'.1 vertical
    = length (default [] ((getActivePlayers (Some st'.2)).1 !! vertical)).
Proof.
  cbv zeta. destruct (actions_ok st actions) as [S C].
  set (st' := foldl act (open_modal st) actions) in *.
  pose proof (synced_read _ S C) as R.
  split; [done|]. split; [apply S|].
  intros vertical players He.
  assert ((getActivePlayers (Some st'.2)).1 !! vertical
          = Some (getDisplayName st'.1 vertical <$>
                    List.filter (isPlayerEnabled st'.1 vertical) players)) as A.
  { rewrite (getActivePlayers_lookup _ _ _ He), R. cbn [fst snd].
    rewrite (proj2 S), activeIn_spec. done. }
  split; [done|]. rewrite A. cbn [default]. unfold id. rewrite length_fmap.
  unfold getEnabledCount. by rewrite (players_of_default _ _ He).
Qed.

Lemma clamp_rounds_cases value :
  clamp_rounds value ∈ [1; 2; 3; 4; 5]%Z.
Proof.
  unfold clamp_rounds.
  assert (Z.max 1 (Z.min 5 value) = 1 ∨ Z.max 1 (Z.min 5 value) = 2 ∨
          Z.max 1 (Z.min 5 value) = 3 ∨ Z.max 1 (Z.min 5 value) = 4 ∨
          Z.max 1 (Z.min 5 value) = 5)%Z as H by lia.
  destruct H as [-> | [-> | [-> | [-> | ->]]]]; set_solver.
Qed.

(** X21: the review rounds survive the storage: whatever number the
    handler is given, it keeps a value from 1 to 5 (the value itself when
    it is in that range), and [getReviewRounds] reads that value back
    from the text stored; the search provider is left alone. *)
Theorem review_rounds_round_trip (value : Z) (prefs : Preferences) :
  let '(rounds, prefs') := handleReviewRoundsChange value prefs in
  (1 ≤ rounds ≤ 5)%Z ∧
  ((1 ≤ value ≤ 5)%Z → rounds = value) ∧
  getReviewRounds (Some prefs') = rounds ∧
  search_provider prefs' = search_provider prefs.
Proof.
  unfold handleReviewRoundsChange.
  pose proof (clamp_rounds_cases value) as H.
  split; [|split; [|split]].
  - unfold clamp_rounds. lia.
  - unfold clamp_rounds. lia.
  - cbn [review_rounds]. repeat (apply elem_of_cons in H as [->|H]; [done|]).
    by inversion H.
  - done.
Qed.

(** X22: reading the review rounds never clamps and never yields zero: a
    stored positive number is returned as it is, also above 5, and a
    missing key, an empty text or a stored zero give 2. *)
Theorem review_rounds_read (w : option Preferences) :
  getReviewRounds w ≠ 0%Z ∧
  (∀ prefs n, w = Some prefs →
     review_rounds prefs = Some (num_to_string n) →
     (Z.of_nat n < 2 ^ 53)%Z →
     getReviewRounds w = if decide (n = 0) then 2%Z else Z.of_nat n) ∧
  (∀ prefs, w = Some prefs →
     review_rounds prefs = None ∨ review_rounds prefs = Some "" →
     getReviewRounds w = 2%Z) ∧
  (w = None → getReviewRounds w = 2%Z).
Proof.
  split; [|split; [|split]].
  - destruct w as [prefs|]; [|done]. simpl.
    destruct (review_rounds prefs) as [[|c r]|]; try done.
    unfold num_or_default.
    destruct (parseInt (String c r)) as [[| |]|]; done.
  - intros prefs n -> E _. simpl. rewrite E.
    destruct (num_to_string_head n) as (c & r & En & _).
    rewrite En. rewrite <- En.
    pose proof (parseInt_num_to_string n "" I) as P.
    rewrite append_empty in P. rewrite P.
    destruct (decide (n = 0)) as [->|Hn]; [done|].
    unfold num_or_default. destruct n; [done|]. done.
  - intros prefs -> [E|E]; simpl; by rewrite E.
  - by intros ->.
Qed.

(** X23: the search provider read from storage is always one of the two
    known providers, whatever was stored; a provider chosen in the modal
    is read back, and choosing one leaves the review rounds alone. *)
Theorem search_provider_read (w : option Preferences) :
  getSearchProvider w ∈ ["openai"; "tavily"]%string ∧
  (∀ prefs stored, w = Some prefs → search_provider prefs = Some stored →
     stored ∉ ["openai"; "tavily"]%string →
     getSearchProvider w = "openai"%string) ∧
  (∀ prefs provider,
     provider ∈ ["openai"; "tavily"]%string →
     getSearchProvider (Some (handleSearchProviderChange provider prefs).2)
     = provider ∧
     getReviewRounds (Some (handleSearchProviderChange provider prefs).2)
     = getReviewRounds (Some prefs)).
Proof.
  assert (∀ stored : string,
            (String.eqb stored "tavily" || String.eqb stored "openai") = true
            ↔ stored ∈ ["openai"; "tavily"]%string) as V.
  { intros stored. rewrite orb_true_iff, !String.eqb_eq.
    rewrite !elem_of_cons, elem_of_nil. tauto. }
  split; [|split].
  - destruct w as [prefs|]; [|left]. simpl.
    destruct (search_provider prefs) as [stored|]; [|left].
    destruct (_ || _) eqn:E; [by apply V|left].
  - intros prefs stored -> E N. simpl. rewrite E.
    destruct (_ || _) eqn:B; [|done]. by apply V in B.
  - intros prefs provider Hp. split; [|done]. simpl.
    apply V in Hp. by rewrite Hp.
Qed.

Lemma names_insert (s : PlayerNames) v p x v' p' :
  <[v := <[p := x]> (default ∅ (s !! v))]> s !! v' ≫= (.!! p')
  = if decide (v' = v ∧ p' = p) then Some x else s !! v' ≫= (.!! p').
Proof.
  destruct (decide (v' = v)) as [->|Hv].
  - rewrite lookup_insert_eq. simpl. destruct (decide (p' = p)) as [->|Hp].
    + rewrite lookup_insert_eq. by rewrite decide_True.
    + rewrite lookup_insert_ne by done. rewrite decide_False by tauto.
      by destruct (s !! v).
  - rewrite lookup_insert_ne by done. by rewrite decide_False by tauto.
Qed.

(** X20: renaming a player: the name typed is trimmed; a blank name
    restores the original one; every other player keeps the name shown before;
    the editor closes; the storage holds the names shown, so the name
    under which the player is reported to the backend is the one
    displayed. *)
Theorem rename_round_trip (vertical player value : string)
    (st : Modal * LocalStorage) :
  let st' := saveEditing
               (setEditValue value (startEditing vertical player st.1),
                st.2) in
  getDisplayName st'.1 vertical player = str_or (Some (trim value)) player ∧
  (trim value = "" → getDisplayName st'.1 vertical player = player) ∧
  (∀ v p, (v, p) ≠ (vertical, player) →
     getDisplayName st'.1 v p = getDisplayName st.1 v p) ∧
  editingPlayer st'.1 = None ∧
  settings st'.1 = settings st.1 ∧
  player_settings st'.2 = player_settings st.2 ∧
  getPlayerNames (Some st'.2) = names st'.1 ∧
  reported (getPlayerNames (Some st'.2)) vertical player
  = getDisplayName st'.1 vertical player.
Proof.
  cbv zeta. unfold saveEditing, getDisplayName, reported.
  cbn [fst snd editingPlayer setEditValue startEditing names editValue
       settings setItem_names getPlayerNames player_names player_settings].
  assert (str_or (<[vertical := <[player := str_or (Some (trim value)) player]>
            (default ∅ (names st.1 !! vertical))]> (names st.1)
            !! vertical ≫= (.!! player)) player
          = str_or (Some (trim value)) player) as E.
  { rewrite names_insert, decide_True by done.
    destruct (trim value); [|done]. simpl. by destruct player. }
  split; [done|]. split.
  { intros T. rewrite E, T. done. }
  split.
  { intros v p N. rewrite names_insert, decide_False; [done|].
    by intros [-> ->]. }
  done.
Qed.

Lemma migration_keeps_stored_witness :
  player_settings Samples.old_storage = Json MoreSamples.old_settings ∧
  flag MoreSamples.old_settings "data_centers" "Equinix" = Some false ∧
  flag (getPlayerSettings (Some Samples.old_storage)).1
       "data_centers" "Equinix" = Some false.
Proof.
  assert (player_settings Samples.old_storage = Json MoreSamples.old_settings)
    as H by reflexivity.
  assert (flag MoreSamples.old_settings "data_centers" "Equinix" = Some false)
    as F by (by vm_compute).
  split; [exact H|]. split; [exact F|].
  exact (proj1 (migration_keeps_stored _ _ H) _ _ _ F).
Defined.

Lemma modal_matches_request_witness :
  Samples.data_centre_entry ∈ DEFAULT_PLAYERS ∧
  getEnabledCount
    (foldl act (open_modal MoreSamples.closed_modal)
       [Toggle "data_centers" "Equinix" true; ToggleAll "towers_wireless"]).1
    "data_centers"
  = length
      (default []
         ((getActivePlayers
             (Some (foldl act (open_modal MoreSamples.closed_modal)
                      [Toggle "data_centers" "Equinix" true;
                       ToggleAll "towers_wireless"]).2)).1
            !! "data_centers"%string)).
Proof.
  assert (Samples.data_centre_entry ∈ DEFAULT_PLAYERS) as H
    by (vm_compute; constructor).
  split; [exact H|].
  exact (proj2 (proj2 (proj2 (modal_matches_request MoreSamples.closed_modal
                                [Toggle "data_centers" "Equinix" true;
                                 ToggleAll "towers_wireless"]))
                  "data_centers"%string _ H)).
Defined.

Lemma review_rounds_read_witness :
  SettingsModal.review_rounds MoreSamples.seven_rounds
  = Some (num_to_string 7) ∧
  getReviewRounds (Some MoreSamples.seven_rounds) = 7%Z.
Proof.
  split; [reflexivity|].
  exact (proj1 (proj2 (review_rounds_read (Some MoreSamples.seven_rounds)))
           MoreSamples.seven_rounds 7 eq_refl eq_refl eq_refl).
Defined.

End SettingsModalFacts.
